(** * The flattened device tree engine of depthcharge (src/base/device_tree.c)

    A shallow embedding of the reader, the tree builder, the navigator and
    mutator, the size calculator, the flattener, the fixups and the record
    pools, followed by the properties proved about them.

    Conventions of the embedding.
    - [uint32_t] values are integers in [Z]; every [uint32_t] result is
      reduced with [wrap32], also where a wider value is converted to
      [uint32_t] (a parameter, a struct field).
    - The [int] cursors and byte counts of the reader and of the builder of
      nodes are reduced with [wrap_int]: a 32-bit [int] in two's complement,
      which is how a wider or unsigned value is converted to [int]; a sum
      or product of [int] values that leaves the range, undefined in C, is
      taken to wrap the same way.
    - [size_t], pointer differences and the other [int] variables are kept
      exact in [Z]: they measure objects that exist in memory.  Theorems
      whose statement depends on it carry the bound that keeps the
      quantities inside the 32-bit range.
    - Memory reached through a [void *] is a total function from byte
      offsets to bytes ([memory]); a pointer into it is an offset.  The
      buffer behind a property's data pointer, or a freshly allocated
      object, is the list of its bytes.
    - A recursion or a loop that C does not bound (walking a blob, looking
      for a string terminator) takes an allowance [fuel] of calls and rounds
      and returns [None] when it is used up.
    - A C string is a [string] holding the characters before the
      terminator; [strcmp] on two such strings is string equality.
    - An intrusive [ListNode] chain is the [list] of its members in
      iteration order. *)

From Stdlib Require Import ZArith Strings.String Strings.Ascii Strings.Byte Bool List Lia.
Import ListNotations.
Local Open Scope Z_scope.
Set Warnings "-register-all".

(** ** Machine integers and bytes *)

Definition wrap32 (z : Z) : Z := z mod 2 ^ 32.

(** [(int)z] for a 32-bit [int] in two's complement. *)
Definition wrap_int (z : Z) : Z := (z + 2 ^ 31) mod 2 ^ 32 - 2 ^ 31.

Arguments wrap_int : simpl never.

Definition Z_of_byte (b : byte) : Z := Z.of_N (Byte.to_N b).

(** [(uint8_t)z] *)
Definition byte_of_Z (z : Z) : byte :=
  match Byte.of_N (Z.to_N (z mod 256)) with
  | Some b => b
  | None => x00
  end.

(** [size32]: number of 32-bit words needed for [val] bytes.  The parameter
    is a [uint32_t]; the sum with [sizeof(uint32_t)] is a [size_t]. *)
Definition size32 (val : Z) : Z := wrap32 ((wrap32 val + 4 - 1) / 4).

(** The bytes [htobe32 v] leaves in memory, first address first. *)
Definition htobe32 (v : Z) : list byte :=
  [byte_of_Z (Z.shiftr v 24); byte_of_Z (Z.shiftr v 16);
   byte_of_Z (Z.shiftr v 8); byte_of_Z v].

(** The bytes [htobe64 v] leaves in memory. *)
Definition htobe64 (v : Z) : list byte :=
  htobe32 (Z.shiftr v 32) ++ htobe32 v.

(** Characters of a C string, without the terminator. *)
Definition c_str (s : string) : list byte := list_byte_of_string s.

Definition strlen (s : string) : Z := Z.of_nat (List.length (c_str s)).

Definition nul_free (s : string) : Prop := ~ In x00 (c_str s).

Definition nul_freeb (s : string) : bool :=
  negb (existsb (Byte.eqb x00) (c_str s)).

(** ** The in-memory tree (base/device_tree.h) *)

(** Modelled from the spec: [FdtProperty] of base/device_tree.h, which is
    not among the sources: a name, a data pointer and a 32-bit size ("name
    (NUL-terminated string), raw data pointer, size in bytes").  The data
    pointer is the byte buffer it points to, [None] for [NULL]. *)
Record FdtProperty : Type := mkProp {
  prop_name : string;
  prop_data : option (list byte);
  prop_size : Z
}.

(** [DeviceTreeProperty] is an [FdtProperty] with its list link; the link is
    the position in [properties]. *)
Definition DeviceTreeProperty : Type := FdtProperty.

(** Modelled from the spec: [DeviceTreeNode] of base/device_tree.h: a name,
    the ordered list of properties and the ordered list of children. *)
Inductive DeviceTreeNode : Type := mkNode {
  name : string;
  properties : list DeviceTreeProperty;
  children : list DeviceTreeNode
}.

(** Modelled from the spec: [DeviceTreeReserveMapEntry]: a 64-bit start
    and a 64-bit size. *)
Record DeviceTreeReserveMapEntry : Type := mkEntry {
  entry_start : Z;
  entry_size : Z
}.

(** A pointer to a node of a tree, relative to a node of that tree: the
    positions to follow in the successive child lists. *)
Definition node_ptr : Type := list nat.

Fixpoint node_at (n : DeviceTreeNode) (p : node_ptr) : option DeviceTreeNode :=
  match p with
  | [] => Some n
  | i :: p' =>
      match nth_error (children n) i with
      | Some c => node_at c p'
      | None => None
      end
  end.

(** Names of the nodes met below [n] when following [p]. *)
Fixpoint names_along (n : DeviceTreeNode) (p : node_ptr) : option (list string) :=
  match p with
  | [] => Some []
  | i :: p' =>
      match nth_error (children n) i with
      | Some c => option_map (cons (name c)) (names_along c p')
      | None => None
      end
  end.

(** Modelled from the spec: base/list.h is not among the sources.
    [list_insert_after(node, after)] links [node] right behind [after].
    With [after] the list head the new member becomes the first one (the
    spec's "prepended" for [add_bin_prop]); with [after] the last member it
    becomes the last one (the builder's "appended in encounter order"). *)
Definition list_insert_after_head {A : Type} (x : A) (l : list A) : list A :=
  x :: l.

(** Modelled from the spec: [list_insert_after(node, last)] of base/list.h
    with [last] the last member: the new member ends the list. *)
Definition list_insert_after_last {A : Type} (x : A) (l : list A) : list A :=
  l ++ [x].

(** [alloc_node]: a record from the static pool or, once the pool is used
    up, from [xzalloc]; zeroed in both cases, so the source of the record
    does not show in the tree.  [alloc_prop] does the same for property
    records, all of whose fields its one caller sets. *)
Definition alloc_node : DeviceTreeNode := mkNode EmptyString [] [].

(** ** Navigator and mutator *)

(** [be32toh] of the 32-bit word a property value starts with.  Bytes
    missing from a value shorter than four bytes read as zero (C reads past
    the buffer). *)
Definition be32_of_bytes (l : list byte) : Z :=
  Z_of_byte (nth 0 l x00) * 2 ^ 24 + Z_of_byte (nth 1 l x00) * 2 ^ 16 +
  Z_of_byte (nth 2 l x00) * 2 ^ 8 + Z_of_byte (nth 3 l x00).

Definition data_bytes (d : option (list byte)) : list byte :=
  match d with
  | Some l => l
  | None => []
  end.

(** The two out-parameters [addrcp], [sizecp]: [None] is a [NULL] pointer,
    [Some v] a pointer to a cell holding [v]. *)
Definition cells : Type := (option Z * option Z)%type.

Definition dt_read_cell_props_step (c : cells) (prop : DeviceTreeProperty) : cells :=
  let addrcp :=
    match fst c with
    | Some a =>
        if String.eqb "#address-cells" (prop_name prop)
        then Some (be32_of_bytes (data_bytes (prop_data prop)))
        else Some a
    | None => None
    end in
  let sizecp :=
    match snd c with
    | Some s =>
        if String.eqb "#size-cells" (prop_name prop)
        then Some (be32_of_bytes (data_bytes (prop_data prop)))
        else Some s
    | None => None
    end in
  (addrcp, sizecp).

Definition dt_read_cell_props (node : DeviceTreeNode) (c : cells) : cells :=
  fold_left dt_read_cell_props_step (properties node) c.

(** First child whose name is [nm], with its position. *)
Fixpoint find_child (l : list DeviceTreeNode) (nm : string) : option (nat * DeviceTreeNode) :=
  match l with
  | [] => None
  | c :: l' =>
      if String.eqb (name c) nm then Some (O, c)
      else match find_child l' nm with
           | Some (i, d) => Some (S i, d)
           | None => None
           end
  end.

(** Member [i] of a list replaced (the member was mutated in place, a byte
    of a buffer was stored).  A position past the end leaves the list as it
    is; C would write past the object. *)
Fixpoint list_set {A : Type} (l : list A) (i : nat) (x : A) : list A :=
  match l, i with
  | [], _ => []
  | _ :: l', O => x :: l'
  | y :: l', S j => y :: list_set l' j x
  end.

Definition set_children (n : DeviceTreeNode) (cs : list DeviceTreeNode) : DeviceTreeNode :=
  mkNode (name n) (properties n) cs.

Definition set_properties (n : DeviceTreeNode) (ps : list DeviceTreeProperty) : DeviceTreeNode :=
  mkNode (name n) ps (children n).

Section Navigator.

(** libpayload's [strdup]: a copy of the string, or [None] for the [NULL]
    it returns when the heap is exhausted. *)
Variable strdup : string -> option string.

(** [dt_find_node].  The result is the parent as the call leaves it, the
    cells behind [addrcp] and [sizecp], and the returned pointer ([None]
    for [NULL]) relative to the parent. *)
Fixpoint dt_find_node (parent : DeviceTreeNode) (path : list string)
    (c : cells) (create : bool) {struct path}
    : DeviceTreeNode * cells * option node_ptr :=
  let c := dt_read_cell_props parent c in
  match path with
  | [] => (parent, c, Some [])
  | comp :: path' =>
      match find_child (children parent) comp with
      | Some (i, found) =>
          let '(found', c', r) := dt_find_node found path' c create in
          (set_children parent (list_set (children parent) i found'),
           c', option_map (cons i) r)
      | None =>
          if negb create then (parent, c, None)
          else
            match strdup comp with
            | None => (parent, c, None)
            | Some nm =>
                let found := mkNode nm (properties alloc_node) (children alloc_node) in
                let '(found', c', r) := dt_find_node found path' c create in
                (set_children parent
                   (list_insert_after_head found' (children parent)),
                 c', option_map (cons O) r)
            end
      end
  end.

End Navigator.

(** [strncmp(s1, s2, n) == 0].  Reading a string past its last byte gives
    the terminator. *)
Fixpoint strncmp_eq (s1 s2 : list byte) (n : nat) : bool :=
  match n with
  | O => true
  | S n' =>
      let c1 := hd x00 s1 in
      let c2 := hd x00 s2 in
      if Byte.eqb c1 c2
      then (if Byte.eqb c1 x00 then true else strncmp_eq (tl s1) (tl s2) n')
      else false
  end.

(** [strnlen(s, n)] *)
Fixpoint strnlen (s : list byte) (n : nat) : nat :=
  match n, s with
  | O, _ => O
  | S _, [] => O
  | S n', b :: s' => if Byte.eqb b x00 then O else S (strnlen s' n')
  end.

(** The [while (bytes > 0)] loop of [dt_check_compat_match]; [str] is the
    value from the cursor on.  Each round takes at least one byte off
    [bytes], so [bytes] rounds are all the loop can make. *)
Fixpoint compat_scan (fuel : nat) (compat : list byte) (str : list byte)
    (bytes : nat) : bool :=
  match fuel with
  | O => false
  | S fuel' =>
      if (0 <? bytes)%nat then
        if strncmp_eq compat str bytes then true
        else
          let len := S (strnlen str bytes) in
          if (bytes <=? len)%nat then false
          else compat_scan fuel' compat (skipn len str) (bytes - len)%nat
      else false
  end.

Fixpoint dt_check_compat_props (props : list DeviceTreeProperty) (compat : string) : bool :=
  match props with
  | [] => false
  | prop :: props' =>
      if String.eqb "compatible" (prop_name prop) then
        let bytes := Z.to_nat (prop_size prop) in
        compat_scan bytes (c_str compat) (data_bytes (prop_data prop)) bytes
      else dt_check_compat_props props' compat
  end.

Definition dt_check_compat_match (node : DeviceTreeNode) (compat : string) : bool :=
  dt_check_compat_props (properties node) compat.

(** The child loop of [dt_find_compat]; [find] is the recursive call and
    [i] the position of the first member of [l]. *)
Definition find_compat_children (find : DeviceTreeNode -> option node_ptr)
    : list DeviceTreeNode -> nat -> option node_ptr :=
  fix children_loop (l : list DeviceTreeNode) (i : nat) : option node_ptr :=
    match l with
    | [] => None
    | child :: l' =>
        match find child with
        | Some p => Some (i :: p)
        | None => children_loop l' (S i)
        end
    end.

(** [dt_find_compat]: the pointer to the match, relative to [parent]. *)
Fixpoint dt_find_compat (parent : DeviceTreeNode) (compat : string) : option node_ptr :=
  if dt_check_compat_match parent compat then Some []
  else
    find_compat_children (fun child => dt_find_compat child compat)
      (children parent) O.

(** [dt_find_next_compat_child]: [child] is the position of the child to
    resume after, [None] for [NULL]. *)
Fixpoint next_compat_loop (l : list DeviceTreeNode) (i : nat) (child : option nat)
    (ignore : bool) (compat : string) : option nat :=
  match l with
  | [] => None
  | next :: l' =>
      if ignore then
        next_compat_loop l' (S i) child
          (if match child with Some k => Nat.eqb k i | None => false end
           then false else ignore) compat
      else if dt_check_compat_match next compat then Some i
      else next_compat_loop l' (S i) child ignore compat
  end.

Definition dt_find_next_compat_child (parent : DeviceTreeNode) (child : option nat)
    (compat : string) : option nat :=
  next_compat_loop (children parent) O child
    (match child with Some _ => true | None => false end) compat.

(** [dt_write_int]: [buf] is the object [dest] points into, at offset [off]. *)
Fixpoint dt_write_int (buf : list byte) (off : nat) (src : Z) (length : nat) : list byte :=
  match length with
  | O => buf
  | S length' =>
      dt_write_int (list_set buf (off + length') (byte_of_Z src)) off
        (Z.shiftr src 8) length'
  end.

(** The property loop of [dt_add_bin_prop]: the list after the update, or
    [None] when no property carries the name. *)
Fixpoint bin_prop_update (props : list DeviceTreeProperty) (nm : string)
    (data : option (list byte)) (size : Z) : option (list DeviceTreeProperty) :=
  match props with
  | [] => None
  | prop :: props' =>
      if String.eqb (prop_name prop) nm
      then Some (mkProp (prop_name prop) data (wrap32 size) :: props')
      else option_map (cons prop) (bin_prop_update props' nm data size)
  end.

Definition dt_add_bin_prop (node : DeviceTreeNode) (nm : string)
    (data : option (list byte)) (size : Z) : DeviceTreeNode :=
  match bin_prop_update (properties node) nm data size with
  | Some props => set_properties node props
  | None =>
      (* the record of [alloc_prop], linked behind the list head, with its
         three fields set *)
      let prop := mkProp nm data (wrap32 size) in
      set_properties node (list_insert_after_head prop (properties node))
  end.

(** [dt_find_bin_prop]: the values left in [*data] and [*size]. *)
Fixpoint find_bin_prop_loop (props : list DeviceTreeProperty) (nm : string)
    (out : option (list byte) * Z) : option (list byte) * Z :=
  match props with
  | [] => out
  | prop :: props' =>
      if String.eqb (prop_name prop) nm
      then (prop_data prop, prop_size prop)
      else find_bin_prop_loop props' nm out
  end.

Definition dt_find_bin_prop (node : DeviceTreeNode) (nm : string)
    : option (list byte) * Z :=
  find_bin_prop_loop (properties node) nm (None, 0).

Definition dt_find_string_prop (node : DeviceTreeNode) (nm : string)
    : option (list byte) :=
  fst (dt_find_bin_prop node nm).

Definition dt_add_string_prop (node : DeviceTreeNode) (nm : string) (str : string)
    : DeviceTreeNode :=
  dt_add_bin_prop node nm (Some (c_str str ++ [x00])) (strlen str + 1).

Definition dt_add_u32_prop (node : DeviceTreeNode) (nm : string) (val : Z)
    : DeviceTreeNode :=
  dt_add_bin_prop node nm (Some (htobe32 val)) 4.

(** [xmalloc(n)]: [n] bytes of unspecified content, every one [fill] here. *)
Definition xmalloc (fill : byte) (n : Z) : list byte := repeat fill (Z.to_nat n).

(** The [for] loop of [dt_add_reg_prop], [i] running over [todo] rounds from
    [i]; [cur] is the offset of the cursor in [data]. *)
Fixpoint reg_loop (todo : nat) (i : nat) (addrs sizes : list Z)
    (addr_cells size_cells : Z) (data : list byte) (cur : Z) : list byte :=
  match todo with
  | O => data
  | S todo' =>
      let data := dt_write_int data (Z.to_nat cur) (nth i addrs 0)
                    (Z.to_nat (addr_cells * 4)) in
      let cur := cur + addr_cells * 4 in
      let data := dt_write_int data (Z.to_nat cur) (nth i sizes 0)
                    (Z.to_nat (size_cells * 4)) in
      let cur := cur + size_cells * 4 in
      reg_loop todo' (S i) addrs sizes addr_cells size_cells data cur
  end.

Definition dt_add_reg_prop (fill : byte) (node : DeviceTreeNode)
    (addrs sizes : list Z) (count : Z) (addr_cells size_cells : Z)
    : DeviceTreeNode :=
  let length := wrap32 (addr_cells + size_cells) * 4 * count in
  let data := xmalloc fill length in
  let data := reg_loop (Z.to_nat count) O addrs sizes addr_cells size_cells data 0 in
  dt_add_bin_prop node "reg" (Some data) length.

(** ** Memory *)

Definition memory : Type := Z -> byte.

(** The [n] bytes from offset [a] on. *)
Definition load_bytes (m : memory) (a : Z) (n : nat) : list byte :=
  map (fun i => m (a + Z.of_nat i)) (seq 0 n).

(** [be32toh] of the 32-bit word at offset [a]. *)
Definition be32toh_at (m : memory) (a : Z) : Z :=
  be32_of_bytes (load_bytes m a 4).

(** [be64toh] of the 64-bit word at offset [a]. *)
Definition be64toh_at (m : memory) (a : Z) : Z :=
  be32toh_at m a * 2 ^ 32 + be32toh_at m (a + 4).

(** The bytes of [l] written from offset [a] on ([memcpy], [strcpy], a
    word store). *)
Definition store_bytes (m : memory) (a : Z) (l : list byte) : memory :=
  fun x =>
    if (a <=? x) && (x <? a + Z.of_nat (List.length l))
    then nth (Z.to_nat (x - a)) l x00
    else m x.

(** The characters of the C string at offset [a]; [None] when no
    terminator is met within [fuel] bytes. *)
Fixpoint c_string_at (fuel : nat) (m : memory) (a : Z) : option (list byte) :=
  match fuel with
  | O => None
  | S fuel' =>
      if Byte.eqb (m a) x00 then Some []
      else option_map (cons (m a)) (c_string_at fuel' m (a + 1))
  end.

(** [strlen] of the C string at offset [a]. *)
Definition strlen_at (fuel : nat) (m : memory) (a : Z) : option Z :=
  option_map (fun l => Z.of_nat (List.length l)) (c_string_at fuel m a).

(** ** The flattened format (base/device_tree.h) *)

(** Modelled from the spec: the token tags of base/device_tree.h, which is
    not among the sources ("BEGIN_NODE(name), PROP(size, name_offset,
    data), END_NODE, END"), with the values of the flattened device tree
    format. *)
Definition TokenBeginNode : Z := 1.

(** Modelled from the spec: the end-node token of base/device_tree.h. *)
Definition TokenEndNode : Z := 2.

(** Modelled from the spec: the property token of base/device_tree.h. *)
Definition TokenProperty : Z := 3.

(** Modelled from the spec: the end-of-structure token of
    base/device_tree.h. *)
Definition TokenEnd : Z := 9.

(** Modelled from the spec: the byte offsets of the [FdtHeader] fields
    ("magic, total size, offsets/sizes of the structure block, strings
    block, and memory-reservation block"), in the order of the flattened
    device tree format: ten 32-bit fields. *)
Definition hdr_magic : Z := 0.

(** Modelled from the spec: offset of [FdtHeader.totalsize]. *)
Definition hdr_totalsize : Z := 4.

(** Modelled from the spec: offset of [FdtHeader.structure_offset]. *)
Definition hdr_structure_offset : Z := 8.

(** Modelled from the spec: offset of [FdtHeader.strings_offset]. *)
Definition hdr_strings_offset : Z := 12.

(** Modelled from the spec: offset of [FdtHeader.reserve_map_offset]. *)
Definition hdr_reserve_map_offset : Z := 16.

(** Modelled from the spec: offset of [FdtHeader.strings_size]. *)
Definition hdr_strings_size : Z := 32.

(** Modelled from the spec: offset of [FdtHeader.structure_size]. *)
Definition hdr_structure_size : Z := 36.

(** Modelled from the spec: [sizeof(FdtHeader)]. *)
Definition sizeof_FdtHeader : Z := 40.

(** ** Binary tree reader *)

(** An [FdtProperty] whose pointers point into the blob: the offsets of the
    name and of the value, and the size. *)
Record BlobProperty : Type := mkBlobProp {
  bp_name : Z;
  bp_data : Z;
  bp_size : Z
}.

(** [fdt_next_property]: the [int] it returns and what [*prop] receives. *)
Definition fdt_next_property (blob : memory) (offset : Z) : Z * option BlobProperty :=
  let ptr := wrap32 offset in
  if negb (be32toh_at blob ptr =? TokenProperty) then (0, None)
  else
    let size := be32toh_at blob (ptr + 4) in
    let name_offset := be32toh_at blob (ptr + 8) in
    let name_offset := wrap32 (name_offset + be32toh_at blob hdr_strings_offset) in
    let prop := mkBlobProp name_offset (ptr + 12) size in
    let index := wrap_int (3 + size32 size) in
    (wrap_int (index * 4), Some prop).

(** [fdt_node_name]: the [int] it returns and what [*name] receives;
    [None] when [strlen] meets no terminator within [fuel] bytes. *)
Definition fdt_node_name (fuel : nat) (blob : memory) (offset : Z)
    : option (Z * option Z) :=
  let ptr := wrap32 offset in
  if negb (be32toh_at blob ptr =? TokenBeginNode) then Some (0, None)
  else
    let ptr := ptr + 4 in
    match strlen_at fuel blob ptr with
    | None => None
    | Some len => Some (wrap_int (size32 (len + 1) * 4 + 4), Some ptr)
    end.

(** The first loop of [fdt_skip_node]: the [int] offset behind the
    properties. *)
Fixpoint fdt_skip_props (fuel : nat) (blob : memory) (offset : Z) : option Z :=
  match fuel with
  | O => None
  | S fuel' =>
      let size := fst (fdt_next_property blob offset) in
      if size =? 0 then Some offset
      else fdt_skip_props fuel' blob (wrap_int (offset + size))
  end.

(** [fdt_skip_node] and its second loop: [offset] and the result are
    [int].  [None] when [fuel] calls and loop rounds do not reach the
    end. *)
Fixpoint fdt_skip_node (fuel : nat) (blob : memory) (start_offset : Z)
    {struct fuel} : option Z :=
  match fuel with
  | O => None
  | S fuel' =>
      let offset := wrap_int start_offset in
      match fdt_node_name fuel' blob offset with
      | None => None
      | Some (size, _) =>
          if size =? 0 then Some 0
          else
            let offset := wrap_int (offset + size) in
            match fdt_skip_props fuel' blob offset with
            | None => None
            | Some offset =>
                match fdt_skip_children fuel' blob offset with
                | None => None
                | Some offset =>
                    Some (wrap_int (wrap32 (offset - start_offset) + 4))
                end
            end
      end
  end
with fdt_skip_children (fuel : nat) (blob : memory) (offset : Z)
    {struct fuel} : option Z :=
  match fuel with
  | O => None
  | S fuel' =>
      match fdt_skip_node fuel' blob offset with
      | None => None
      | Some size =>
          if size =? 0 then Some offset
          else fdt_skip_children fuel' blob (wrap_int (offset + size))
      end
  end.

(** ** Tree builder *)

(** A [DeviceTreeNode] as [fdt_unflatten_node] builds it: the name and the
    properties point into the blob. *)
Inductive BlobNode : Type := mkBlobNode {
  bn_name : Z;
  bn_properties : list BlobProperty;
  bn_children : list BlobNode
}.

(** The property loop of [fdt_unflatten_node]; [acc] is the list up to
    [last]. *)
Fixpoint fdt_unflatten_props (fuel : nat) (blob : memory) (offset : Z)
    (acc : list BlobProperty) : option (list BlobProperty * Z) :=
  match fuel with
  | O => None
  | S fuel' =>
      match fdt_next_property blob offset with
      | (size, fprop) =>
          if size =? 0 then Some (acc, offset)
          else
            match fprop with
            | Some prop =>
                fdt_unflatten_props fuel' blob (wrap_int (offset + size))
                  (list_insert_after_last prop acc)
            | None => fdt_unflatten_props fuel' blob (wrap_int (offset + size)) acc
            end
      end
  end.

(** [fdt_unflatten_node] and its child loop: the [int] it returns and
    what [*new_node] receives; [offset] is an [int]. *)
Fixpoint fdt_unflatten_node (fuel : nat) (blob : memory) (start_offset : Z)
    {struct fuel} : option (Z * option BlobNode) :=
  match fuel with
  | O => None
  | S fuel' =>
      let offset := wrap_int start_offset in
      match fdt_node_name fuel' blob offset with
      | None => None
      | Some (size, nm) =>
          if size =? 0 then Some (0, None)
          else
            let offset := wrap_int (offset + size) in
            match fdt_unflatten_props fuel' blob offset [] with
            | None => None
            | Some (props, offset) =>
                match fdt_unflatten_children fuel' blob offset [] with
                | None => None
                | Some (childs, offset) =>
                    Some (wrap_int (wrap32 (offset - start_offset) + 4),
                          Some (mkBlobNode
                                  (match nm with Some p => p | None => 0 end)
                                  props childs))
                end
            end
      end
  end
with fdt_unflatten_children (fuel : nat) (blob : memory) (offset : Z)
    (acc : list BlobNode) {struct fuel} : option (list BlobNode * Z) :=
  match fuel with
  | O => None
  | S fuel' =>
      match fdt_unflatten_node fuel' blob offset with
      | None => None
      | Some (size, child) =>
          if size =? 0 then Some (acc, offset)
          else
            match child with
            | Some c =>
                fdt_unflatten_children fuel' blob (wrap_int (offset + size))
                  (list_insert_after_last c acc)
            | None => fdt_unflatten_children fuel' blob (wrap_int (offset + size)) acc
            end
      end
  end.

(** [fdt_unflatten_map_entry] *)
Definition fdt_unflatten_map_entry (blob : memory) (offset : Z)
    : Z * option DeviceTreeReserveMapEntry :=
  let ptr := wrap32 offset in
  let start := be64toh_at blob ptr in
  let size := be64toh_at blob (ptr + 8) in
  if size =? 0 then (0, None)
  else (8 * 2, Some (mkEntry start size)).

(** The reserve map loop of [fdt_unflatten]. *)
Fixpoint fdt_unflatten_map (fuel : nat) (blob : memory) (offset : Z)
    (acc : list DeviceTreeReserveMapEntry) : option (list DeviceTreeReserveMapEntry) :=
  match fuel with
  | O => None
  | S fuel' =>
      match fdt_unflatten_map_entry blob offset with
      | (size, entry) =>
          if size =? 0 then Some acc
          else
            match entry with
            | Some e =>
                fdt_unflatten_map fuel' blob (wrap32 (offset + size))
                  (list_insert_after_last e acc)
            | None => fdt_unflatten_map fuel' blob (wrap32 (offset + size)) acc
            end
      end
  end.

(** Modelled from the spec: [DeviceTree] of base/device_tree.h: the
    preserved header, its size, the reserve map and the root ([None] for a
    [NULL] root).  [N] is the type of the nodes. *)
Record Tree (N : Type) : Type := mkTree {
  header : memory;
  header_size : Z;
  reserve_map : list DeviceTreeReserveMapEntry;
  root : option N
}.

Arguments mkTree {N} _ _ _ _.
Arguments header {N} _.
Arguments header_size {N} _.
Arguments reserve_map {N} _.
Arguments root {N} _.

Definition DeviceTree : Type := Tree DeviceTreeNode.

Definition BlobTree : Type := Tree BlobNode.

(** [fdt_unflatten] *)
Definition fdt_unflatten (fuel : nat) (blob : memory) : option BlobTree :=
  let struct_offset := be32toh_at blob hdr_structure_offset in
  let strings_offset := be32toh_at blob hdr_strings_offset in
  let reserve_offset := be32toh_at blob hdr_reserve_map_offset in
  let min_offset := Z.min struct_offset strings_offset in
  let min_offset := Z.min min_offset reserve_offset in
  match fdt_unflatten_map fuel blob reserve_offset [] with
  | None => None
  | Some map =>
      match fdt_unflatten_node fuel blob struct_offset with
      | None => None
      | Some (_, r) => Some (mkTree blob min_offset map r)
      end
  end.

(** What the pointers of a built tree denote: the strings and the values
    they point at in the blob. *)
Definition resolve_prop (fuel : nat) (blob : memory) (p : BlobProperty)
    : option FdtProperty :=
  match c_string_at fuel blob (bp_name p) with
  | None => None
  | Some nm =>
      Some (mkProp (string_of_list_byte nm)
              (Some (load_bytes blob (bp_data p) (Z.to_nat (bp_size p))))
              (bp_size p))
  end.

(** A list of results, [None] when one of them is. *)
Fixpoint sequence {A : Type} (l : list (option A)) : option (list A) :=
  match l with
  | [] => Some []
  | None :: _ => None
  | Some x :: l' => option_map (cons x) (sequence l')
  end.

Fixpoint resolve_node (fuel : nat) (blob : memory) (n : BlobNode)
    : option DeviceTreeNode :=
  match c_string_at fuel blob (bn_name n),
        sequence (map (resolve_prop fuel blob) (bn_properties n)),
        sequence (map (resolve_node fuel blob) (bn_children n)) with
  | Some nm, Some props, Some childs =>
      Some (mkNode (string_of_list_byte nm) props childs)
  | _, _, _ => None
  end.

Definition resolve_tree (fuel : nat) (t : BlobTree) : option DeviceTree :=
  match root t with
  | None => Some (mkTree (header t) (header_size t) (reserve_map t) None)
  | Some r =>
      match resolve_node fuel (header t) r with
      | None => None
      | Some r' => Some (mkTree (header t) (header_size t) (reserve_map t) (Some r'))
      end
  end.

(** ** Size calculator *)

(** The two counters [*struct_size] and [*strings_size]. *)
Definition dt_flat_prop_size (prop : DeviceTreeProperty) (sz : Z * Z) : Z * Z :=
  let '(struct_size, strings_size) := sz in
  let struct_size := wrap32 (struct_size + 4) in
  let struct_size := wrap32 (struct_size + 4) in
  let struct_size := wrap32 (struct_size + 4) in
  let struct_size := wrap32 (struct_size + size32 (prop_size prop) * 4) in
  let strings_size := wrap32 (strings_size + (strlen (prop_name prop) + 1)) in
  (struct_size, strings_size).

Fixpoint dt_flat_node_size (node : DeviceTreeNode) (sz : Z * Z) : Z * Z :=
  let '(struct_size, strings_size) := sz in
  let struct_size := wrap32 (struct_size + 4) in
  let struct_size := wrap32 (struct_size + size32 (strlen (name node) + 1) * 4) in
  let sz := fold_left (fun sz prop => dt_flat_prop_size prop sz)
              (properties node) (struct_size, strings_size) in
  let sz := fold_left (fun sz child => dt_flat_node_size child sz)
              (children node) sz in
  let '(struct_size, strings_size) := sz in
  (wrap32 (struct_size + 4), strings_size).

(** [dt_flat_size]; [None] when the root is [NULL] (the C code then reads
    through the null pointer). *)
Definition dt_flat_size (tree : DeviceTree) : option Z :=
  match root tree with
  | None => None
  | Some r =>
      let size := wrap32 (header_size tree) in
      let size := fold_left (fun size _ => wrap32 (size + 8 * 2))
                    (reserve_map tree) size in
      let size := wrap32 (size + 8 * 2) in
      let '(struct_size, strings_size) := dt_flat_node_size r (0, 0) in
      let size := wrap32 (size + struct_size) in
      let size := wrap32 (size + 4) in
      let size := wrap32 (size + strings_size) in
      Some size
  end.

(** ** Flattener *)

(** [dt_flatten_map_entry]: the memory and [*map_start]. *)
Definition dt_flatten_map_entry (entry : DeviceTreeReserveMapEntry)
    (st : memory * Z) : memory * Z :=
  let '(m, map_start) := st in
  let m := store_bytes m map_start (htobe64 (entry_start entry)) in
  let m := store_bytes m (map_start + 8) (htobe64 (entry_size entry)) in
  (m, map_start + 8 * 2).

(** [dt_flatten_prop]: the memory, [*struct_start] and [*strings_start].
    [memcpy] copies the bytes the value has when it is shorter than
    [size] (C reads past the buffer). *)
Definition dt_flatten_prop (prop : DeviceTreeProperty) (strings_base : Z)
    (st : memory * Z * Z) : memory * Z * Z :=
  let '(m, dstruct, dstrings) := st in
  let m := store_bytes m dstruct (htobe32 TokenProperty) in
  let dstruct := dstruct + 4 in
  let m := store_bytes m dstruct (htobe32 (prop_size prop)) in
  let dstruct := dstruct + 4 in
  let name_offset := wrap32 (dstrings - strings_base) in
  let m := store_bytes m dstruct (htobe32 name_offset) in
  let dstruct := dstruct + 4 in
  let m := store_bytes m dstrings (c_str (prop_name prop) ++ [x00]) in
  let dstrings := dstrings + (strlen (prop_name prop) + 1) in
  let m := store_bytes m dstruct
             (firstn (Z.to_nat (prop_size prop)) (data_bytes (prop_data prop))) in
  let dstruct := dstruct + size32 (prop_size prop) * 4 in
  (m, dstruct, dstrings).

Fixpoint dt_flatten_node (node : DeviceTreeNode) (strings_base : Z)
    (st : memory * Z * Z) : memory * Z * Z :=
  let '(m, dstruct, dstrings) := st in
  let m := store_bytes m dstruct (htobe32 TokenBeginNode) in
  let dstruct := dstruct + 4 in
  let m := store_bytes m dstruct (c_str (name node) ++ [x00]) in
  let dstruct := dstruct + size32 (strlen (name node) + 1) * 4 in
  let st := fold_left (fun st prop => dt_flatten_prop prop strings_base st)
              (properties node) (m, dstruct, dstrings) in
  let st := fold_left (fun st child => dt_flatten_node child strings_base st)
              (children node) st in
  let '(m, dstruct, dstrings) := st in
  let m := store_bytes m dstruct (htobe32 TokenEndNode) in
  let dstruct := dstruct + 4 in
  (m, dstruct, dstrings).

(** [dt_flatten]: the memory at [start_dest] after the call, offsets
    counted from [start_dest]; [None] when the root is [NULL]. *)
Definition dt_flatten (tree : DeviceTree) (m : memory) : option memory :=
  match root tree with
  | None => None
  | Some r =>
      let m := store_bytes m 0
                 (load_bytes (header tree) 0 (Z.to_nat (wrap32 (header_size tree)))) in
      let dest := wrap32 (header_size tree) in
      let '(m, dest) := fold_left (fun st entry => dt_flatten_map_entry entry st)
                          (reserve_map tree) (m, dest) in
      let m := store_bytes m dest (htobe64 0 ++ htobe64 0) in
      let dest := dest + 8 * 2 in
      let '(struct_size, strings_size) := dt_flat_node_size r (0, 0) in
      let struct_start := dest in
      let m := store_bytes m hdr_structure_offset (htobe32 dest) in
      let m := store_bytes m hdr_structure_size (htobe32 struct_size) in
      let dest := dest + struct_size in
      let m := store_bytes m dest (htobe32 TokenEnd) in
      let dest := dest + 4 in
      let strings_start := dest in
      let m := store_bytes m hdr_strings_offset (htobe32 dest) in
      let m := store_bytes m hdr_strings_size (htobe32 strings_size) in
      let dest := dest + strings_size in
      let '(m, _, _) := dt_flatten_node r strings_start (m, struct_start, strings_start) in
      let m := store_bytes m hdr_totalsize (htobe32 dest) in
      Some m
  end.

(** ** Reference descriptions used in the statements *)


(** No member of [l] is named [nm]. *)
Definition no_child_named (l : list DeviceTreeNode) (nm : string) : Prop :=
  forall ch, In ch l -> name ch <> nm.


Definition no_prop_named (l : list DeviceTreeProperty) (nm : string) : Prop :=
  forall p, In p l -> prop_name p <> nm.

(** [n] rounded up to a multiple of four. *)
Definition round_up4 (n : Z) : Z := (n + 3) / 4 * 4.

(** A blob for the examples: a header whose strings offset is 64, a
    property token at offset 40 with a value of five bytes and the name
    offset 2, the name ["ab"] at offset 66. *)
Definition example_blob : memory :=
  store_bytes
    (store_bytes
       (store_bytes (fun _ => x00) hdr_strings_offset (htobe32 64))
       40 (htobe32 TokenProperty ++ htobe32 5 ++ htobe32 2 ++ [x01; x02; x03; x04; x05]))
    66 [x61; x62; x00].

(** [v] as [n] big-endian bytes, most significant first. *)
Fixpoint be_bytes (n : nat) (v : Z) : list byte :=
  match n with
  | O => []
  | S n' => be_bytes n' (Z.shiftr v 8) ++ [byte_of_Z v]
  end.

(** [v] as [cells] big-endian 32-bit words, most significant first. *)
Fixpoint encode_cells (cells : nat) (v : Z) : list byte :=
  match cells with
  | O => []
  | S cells' => encode_cells cells' (Z.shiftr v 32) ++ htobe32 v
  end.

(** The value of a ["reg"] property for the (address, size) pairs
    [entries]. *)
Definition reg_value (addr_cells size_cells : Z) (entries : list (Z * Z)) : list byte :=
  flat_map (fun e => encode_cells (Z.to_nat addr_cells) (fst e) ++
                     encode_cells (Z.to_nat size_cells) (snd e)) entries.

(** The entries of a compatible value: the runs of bytes between the
    terminators, each with a flag telling whether its terminator is in the
    value.  Nothing follows the last terminator; a last run without a
    terminator is an entry of its own. *)
Fixpoint compat_entries (l : list byte) : list (list byte * bool) :=
  match l with
  | [] => []
  | b :: l' =>
      if Byte.eqb b x00 then ([], true) :: compat_entries l'
      else
        match compat_entries l' with
        | [] => [([b], false)]
        | (e, t) :: es => (b :: e, t) :: es
        end
  end.

Definition bytes_eqb (a b : list byte) : bool :=
  if list_eq_dec Byte.byte_eq_dec a b then true else false.

(** An entry matches the string when it is the string; an entry that runs
    to the end of the value without a terminator matches when the string
    starts with it. *)
Definition entry_matches (compat : list byte) (e : list byte * bool) : bool :=
  if snd e then bytes_eqb (fst e) compat
  else bytes_eqb (fst e) (firstn (List.length (fst e)) compat).

(** The value of a property: the first [size] bytes behind the pointer. *)
Definition prop_value (p : FdtProperty) : list byte :=
  firstn (Z.to_nat (prop_size p)) (data_bytes (prop_data p)).

(** The node's first property named ["compatible"] has an entry that
    matches the string. *)
Definition node_compatible (node : DeviceTreeNode) (compat : string) : bool :=
  match find (fun p => String.eqb "compatible" (prop_name p)) (properties node) with
  | Some p => existsb (entry_matches (c_str compat)) (compat_entries (prop_value p))
  | None => false
  end.

(** The nodes of a subtree in depth-first pre-order, each with the pointer
    that leads to it from the root of the subtree. *)
Definition preorder_children (pre : DeviceTreeNode -> list (node_ptr * DeviceTreeNode))
    : list DeviceTreeNode -> nat -> list (node_ptr * DeviceTreeNode) :=
  fix below (l : list DeviceTreeNode) (i : nat) :=
    match l with
    | [] => []
    | c :: l' => map (fun e => (i :: fst e, snd e)) (pre c) ++ below l' (S i)
    end.

Fixpoint preorder (n : DeviceTreeNode) : list (node_ptr * DeviceTreeNode) :=
  ([], n) :: preorder_children preorder (children n) O.

(** The value of every property is there: the buffer behind the data
    pointer has at least [size] bytes. *)
Definition value_present (p : FdtProperty) : Prop :=
  0 <= prop_size p /\ (Z.to_nat (prop_size p) <= List.length (data_bytes (prop_data p)))%nat.

Definition values_present (n : DeviceTreeNode) : Prop :=
  forall q m, In (q, m) (preorder n) -> Forall value_present (properties m).

(** The spec's example tree: a root with the children X (compatible
    ["foo"]), Y (compatible ["bar"]) and Z (compatible ["foo"]). *)
Definition example_compat_root : DeviceTreeNode :=
  mkNode "" []
    [mkNode "X" [mkProp "compatible" (Some [x66; x6f; x6f; x00]) 4] [];
     mkNode "Y" [mkProp "compatible" (Some [x62; x61; x72; x00]) 4] [];
     mkNode "Z" [mkProp "compatible" (Some [x66; x6f; x6f; x00]) 4] []].

(** ** Exact sizes and the image of a tree in memory *)

Fixpoint sumZ (l : list Z) : Z :=
  match l with
  | [] => 0
  | x :: l' => x + sumZ l'
  end.

(** Bytes of a property in the structure block and in the strings block. *)
Definition prop_struct_bytes (p : FdtProperty) : Z := 12 + round_up4 (prop_size p).

Definition prop_strings_bytes (p : FdtProperty) : Z := strlen (prop_name p) + 1.

Definition props_struct_bytes (ps : list FdtProperty) : Z :=
  sumZ (map prop_struct_bytes ps).

Definition props_strings_bytes (ps : list FdtProperty) : Z :=
  sumZ (map prop_strings_bytes ps).

(** Bytes of a node, with its properties and its subtrees, in the structure
    block and in the strings block. *)
Fixpoint node_struct_bytes (n : DeviceTreeNode) : Z :=
  4 + round_up4 (strlen (name n) + 1) + props_struct_bytes (properties n)
  + sumZ (map node_struct_bytes (children n)) + 4.

Fixpoint node_strings_bytes (n : DeviceTreeNode) : Z :=
  props_strings_bytes (properties n) + sumZ (map node_strings_bytes (children n)).

(** Bytes of the whole flattened tree with root [r]. *)
Definition flat_bytes (tree : DeviceTree) (r : DeviceTreeNode) : Z :=
  header_size tree + 16 * (Z.of_nat (List.length (reserve_map tree)) + 1)
  + node_struct_bytes r + 4 + node_strings_bytes r.

(** Every size of the subtree is a [uint32_t]. *)
Definition size_is_uint32 (p : FdtProperty) : bool :=
  (0 <=? prop_size p) && (prop_size p <? 2 ^ 32).

Fixpoint sizes_are_uint32 (n : DeviceTreeNode) : bool :=
  forallb size_is_uint32 (properties n) && forallb sizes_are_uint32 (children n).

(** The bytes a call leaves alone: all but the two regions it is given. *)
Definition frame (m m' : memory) (ds dsl dstr dstrl : Z) : Prop :=
  forall x, ~ (ds <= x < ds + dsl) -> ~ (dstr <= x < dstr + dstrl) -> m' x = m x.

(** [m'] is [m] outside the offsets [lo], ..., [hi - 1]. *)
Definition same_outside (m m' : memory) (lo hi : Z) : Prop :=
  forall x, x < lo \/ hi <= x -> m' x = m x.

(** A tree whose flattening fits a 32-bit blob of [limit] bytes at most:
    the header prefix holds the whole [FdtHeader], the sizes are
    [uint32_t] values and the flattened tree stays below [limit]. *)
Definition fits (tree : DeviceTree) (r : DeviceTreeNode) (limit : Z) : Prop :=
  root tree = Some r /\
  sizeof_FdtHeader <= header_size tree /\
  sizes_are_uint32 r = true /\
  flat_bytes tree r < limit.

(** The bytes the flattener leaves in a region: [Some b] where it writes
    [b], [None] for a padding byte it steps over. *)
Definition written (l : list byte) : list (option byte) := map Some l.

Definition padding (n : Z) : list (option byte) := repeat None (Z.to_nat n).

(** The memory has, from offset [a] on, the bytes the image prescribes. *)
Definition agrees (m : memory) (a : Z) (l : list (option byte)) : Prop :=
  forall i b, nth_error l i = Some (Some b) -> m (a + Z.of_nat i) = b.

(** Image of a property in the structure block; [noff] is the offset of
    its name in the strings block. *)
Definition prop_image (p : FdtProperty) (noff : Z) : list (option byte) :=
  written (htobe32 TokenProperty) ++ written (htobe32 (prop_size p)) ++
  written (htobe32 noff) ++ written (prop_value p) ++
  padding (round_up4 (prop_size p) - prop_size p).

Fixpoint props_image (ps : list FdtProperty) (noff : Z) : list (option byte) :=
  match ps with
  | [] => []
  | p :: ps' => prop_image p noff ++ props_image ps' (noff + prop_strings_bytes p)
  end.

Definition name_image (nm : string) : list (option byte) :=
  written (c_str nm ++ [x00]) ++
  padding (round_up4 (strlen nm + 1) - (strlen nm + 1)).

Definition children_image (img : DeviceTreeNode -> Z -> list (option byte))
    : list DeviceTreeNode -> Z -> list (option byte) :=
  fix go (cs : list DeviceTreeNode) (noff : Z) :=
    match cs with
    | [] => []
    | c :: cs' => img c noff ++ go cs' (noff + node_strings_bytes c)
    end.

(** Image of a subtree in the structure block; [noff] is the offset, in
    the strings block, of the first property name of the subtree. *)
Fixpoint node_image (n : DeviceTreeNode) (noff : Z) : list (option byte) :=
  written (htobe32 TokenBeginNode) ++ name_image (name n) ++
  props_image (properties n) noff ++
  children_image node_image (children n) (noff + props_strings_bytes (properties n)) ++
  written (htobe32 TokenEndNode).

(** The property names of a subtree as they follow each other in the
    strings block. *)
Definition props_strings (ps : list FdtProperty) : list byte :=
  flat_map (fun p => c_str (prop_name p) ++ [x00]) ps.

Fixpoint node_strings (n : DeviceTreeNode) : list byte :=
  props_strings (properties n) ++ flat_map node_strings (children n).

(** Image of the reserve map, with the entry that ends it. *)
Definition map_image (R : list DeviceTreeReserveMapEntry) : list byte :=
  flat_map (fun e => htobe64 (entry_start e) ++ htobe64 (entry_size e)) R ++
  htobe64 0 ++ htobe64 0.

(** A tree with every property value cut to its size: what the value
    pointers of a tree denote. *)
Definition canon_prop (p : FdtProperty) : FdtProperty :=
  mkProp (prop_name p) (Some (prop_value p)) (prop_size p).

Fixpoint canon_node (n : DeviceTreeNode) : DeviceTreeNode :=
  mkNode (name n) (map canon_prop (properties n)) (map canon_node (children n)).

(** Every value of the subtree is a buffer of exactly [size] bytes. *)
Definition value_exact (p : FdtProperty) : bool :=
  match prop_data p with
  | Some d => Z.of_nat (List.length d) =? prop_size p
  | None => false
  end.

Fixpoint values_exact (n : DeviceTreeNode) : bool :=
  forallb value_exact (properties n) && forallb values_exact (children n).

(** Well-formed trees: C strings as names, sizes in [uint32_t], values of
    at least [size] bytes, reserve map entries of 64 bits with a size that is
    not zero, and a preserved header that places the reserve map right behind
    itself. *)
Definition wf_prop (p : FdtProperty) : bool :=
  size_is_uint32 p &&
  (Z.to_nat (prop_size p) <=? List.length (data_bytes (prop_data p)))%nat &&
  nul_freeb (prop_name p).

Fixpoint wf_node (n : DeviceTreeNode) : bool :=
  nul_freeb (name n) && forallb wf_prop (properties n) && forallb wf_node (children n).

Definition wf_entry (e : DeviceTreeReserveMapEntry) : bool :=
  (0 <=? entry_start e) && (entry_start e <? 2 ^ 64) &&
  (0 <? entry_size e) && (entry_size e <? 2 ^ 64).

Definition well_formed (tree : DeviceTree) (r : DeviceTreeNode) : Prop :=
  fits tree r (2 ^ 31) /\
  wf_node r = true /\
  forallb wf_entry (reserve_map tree) = true /\
  be32toh_at (header tree) hdr_reserve_map_offset = header_size tree.

(** A tree for the examples: a header of 40 bytes whose reserve map offset
    is 40, one reserve map entry, and a root with two properties and two
    children, one of which has a child of its own. *)
Definition example_header : memory :=
  store_bytes
    (store_bytes (fun _ => x00) hdr_magic [xd0; x0d; xfe; xed])
    hdr_reserve_map_offset (htobe32 40).

Definition example_root : DeviceTreeNode :=
  mkNode ""
    [mkProp "model" (Some [x61; x62; x63; x00]) 4;
     mkProp "#address-cells" (Some (htobe32 2)) 4]
    [mkNode "cpus" [mkProp "reg" (Some [x01; x02; x03; x04; x05]) 5]
       [mkNode "cpu@0" [mkProp "status" (Some []) 0] []];
     mkNode "memory" [] []].

Definition example_tree : DeviceTree :=
  mkTree example_header 40 [mkEntry 4096 512] (Some example_root).

(** ** Value search *)

(** [memcmp(s1, s2, n) == 0].  A byte missing from a buffer shorter than
    [n] reads as zero (C reads past the buffer). *)
Fixpoint memcmp_eq (s1 s2 : list byte) (n : nat) : bool :=
  match n with
  | O => true
  | S n' => Byte.eqb (hd x00 s1) (hd x00 s2) && memcmp_eq (tl s1) (tl s2) n'
  end.

(** The property loop of [dt_find_prop_value]: whether [parent] itself has
    the value.  [data] is the buffer behind the [void *]. *)
Fixpoint prop_value_loop (props : list DeviceTreeProperty) (nm : string)
    (data : list byte) (size : Z) : bool :=
  match props with
  | [] => false
  | prop :: props' =>
      if String.eqb nm (prop_name prop) then
        let bytes := prop_size prop in
        let prop_data := data_bytes (prop_data prop) in
        if negb (size =? bytes) then false
        else if memcmp_eq data prop_data (Z.to_nat size) then true
        else false
      else prop_value_loop props' nm data size
  end.

(** [dt_find_prop_value]: the pointer to the match, relative to [parent].
    Its child loop is the one of [dt_find_compat]. *)
Fixpoint dt_find_prop_value (parent : DeviceTreeNode) (nm : string)
    (data : list byte) (size : Z) : option node_ptr :=
  if prop_value_loop (properties parent) nm data size then Some []
  else
    find_compat_children (fun child => dt_find_prop_value child nm data size)
      (children parent) O.

(** ** Fixups *)

(** Modelled from the spec: [DeviceTreeFixup] of base/device_tree.h, which
    is not among the sources: a member of the "ordered list of registered
    mutators".  The callback is [None] for a null function pointer; called
    on a tree it gives its result, 0 for success, and the tree as it leaves
    it. *)
Record DeviceTreeFixup : Type := mkFixup {
  fixup : option (DeviceTree -> Z * DeviceTree)
}.

(** [dt_apply_fixups] over the members of [device_tree_fixups]: the result
    and the tree as the callbacks leave it; [None] when the [assert] stops
    the program. *)
Fixpoint dt_apply_fixups (device_tree_fixups : list DeviceTreeFixup)
    (tree : DeviceTree) : option (Z * DeviceTree) :=
  match device_tree_fixups with
  | [] => Some (0, tree)
  | f :: rest =>
      match fixup f with
      | None => None
      | Some call =>
          let '(res, tree) := call tree in
          if negb (res =? 0) then Some (1, tree)
          else dt_apply_fixups rest tree
      end
  end.

(** ** Record pools *)

(** Where [alloc_node] and [alloc_prop] take a record from: a slot of the
    static cache or [xzalloc]. *)
Inductive RecordSource : Type :=
  | FromCache (slot : Z)
  | FromHeap.

(** [ARRAY_SIZE(node_cache)] and [ARRAY_SIZE(prop_cache)]. *)
Definition node_cache_size : Z := 1000.

Definition prop_cache_size : Z := 5000.

(** The pool side of [alloc_node] and of [alloc_prop], which differ in the
    cache only: the record handed out and the counter after the call. *)
Definition alloc_from (cache_size : Z) (counter : Z) : RecordSource * Z :=
  if cache_size <=? counter then (FromHeap, counter)
  else (FromCache counter, counter + 1).

Definition alloc_node_from (node_counter : Z) : RecordSource * Z :=
  alloc_from node_cache_size node_counter.

Definition alloc_prop_from (prop_counter : Z) : RecordSource * Z :=
  alloc_from prop_cache_size prop_counter.

(** ** More reference descriptions used in the statements *)

(** The cell a property list leaves behind [addrcp] or [sizecp]: the word
    the last property named [nm] starts with, [old] when no property has
    the name. *)
Definition last_cell (props : list DeviceTreeProperty) (nm : string) (old : Z) : Z :=
  match find (fun p => String.eqb nm (prop_name p)) (rev props) with
  | Some p => be32_of_bytes (data_bytes (prop_data p))
  | None => old
  end.

(** The value of every property [dt_read_cell_props] reads a word from
    holds at least four bytes: the properties named ["#address-cells"] when
    [addrcp] is not [NULL], those named ["#size-cells"] when [sizecp] is
    not. *)
Definition cell_values_present (node : DeviceTreeNode) (c : cells) : bool :=
  forallb (fun p =>
             let read :=
               (match fst c with
                | Some _ => String.eqb "#address-cells" (prop_name p)
                | None => false
                end)
               || (match snd c with
                   | Some _ => String.eqb "#size-cells" (prop_name p)
                   | None => false
                   end) in
             negb read || (4 <=? List.length (data_bytes (prop_data p)))%nat)
    (properties node).

(** No two members of the list are the same string. *)
Fixpoint distinct (l : list string) : bool :=
  match l with
  | [] => true
  | x :: l' => negb (existsb (String.eqb x) l') && distinct l'
  end.

(** No node of the subtree has two children of the same name. *)
Fixpoint distinct_siblings (n : DeviceTreeNode) : bool :=
  distinct (map name (children n)) && forallb distinct_siblings (children n).

(** The node's first property named [nm] has [size] bytes, and they are
    the first [size] bytes of [data]. *)
Definition node_has_value (node : DeviceTreeNode) (nm : string)
    (data : list byte) (size : Z) : bool :=
  match find (fun p => String.eqb nm (prop_name p)) (properties node) with
  | Some p => (size =? prop_size p) &&
              bytes_eqb (firstn (Z.to_nat size) data) (prop_value p)
  | None => false
  end.

(** The number a row of bytes denotes, most significant byte first. *)
Definition be_value (l : list byte) : Z :=
  fold_left (fun acc b => acc * 256 + Z_of_byte b) l 0.

(** The calls [n] allocations make on a pool, with the counter they leave. *)
Fixpoint alloc_many (cache_size : Z) (n : nat) (counter : Z) : list RecordSource * Z :=
  match n with
  | O => ([], counter)
  | S n' =>
      let '(r, counter) := alloc_from cache_size counter in
      let '(rs, counter) := alloc_many cache_size n' counter in
      (r :: rs, counter)
  end.

(** A tree for the examples of the path lookup: two levels below the root,
    cell properties on the root and on one child. *)
Definition example_soc_root : DeviceTreeNode :=
  mkNode ""
    [mkProp "#address-cells" (Some (htobe32 2)) 4;
     mkProp "#size-cells" (Some (htobe32 1)) 4]
    [mkNode "soc" [mkProp "#address-cells" (Some (htobe32 1)) 4]
       [mkNode "uart" [mkProp "compatible" (Some [x61; x2c; x62; x00]) 4] [];
        mkNode "i2c" [] []];
     mkNode "chosen" [] []].

(** The example tree flattened over a buffer of [0xff] bytes: the
    structure block starts at offset 72 and the strings block at 200. *)
Definition example_flat : memory :=
  match dt_flatten example_tree (fun _ => xff) with
  | Some blob => blob
  | None => fun _ => x00
  end.

(** The tree with another root. *)
Definition with_root (tree : DeviceTree) (r : DeviceTreeNode) : DeviceTree :=
  mkTree (header tree) (header_size tree) (reserve_map tree) (Some r).

(** The tree after every callback of the list has been called on it, one
    after the other. *)
Definition fixups_applied (l : list DeviceTreeFixup) (tree : DeviceTree) : DeviceTree :=
  fold_left (fun t f => match fixup f with
                        | Some call => snd (call t)
                        | None => t
                        end) l tree.

(** A fixup for the examples that sets a property of the root and reports
    [res]. *)
Definition example_fixup (nm : string) (val : Z) (res : Z) : DeviceTreeFixup :=
  mkFixup (Some (fun tree =>
    (res, match root tree with
          | Some r => with_root tree (dt_add_u32_prop r nm val)
          | None => tree
          end))).

(** The nodes a pointer leads through, the node it starts from first. *)
Fixpoint nodes_along (n : DeviceTreeNode) (p : node_ptr) : list DeviceTreeNode :=
  n :: match p with
       | [] => []
       | i :: p' =>
           match nth_error (children n) i with
           | Some c => nodes_along c p'
           | None => []
           end
       end.

(** The bytes an image steps over are in [m'] what they are in [m]. *)
Definition holes_kept (m m' : memory) (a : Z) (l : list (option byte)) : Prop :=
  forall i, nth_error l i = Some None -> m' (a + Z.of_nat i) = m (a + Z.of_nat i).

(** The loop of a caller that visits the compatible children one after the
    other: it starts with [NULL] and hands every child it gets back in,
    until [dt_find_next_compat_child] returns [NULL]; at most [fuel]
    rounds. *)
Fixpoint compat_children (fuel : nat) (parent : DeviceTreeNode) (child : option nat)
    (compat : string) : list nat :=
  match fuel with
  | O => []
  | S fuel' =>
      match dt_find_next_compat_child parent child compat with
      | None => []
      | Some i => i :: compat_children fuel' parent (Some i) compat
      end
  end.

(** Whether child [i] of the node is compatible. *)
Definition child_compatible (parent : DeviceTreeNode) (compat : string) (i : nat) : bool :=
  match nth_error (children parent) i with
  | Some n => dt_check_compat_match n compat
  | None => false
  end.

(** * Properties *)

(** ** Property lookup and upsert *)

Lemma find_bin_prop_loop_absent props nm out :
  no_prop_named props nm -> find_bin_prop_loop props nm out = out.
Proof.
  induction props as [|p props IH]; simpl; intros H; [reflexivity|].
  destruct (String.eqb_spec (prop_name p) nm) as [E|E].
  - exfalso. apply (H p); [left; reflexivity | exact E].
  - apply IH. intros q Hq. apply H. right. exact Hq.
Qed.

Lemma find_bin_prop_loop_first l1 p l2 nm out :
  no_prop_named l1 nm -> prop_name p = nm ->
  find_bin_prop_loop (l1 ++ p :: l2) nm out = (prop_data p, prop_size p).
Proof.
  induction l1 as [|q l1 IH]; simpl; intros H E.
  - rewrite E, String.eqb_refl. reflexivity.
  - destruct (String.eqb_spec (prop_name q) nm) as [E'|E'].
    + exfalso. apply (H q); [left; reflexivity | exact E'].
    + apply IH; [|exact E]. intros r Hr. apply H. right. exact Hr.
Qed.

(** C10. When no property of the node carries the name, [dt_find_bin_prop]
    leaves [NULL] and [0] in its outputs and [dt_find_string_prop] returns
    [NULL]; when some property carries it, the outputs are the data and the
    size of the first such property in list order. *)
Theorem dt_find_bin_prop_first_or_null (node : DeviceTreeNode) (nm : string) :
  (no_prop_named (properties node) nm ->
     dt_find_bin_prop node nm = (None, 0) /\ dt_find_string_prop node nm = None) /\
  (forall l1 p l2,
     properties node = l1 ++ p :: l2 ->
     no_prop_named l1 nm -> prop_name p = nm ->
     dt_find_bin_prop node nm = (prop_data p, prop_size p) /\
     dt_find_string_prop node nm = prop_data p).
Proof.
  unfold dt_find_string_prop, dt_find_bin_prop. split.
  - intros H. rewrite (find_bin_prop_loop_absent _ _ _ H). split; reflexivity.
  - intros l1 p l2 E H Hp. rewrite E, (find_bin_prop_loop_first _ _ _ _ _ H Hp).
    split; reflexivity.
Qed.

Lemma dt_find_bin_prop_first_or_null_witness :
  dt_find_bin_prop (mkNode "n" [mkProp "a" (Some [x01]) 1] []) "b" = (None, 0) /\
  dt_find_bin_prop
    (mkNode "n" [mkProp "a" (Some [x01]) 1; mkProp "b" (Some [x02]) 1;
                 mkProp "b" (Some [x03; x04]) 2] []) "b" = (Some [x02], 1).
Proof.
  split.
  - apply (dt_find_bin_prop_first_or_null (mkNode "n" [mkProp "a" (Some [x01]) 1] []) "b").
    intros p [E|[]] H. subst p. discriminate H.
  - apply (proj2 (dt_find_bin_prop_first_or_null
             (mkNode "n" [mkProp "a" (Some [x01]) 1; mkProp "b" (Some [x02]) 1;
                          mkProp "b" (Some [x03; x04]) 2] []) "b")
             [mkProp "a" (Some [x01]) 1] (mkProp "b" (Some [x02]) 1)
             [mkProp "b" (Some [x03; x04]) 2]).
    + reflexivity.
    + intros p [E|[]] H. subst p. discriminate H.
    + reflexivity.
Defined.

Lemma wrap32_small z : 0 <= z < 2 ^ 32 -> wrap32 z = z.
Proof. intros H. unfold wrap32. apply Z.mod_small. exact H. Qed.

Lemma some_eq {A} (a b : A) : Some a = Some b -> a = b.
Proof. intros H. injection H as E. exact E. Qed.

Lemma wrap_int_small z : - 2 ^ 31 <= z < 2 ^ 31 -> wrap_int z = z.
Proof. intros H. unfold wrap_int. rewrite Z.mod_small by lia. lia. Qed.

Lemma wrap32_wrap_int z : wrap32 (wrap_int z) = wrap32 z.
Proof.
  unfold wrap32, wrap_int. rewrite (Z.mod_eq (z + 2 ^ 31)) by lia.
  replace (z + 2 ^ 31 - 2 ^ 32 * ((z + 2 ^ 31) / 2 ^ 32) - 2 ^ 31)
    with (z + - ((z + 2 ^ 31) / 2 ^ 32) * 2 ^ 32) by lia.
  apply Z_mod_plus_full.
Qed.

Lemma bin_prop_update_absent props nm data size :
  no_prop_named props nm -> bin_prop_update props nm data size = None.
Proof.
  induction props as [|p props IH]; simpl; intros H; [reflexivity|].
  destruct (String.eqb_spec (prop_name p) nm) as [E|E].
  - exfalso. apply (H p); [left; reflexivity | exact E].
  - rewrite IH; [reflexivity|]. intros q Hq. apply H. right. exact Hq.
Qed.

Lemma bin_prop_update_first l1 p l2 nm data size :
  no_prop_named l1 nm -> prop_name p = nm ->
  bin_prop_update (l1 ++ p :: l2) nm data size
  = Some (l1 ++ mkProp nm data (wrap32 size) :: l2).
Proof.
  induction l1 as [|q l1 IH]; simpl; intros H E.
  - rewrite E, String.eqb_refl. reflexivity.
  - destruct (String.eqb_spec (prop_name q) nm) as [E'|E'].
    + exfalso. apply (H q); [left; reflexivity | exact E'].
    + rewrite IH; [reflexivity| |exact E]. intros r Hr. apply H. right. exact Hr.
Qed.

(** C3. [dt_add_bin_prop] is an upsert.  When a property carries the name,
    the first such property receives the new data and size where it stands:
    the other properties, the number of properties and the order of the
    names are unchanged (so a name that was unique stays unique).  When no
    property carries the name, a new property with the name, data and size
    is put in front of the list.  The name and the children of the node are
    untouched. *)
Theorem dt_add_bin_prop_upsert (node : DeviceTreeNode) (nm : string)
    (data : option (list byte)) (size : Z) :
  0 <= size < 2 ^ 32 ->
  let node' := dt_add_bin_prop node nm data size in
  name node' = name node /\ children node' = children node /\
  (forall l1 p l2,
     properties node = l1 ++ p :: l2 ->
     no_prop_named l1 nm -> prop_name p = nm ->
     properties node' = l1 ++ mkProp nm data size :: l2 /\
     List.length (properties node') = List.length (properties node) /\
     map prop_name (properties node') = map prop_name (properties node)) /\
  (no_prop_named (properties node) nm ->
     properties node' = mkProp nm data size :: properties node).
Proof.
  intros Hs node'. subst node'. unfold dt_add_bin_prop.
  split; [|split; [|split]].
  - destruct (bin_prop_update _ _ _ _); reflexivity.
  - destruct (bin_prop_update _ _ _ _); reflexivity.
  - intros l1 p l2 E H Hp. rewrite E, (bin_prop_update_first _ _ _ _ _ _ H Hp).
    simpl. rewrite (wrap32_small _ Hs). split; [reflexivity|]. split.
    + rewrite !length_app. reflexivity.
    + rewrite !map_app. simpl. rewrite Hp. reflexivity.
  - intros H. rewrite (bin_prop_update_absent _ _ _ _ H). simpl.
    rewrite (wrap32_small _ Hs). reflexivity.
Qed.

Lemma dt_add_bin_prop_upsert_witness :
  properties (dt_add_bin_prop (mkNode "n" [mkProp "x" (Some [x01]) 1] []) "y"
                (Some [x02; x03]) 2)
  = [mkProp "y" (Some [x02; x03]) 2; mkProp "x" (Some [x01]) 1].
Proof.
  apply (dt_add_bin_prop_upsert (mkNode "n" [mkProp "x" (Some [x01]) 1] []) "y"
           (Some [x02; x03]) 2).
  - lia.
  - intros p [E|[]] H. subst p. discriminate H.
Defined.

(** The spec's example: two additions of ["x"] leave one property named
    ["x"], carrying the second value. *)
Example dt_add_bin_prop_twice (node : DeviceTreeNode) (data1 data2 : list byte) :
  no_prop_named (properties node) "x" ->
  properties (dt_add_bin_prop (dt_add_bin_prop node "x" (Some data1) 4) "x" (Some data2) 8)
  = mkProp "x" (Some data2) 8 :: properties node.
Proof.
  intros H. unfold dt_add_bin_prop at 2.
  rewrite (bin_prop_update_absent _ _ _ _ H). reflexivity.
Qed.

(** ** Path lookup *)

Lemma find_child_none l nm :
  no_child_named l nm -> find_child l nm = None.
Proof.
  induction l as [|c l IH]; simpl; intros H; [reflexivity|].
  destruct (String.eqb_spec (name c) nm) as [E|E].
  - exfalso. apply (H c); [left; reflexivity | exact E].
  - rewrite IH; [reflexivity|]. intros d Hd. apply H. right. exact Hd.
Qed.

Lemma find_child_some l nm i c :
  find_child l nm = Some (i, c) -> nth_error l i = Some c /\ name c = nm.
Proof.
  revert i. induction l as [|d l IH]; simpl; intros i H; [discriminate|].
  destruct (String.eqb_spec (name d) nm) as [E|E].
  - inversion H; subst. split; reflexivity.
  - destruct (find_child l nm) as [[j e]|]; [|discriminate].
    inversion H; subst. simpl. apply IH. reflexivity.
Qed.

Lemma list_set_same {A} (l : list A) i x :
  nth_error l i = Some x -> list_set l i x = l.
Proof.
  revert i. induction l as [|y l IH]; intros [|i]; simpl; intros H; try discriminate.
  - inversion H. reflexivity.
  - rewrite IH; [reflexivity | exact H].
Qed.

Lemma nth_error_list_set {A} (l : list A) i x y :
  nth_error l i = Some y -> nth_error (list_set l i x) i = Some x.
Proof.
  revert i. induction l as [|z l IH]; intros [|i]; simpl; intros H; try discriminate.
  - reflexivity.
  - apply IH. exact H.
Qed.

Lemma dt_find_node_keeps strdup parent path c create :
  name (fst (fst (dt_find_node strdup parent path c create))) = name parent /\
  properties (fst (fst (dt_find_node strdup parent path c create))) = properties parent.
Proof.
  destruct path as [|comp path]; simpl; [split; reflexivity|].
  destruct (find_child (children parent) comp) as [[i found]|].
  - destruct (dt_find_node strdup found path _ create) as [[f' c'] r]. split; reflexivity.
  - destruct (negb create); [split; reflexivity|].
    destruct (strdup comp) as [nm|]; [|split; reflexivity].
    destruct (dt_find_node strdup _ path _ create) as [[f' c'] r]. split; reflexivity.
Qed.

(** A lookup that may not create leaves the tree as it was. *)
Lemma dt_find_node_readonly strdup parent path c :
  fst (fst (dt_find_node strdup parent path c false)) = parent.
Proof.
  revert parent c. induction path as [|comp path IH]; intros parent c; simpl;
    [reflexivity|].
  destruct (find_child (children parent) comp) as [[i found]|] eqn:F; [|reflexivity].
  specialize (IH found (dt_read_cell_props parent c)).
  destruct (dt_find_node strdup found path _ false) as [[f' c'] r]. simpl in *.
  subst f'. apply find_child_some in F. destruct F as [F _].
  rewrite (list_set_same _ _ _ F). destruct parent; reflexivity.
Qed.

(** C6. With no path component left [dt_find_node] returns the node it
    started from, whatever [create] is; with [create] off and no child
    named as the first component it returns [NULL]; the tree is the same
    after both calls. *)
Theorem dt_find_node_empty_or_missing (strdup : string -> option string)
    (parent : DeviceTreeNode) (c : cells) :
  (forall create,
     dt_find_node strdup parent [] c create
     = (parent, dt_read_cell_props parent c, Some []) /\
     node_at parent [] = Some parent) /\
  (forall comp rest,
     no_child_named (children parent) comp ->
     dt_find_node strdup parent (comp :: rest) c false
     = (parent, dt_read_cell_props parent c, None)).
Proof.
  split.
  - intros create. split; reflexivity.
  - intros comp rest H. simpl. rewrite (find_child_none _ _ H). reflexivity.
Qed.

Lemma dt_find_node_empty_or_missing_witness :
  dt_find_node (fun s => Some s) (mkNode "" [] [mkNode "c" [] []]) ["a"%string; "b"%string]
    (None, None) false
  = (mkNode "" [] [mkNode "c" [] []], (None, None), None).
Proof.
  apply (proj2 (dt_find_node_empty_or_missing (fun s => Some s)
                  (mkNode "" [] [mkNode "c" [] []]) (None, None)) "a"%string ["b"%string]).
  intros ch [E|[]] H. subst ch. discriminate H.
Defined.

Section Create.

Variable strdup : string -> option string.
Hypothesis strdup_copies : forall s, strdup s = Some s.






End Create.






(** ** Reading words *)

Lemma Z_of_byte_range b : 0 <= Z_of_byte b < 256.
Proof.
  unfold Z_of_byte. pose proof (Byte.to_N_bounded b). lia.
Qed.

Lemma be32_of_bytes_range l : 0 <= be32_of_bytes l < 2 ^ 32.
Proof.
  unfold be32_of_bytes.
  pose proof (Z_of_byte_range (nth 0 l x00)).
  pose proof (Z_of_byte_range (nth 1 l x00)).
  pose proof (Z_of_byte_range (nth 2 l x00)).
  pose proof (Z_of_byte_range (nth 3 l x00)).
  lia.
Qed.

Lemma be32toh_at_range m a : 0 <= be32toh_at m a < 2 ^ 32.
Proof. apply be32_of_bytes_range. Qed.

(** ** The reader: more fuel, same result *)

Lemma c_string_at_mono f f' m a r :
  (f <= f')%nat -> c_string_at f m a = Some r -> c_string_at f' m a = Some r.
Proof.
  revert f' a r. induction f as [|f IH]; intros f' a r Hle H; [discriminate|].
  destruct f' as [|f']; [lia|]. simpl in *.
  destruct (Byte.eqb (m a) x00); [exact H|].
  destruct (c_string_at f m (a + 1)) as [l|] eqn:E; [|discriminate].
  rewrite (IH f' (a + 1) l); [exact H | lia | exact E].
Qed.

Lemma fdt_node_name_mono f f' blob off r :
  (f <= f')%nat -> fdt_node_name f blob off = Some r -> fdt_node_name f' blob off = Some r.
Proof.
  unfold fdt_node_name, strlen_at. intros Hle H.
  destruct (negb _); [exact H|].
  destruct (c_string_at f blob (wrap32 off + 4)) as [l|] eqn:E; [|discriminate].
  rewrite (c_string_at_mono _ _ _ _ _ Hle E). exact H.
Qed.

Lemma fdt_skip_props_mono f f' blob off r :
  (f <= f')%nat -> fdt_skip_props f blob off = Some r -> fdt_skip_props f' blob off = Some r.
Proof.
  revert f' off. induction f as [|f IH]; intros f' off Hle H; [discriminate|].
  destruct f' as [|f']; [lia|]. simpl in *.
  destruct (fst (fdt_next_property blob off) =? 0); [exact H|].
  apply IH; [lia | exact H].
Qed.

Lemma fdt_skip_mono f :
  (forall f' blob off r, (f <= f')%nat ->
     fdt_skip_node f blob off = Some r -> fdt_skip_node f' blob off = Some r) /\
  (forall f' blob off r, (f <= f')%nat ->
     fdt_skip_children f blob off = Some r -> fdt_skip_children f' blob off = Some r).
Proof.
  induction f as [|f [IHn IHc]]; [split; intros; discriminate|].
  split; intros f' blob off r Hle H; (destruct f' as [|f']; [lia|]); simpl in *.
  - destruct (fdt_node_name f blob _) as [[size nm]|] eqn:E; [|discriminate].
    rewrite (fdt_node_name_mono f f' _ _ _ ltac:(lia) E).
    destruct (size =? 0); [exact H|].
    destruct (fdt_skip_props f blob _) as [o1|] eqn:E1; [|discriminate].
    rewrite (fdt_skip_props_mono f f' _ _ _ ltac:(lia) E1).
    destruct (fdt_skip_children f blob o1) as [o2|] eqn:E2; [|discriminate].
    rewrite (IHc f' _ _ _ ltac:(lia) E2). exact H.
  - destruct (fdt_skip_node f blob off) as [size|] eqn:E; [|discriminate].
    rewrite (IHn f' _ _ _ ltac:(lia) E).
    destruct (size =? 0); [exact H|].
    apply IHc; [lia | exact H].
Qed.

(** ** Skipping and building consume the same bytes *)

Lemma fdt_skip_props_unflatten f blob off acc :
  fdt_skip_props f blob off = option_map snd (fdt_unflatten_props f blob off acc).
Proof.
  revert off acc. induction f as [|f IH]; intros off acc; simpl; [reflexivity|].
  destruct (fdt_next_property blob off) as [size fprop]. simpl.
  destruct (size =? 0); [reflexivity|].
  destruct fprop; apply IH.
Qed.

Lemma fdt_skip_unflatten f :
  (forall blob off,
     fdt_skip_node f blob off = option_map fst (fdt_unflatten_node f blob off)) /\
  (forall blob off acc,
     fdt_skip_children f blob off
     = option_map snd (fdt_unflatten_children f blob off acc)).
Proof.
  induction f as [|f [IHn IHc]]; [split; reflexivity|].
  split; intros; simpl.
  - destruct (fdt_node_name f blob _) as [[size nm]|]; [|reflexivity].
    destruct (size =? 0); [reflexivity|].
    rewrite (fdt_skip_props_unflatten f blob _ []).
    destruct (fdt_unflatten_props f blob _ []) as [[props o1]|];
      [|reflexivity].
    simpl. rewrite (IHc blob o1 []).
    destruct (fdt_unflatten_children f blob o1 []) as [[childs o2]|]; reflexivity.
  - rewrite IHn.
    destruct (fdt_unflatten_node f blob off) as [[size child]|]; [|reflexivity].
    simpl. destruct (size =? 0); [reflexivity|].
    destruct child; apply IHc.
Qed.

(** ** Reading a property *)

Lemma size32_exact size :
  0 <= size -> size + 3 < 2 ^ 32 -> size32 size * 4 = (size + 3) / 4 * 4.
Proof.
  intros H0 H1. unfold size32.
  rewrite (wrap32_small size) by lia.
  replace (size + 4 - 1) with (size + 3) by lia.
  rewrite wrap32_small; [reflexivity|].
  split; [apply Z.div_pos; lia|].
  apply Z.div_lt_upper_bound; lia.
Qed.

(** C7. At an offset whose token is not the property token
    [fdt_next_property] consumes 0 bytes and produces no property.  At a
    property token of a well-formed blob (the three words and the declared
    size rounded up stay inside the range of the [int] returned, the name
    offset inside the 32-bit blob) it consumes 12 bytes plus the size
    rounded up to a multiple of four, which is not 0; the name is at the
    header's strings offset plus the stored name offset, the data pointer is
    the place in the blob right behind the three words, and the size is the
    declared one. *)
Theorem fdt_next_property_reads (blob : memory) (offset : Z) :
  0 <= offset < 2 ^ 32 ->
  (be32toh_at blob offset <> TokenProperty ->
   fdt_next_property blob offset = (0, None)) /\
  (be32toh_at blob offset = TokenProperty ->
   12 + round_up4 (be32toh_at blob (offset + 4)) < 2 ^ 31 ->
   be32toh_at blob hdr_strings_offset + be32toh_at blob (offset + 8) < 2 ^ 32 ->
   fdt_next_property blob offset
   = (12 + round_up4 (be32toh_at blob (offset + 4)),
      Some (mkBlobProp
              (be32toh_at blob hdr_strings_offset + be32toh_at blob (offset + 8))
              (offset + 12)
              (be32toh_at blob (offset + 4)))) /\
   fst (fdt_next_property blob offset) <> 0).
Proof.
  intros Ho. unfold fdt_next_property. rewrite (wrap32_small _ Ho). split.
  - intros H. destruct (Z.eqb_spec (be32toh_at blob offset) TokenProperty); [contradiction|].
    reflexivity.
  - intros H Hs Hn. rewrite H, Z.eqb_refl. cbv [negb].
    pose proof (be32toh_at_range blob (offset + 4)) as R4.
    pose proof (be32toh_at_range blob (offset + 8)) as R8.
    pose proof (be32toh_at_range blob hdr_strings_offset) as Rs.
    rewrite (wrap32_small (be32toh_at blob (offset + 8) + _)) by lia.
    assert (Ru : be32toh_at blob (offset + 4)
                 <= round_up4 (be32toh_at blob (offset + 4))
                 < be32toh_at blob (offset + 4) + 4)
      by (unfold round_up4; Z.div_mod_to_equations; lia).
    assert (E : size32 (be32toh_at blob (offset + 4)) * 4
                = round_up4 (be32toh_at blob (offset + 4))).
    { unfold round_up4. rewrite <- size32_exact by lia. lia. }
    rewrite (wrap_int_small (3 + _)) by lia.
    rewrite wrap_int_small by lia.
    replace ((3 + size32 (be32toh_at blob (offset + 4))) * 4)
      with (12 + round_up4 (be32toh_at blob (offset + 4))) by lia.
    replace (be32toh_at blob (offset + 8) + be32toh_at blob hdr_strings_offset)
      with (be32toh_at blob hdr_strings_offset + be32toh_at blob (offset + 8)) by lia.
    split; [reflexivity|]. cbv [fst]. unfold round_up4.
    assert (0 <= (be32toh_at blob (offset + 4) + 3) / 4) by (apply Z.div_pos; lia).
    clear - H0. lia.
Qed.

Lemma fdt_next_property_reads_witness :
  fdt_next_property example_blob 40 = (20, Some (mkBlobProp 66 52 5)) /\
  fdt_next_property example_blob 44 = (0, None).
Proof.
  split.
  - apply (fdt_next_property_reads example_blob 40); [lia | | | ]; vm_compute; reflexivity.
  - apply (fdt_next_property_reads example_blob 44); [lia|]. vm_compute. discriminate.
Defined.

(** ** The reg property *)

Lemma list_set_app {A} (l1 : list A) x l2 y :
  list_set (l1 ++ x :: l2) (List.length l1) y = l1 ++ y :: l2.
Proof.
  induction l1 as [|z l1 IH]; simpl; [reflexivity|]. rewrite IH. reflexivity.
Qed.

Lemma be_bytes_length n v : List.length (be_bytes n v) = n.
Proof.
  revert v. induction n as [|n IH]; intros v; simpl; [reflexivity|].
  rewrite length_app, IH. simpl. lia.
Qed.

Lemma dt_write_int_app len :
  forall pre mid post src,
    List.length mid = len ->
    dt_write_int (pre ++ mid ++ post) (List.length pre) src len
    = pre ++ be_bytes len src ++ post.
Proof.
  induction len as [|len IH]; intros pre mid post src Hlen.
  - destruct mid; [reflexivity | discriminate].
  - destruct (exists_last (l := mid)) as (mid' & x & ->).
    { intros ->. discriminate. }
    rewrite length_app in Hlen. simpl in Hlen.
    assert (Hm : List.length mid' = len) by lia.
    simpl dt_write_int.
    replace (List.length pre + len)%nat with (List.length (pre ++ mid'))
      by (rewrite length_app; lia).
    replace (pre ++ (mid' ++ [x]) ++ post) with ((pre ++ mid') ++ x :: post)
      by (rewrite <- !app_assoc; reflexivity).
    rewrite list_set_app. rewrite <- app_assoc.
    rewrite (IH pre mid' (byte_of_Z src :: post) (Z.shiftr src 8) Hm).
    simpl be_bytes. rewrite <- !app_assoc. reflexivity.
Qed.

Lemma be_bytes_four n v :
  be_bytes (4 + n) v = be_bytes n (Z.shiftr v 32) ++ htobe32 v.
Proof.
  simpl. unfold htobe32. rewrite !Z.shiftr_shiftr by lia. simpl Z.add.
  rewrite <- !app_assoc. reflexivity.
Qed.

Lemma be_bytes_cells c v : be_bytes (4 * c) v = encode_cells c v.
Proof.
  revert v. induction c as [|c IH]; intros v; [reflexivity|].
  replace (4 * S c)%nat with (4 + 4 * c)%nat by lia.
  rewrite be_bytes_four, IH. reflexivity.
Qed.

Lemma encode_cells_length c v : List.length (encode_cells c v) = (4 * c)%nat.
Proof. rewrite <- be_bytes_cells. apply be_bytes_length. Qed.

Lemma repeat_split {A} (x : A) a b : repeat x (a + b) = repeat x a ++ repeat x b.
Proof. apply repeat_app. Qed.

Lemma skipn_nth_cons {A} (l : list A) i d :
  (i < List.length l)%nat -> skipn i l = nth i l d :: skipn (S i) l.
Proof.
  revert l. induction i as [|i IH]; intros [|a l] H; simpl in *; try lia.
  - reflexivity.
  - apply IH. lia.
Qed.

Lemma reg_value_cons addr_cells size_cells e entries :
  reg_value addr_cells size_cells (e :: entries)
  = encode_cells (Z.to_nat addr_cells) (fst e) ++
    encode_cells (Z.to_nat size_cells) (snd e) ++
    reg_value addr_cells size_cells entries.
Proof. unfold reg_value. simpl. rewrite <- app_assoc. reflexivity. Qed.

Lemma reg_loop_fills fill addr_cells size_cells :
  0 <= addr_cells -> 0 <= size_cells ->
  forall todo i addrs sizes pre,
    (i + todo <= List.length addrs)%nat -> (i + todo <= List.length sizes)%nat ->
    reg_loop todo i addrs sizes addr_cells size_cells
      (pre ++ repeat fill (todo * Z.to_nat ((addr_cells + size_cells) * 4)))
      (Z.of_nat (List.length pre))
    = pre ++ reg_value addr_cells size_cells
               (combine (firstn todo (skipn i addrs)) (firstn todo (skipn i sizes))).
Proof.
  intros Ha Hs. induction todo as [|todo IH]; intros i addrs sizes pre Hla Hls.
  - simpl. reflexivity.
  - assert (Ea : skipn i addrs = nth i addrs 0 :: skipn (S i) addrs)
      by (apply skipn_nth_cons; lia).
    assert (Es : skipn i sizes = nth i sizes 0 :: skipn (S i) sizes)
      by (apply skipn_nth_cons; lia).
    rewrite Ea, Es, !firstn_cons. cbn [combine]. rewrite reg_value_cons. cbn [fst snd].
    replace (S todo * Z.to_nat ((addr_cells + size_cells) * 4))%nat
      with (Z.to_nat (addr_cells * 4) + (Z.to_nat (size_cells * 4)
              + todo * Z.to_nat ((addr_cells + size_cells) * 4)))%nat by lia.
    cbn [reg_loop].
    rewrite !repeat_split.
    rewrite Nat2Z.id.
    rewrite (dt_write_int_app (Z.to_nat (addr_cells * 4)) pre _ _ _ (repeat_length _ _)).
    replace (Z.to_nat (Z.of_nat (List.length pre) + addr_cells * 4))
      with (List.length (pre ++ be_bytes (Z.to_nat (addr_cells * 4)) (nth i addrs 0)))
      by (rewrite length_app, be_bytes_length; lia).
    rewrite app_assoc.
    rewrite (dt_write_int_app (Z.to_nat (size_cells * 4)) _ _ _ _ (repeat_length _ _)).
    rewrite app_assoc.
    match goal with
    | |- reg_loop _ _ _ _ _ _ (?p ++ _) ?c = _ =>
        replace c with (Z.of_nat (List.length p))
    end.
    + rewrite (IH (S i) addrs sizes _ ltac:(lia) ltac:(lia)).
      replace (Z.to_nat (addr_cells * 4)) with (4 * Z.to_nat addr_cells)%nat by lia.
      replace (Z.to_nat (size_cells * 4)) with (4 * Z.to_nat size_cells)%nat by lia.
      rewrite !be_bytes_cells. rewrite <- !app_assoc. reflexivity.
    + rewrite !length_app, !be_bytes_length. lia.
Qed.

Lemma reg_value_length addr_cells size_cells entries :
  0 <= addr_cells -> 0 <= size_cells ->
  Z.of_nat (List.length (reg_value addr_cells size_cells entries))
  = (addr_cells + size_cells) * 4 * Z.of_nat (List.length entries).
Proof.
  intros Ha Hs. induction entries as [|e entries IH]; [simpl; lia|].
  unfold reg_value in *. simpl flat_map.
  rewrite !length_app, !encode_cells_length. simpl List.length. lia.
Qed.

Lemma find_after_update props nm data size out :
  find_bin_prop_loop
    (match bin_prop_update props nm data size with
     | Some props' => props'
     | None => mkProp nm data (wrap32 size) :: props
     end) nm out
  = (data, wrap32 size).
Proof.
  destruct (bin_prop_update props nm data size) as [props'|] eqn:E.
  - revert props' E. induction props as [|p props IH]; intros props' E; simpl in E;
      [discriminate|].
    destruct (String.eqb_spec (prop_name p) nm) as [En|En].
    + inversion E; subst. simpl. rewrite String.eqb_refl. reflexivity.
    + destruct (bin_prop_update props nm data size) as [q|]; [|discriminate].
      inversion E; subst. simpl.
      destruct (String.eqb_spec (prop_name p) nm); [contradiction|].
      apply IH. reflexivity.
  - simpl. rewrite String.eqb_refl. reflexivity.
Qed.

Lemma dt_find_after_add node nm data size :
  dt_find_bin_prop (dt_add_bin_prop node nm data size) nm = (data, wrap32 size).
Proof.
  unfold dt_find_bin_prop, dt_add_bin_prop.
  pose proof (find_after_update (properties node) nm data size (None, 0)) as H.
  destruct (bin_prop_update (properties node) nm data size); exact H.
Qed.

(** C8. [dt_add_reg_prop] leaves on the node a property named ["reg"]
    of [(addr_cells + size_cells) * 4 * count] bytes; its value is, entry
    after entry, the address as [addr_cells] big-endian 32-bit words followed
    by the size as [size_cells] big-endian 32-bit words. *)
Theorem dt_add_reg_prop_encodes (fill : byte) (node : DeviceTreeNode)
    (addrs sizes : list Z) (count addr_cells size_cells : Z) :
  0 <= count -> 0 <= addr_cells -> 0 <= size_cells ->
  (Z.to_nat count <= List.length addrs)%nat ->
  (Z.to_nat count <= List.length sizes)%nat ->
  addr_cells + size_cells < 2 ^ 32 ->
  (addr_cells + size_cells) * 4 * count < 2 ^ 32 ->
  let value := reg_value addr_cells size_cells
                 (combine (firstn (Z.to_nat count) addrs)
                          (firstn (Z.to_nat count) sizes)) in
  dt_find_bin_prop
    (dt_add_reg_prop fill node addrs sizes count addr_cells size_cells) "reg"
  = (Some value, (addr_cells + size_cells) * 4 * count) /\
  Z.of_nat (List.length value) = (addr_cells + size_cells) * 4 * count.
Proof.
  intros Hc Ha Hs Hla Hls Hsum Hlen value.
  assert (Hv : Z.of_nat (List.length value) = (addr_cells + size_cells) * 4 * count).
  { subst value. rewrite reg_value_length by assumption.
    rewrite length_combine, !length_firstn. f_equal. lia. }
  split; [|exact Hv].
  unfold dt_add_reg_prop. rewrite dt_find_after_add.
  rewrite (wrap32_small (addr_cells + size_cells)) by lia.
  rewrite wrap32_small by nia.
  f_equal. f_equal. unfold xmalloc.
  replace (Z.to_nat ((addr_cells + size_cells) * 4 * count))
    with (Z.to_nat count * Z.to_nat ((addr_cells + size_cells) * 4))%nat by nia.
  apply (reg_loop_fills fill addr_cells size_cells Ha Hs (Z.to_nat count) O addrs sizes []);
    simpl; lia.
Qed.

(** The spec's example: one entry, address 0x1000 on two cells, size 0x200
    on one cell, whatever the allocated bytes held. *)
Lemma dt_add_reg_prop_encodes_witness :
  dt_find_bin_prop (dt_add_reg_prop xff (mkNode "n" [] []) [0x1000] [0x200] 1 2 1) "reg"
  = (Some [x00; x00; x00; x00; x00; x00; x10; x00; x00; x00; x02; x00], 12).
Proof.
  apply (dt_add_reg_prop_encodes xff (mkNode "n" [] []) [0x1000] [0x200] 1 2 1);
    simpl; lia.
Defined.

(** ** Compatible search *)

Lemma DeviceTreeNode_ind' (P : DeviceTreeNode -> Prop) :
  (forall nm ps cs, Forall P cs -> P (mkNode nm ps cs)) -> forall n, P n.
Proof.
  intros H. fix IH 1. intros [nm ps cs]. apply H.
  induction cs as [|c cs IHcs]; constructor; [apply IH | exact IHcs].
Qed.

Lemma byte_eqb_refl b : Byte.eqb b b = true.
Proof. apply Byte.byte_dec_lb. reflexivity. Qed.

Lemma byte_eqb_neq a b : a <> b -> Byte.eqb a b = false.
Proof.
  intros H. destruct (Byte.eqb a b) eqn:E; [|reflexivity].
  apply Byte.byte_dec_bl in E. contradiction.
Qed.

Lemma bytes_eqb_cons a x b y :
  bytes_eqb (a :: x) (b :: y) = Byte.eqb a b && bytes_eqb x y.
Proof.
  unfold bytes_eqb.
  destruct (list_eq_dec byte_eq_dec (a :: x) (b :: y)) as [E|E];
    destruct (list_eq_dec byte_eq_dec x y) as [F|F];
    destruct (Byte.eqb a b) eqn:G; try reflexivity.
  - inversion E; subst. rewrite byte_eqb_refl in G. discriminate.
  - inversion E; subst. contradiction.
  - inversion E; subst. contradiction.
  - apply Byte.byte_dec_bl in G. subst. contradiction.
Qed.
Lemma strnlen_le s n : (strnlen s n <= n)%nat.
Proof.
  revert s. induction n as [|n IH]; intros [|b s]; simpl; try lia.
  destruct (Byte.eqb b x00); [lia|]. specialize (IH s). lia.
Qed.

Lemma strnlen_le_length s n : (strnlen s n <= List.length s)%nat.
Proof.
  revert s. induction n as [|n IH]; intros [|b s]; simpl; try lia.
  destruct (Byte.eqb b x00); [lia|]. specialize (IH s). lia.
Qed.

Lemma strnlen_firstn s n : strnlen (firstn n s) n = strnlen s n.
Proof.
  revert s. induction n as [|n IH]; intros [|b s]; simpl; try reflexivity.
  destruct (Byte.eqb b x00); [reflexivity|]. rewrite IH. reflexivity.
Qed.

(** [strncmp] against the entry the cursor is at. *)
Lemma strncmp_eq_entry n :
  forall c s,
    ~ In x00 c -> (n <= List.length s)%nat ->
    strncmp_eq c s n
    = entry_matches c (firstn (strnlen s n) s, (strnlen s n <? n)%nat).
Proof.
  induction n as [|n IH]; intros c s Hc Hn.
  - destruct s; reflexivity.
  - destruct s as [|b s]; [simpl in Hn; lia|]. simpl in Hn.
    cbn [strncmp_eq strnlen hd tl].
    destruct (Byte.eqb b x00) eqn:Eb.
    + apply Byte.byte_dec_bl in Eb. subst b. destruct c as [|a c].
      * reflexivity.
      * assert (Ha : a <> x00) by (intros ->; apply Hc; left; reflexivity).
        cbn [hd]. rewrite (byte_eqb_neq _ _ Ha). reflexivity.
    + assert (Hb : b <> x00) by (intros ->; rewrite byte_eqb_refl in Eb; discriminate).
      change (S (strnlen s n) <? S n)%nat with (strnlen s n <? n)%nat.
      cbn [firstn]. destruct c as [|a c].
      * cbn [hd]. rewrite (byte_eqb_neq x00 b) by congruence.
        unfold entry_matches. cbn [fst snd]. destruct (strnlen s n <? n)%nat; reflexivity.
      * cbn [hd tl].
        assert (Hc' : ~ In x00 c) by (intros F; apply Hc; right; exact F).
        assert (Ha : a <> x00) by (intros ->; apply Hc; left; reflexivity).
        unfold entry_matches. cbn [fst snd List.length firstn].
        rewrite !bytes_eqb_cons.
        destruct (Byte.eqb a b) eqn:Eab.
        -- apply Byte.byte_dec_bl in Eab. subst a. rewrite byte_eqb_refl.
           rewrite (byte_eqb_neq _ _ Ha). cbn [andb].
           rewrite (IH c s Hc' ltac:(lia)). unfold entry_matches. reflexivity.
        -- assert (Hba : Byte.eqb b a = false).
           { apply byte_eqb_neq. intros ->. rewrite byte_eqb_refl in Eab. discriminate. }
           rewrite Hba. destruct (strnlen s n <? n)%nat; reflexivity.
Qed.

(** The first entry of a value and the entries behind it. *)
Lemma compat_entries_first v :
  v <> [] ->
  compat_entries v
  = (firstn (strnlen v (List.length v)) v,
     (strnlen v (List.length v) <? List.length v)%nat)
    :: compat_entries (skipn (S (strnlen v (List.length v))) v).
Proof.
  induction v as [|b v IH]; intros Hv; [contradiction|].
  cbn [compat_entries List.length strnlen].
  destruct (Byte.eqb b x00) eqn:Eb; [reflexivity|].
  change (S (strnlen v (List.length v)) <? S (List.length v))%nat
    with (strnlen v (List.length v) <? List.length v)%nat.
  cbn [firstn skipn].
  destruct v as [|b' v]; [reflexivity|].
  rewrite IH by discriminate. reflexivity.
Qed.

(** The scan of [dt_check_compat_match] finds a match exactly when some
    entry of the value matches. *)
Lemma compat_scan_entries fuel :
  forall c s n,
    ~ In x00 c -> (n <= fuel)%nat -> (n <= List.length s)%nat ->
    compat_scan fuel c s n
    = existsb (entry_matches c) (compat_entries (firstn n s)).
Proof.
  induction fuel as [|fuel IH]; intros c s n Hc Hf Hn.
  - assert (n = O) by lia. subst n. reflexivity.
  - cbn [compat_scan]. destruct n as [|n]; [reflexivity|].
    change (0 <? S n)%nat with true. cbn iota.
    assert (Hv : firstn (S n) s <> []).
    { destruct s; [simpl in Hn; lia | discriminate]. }
    assert (Hl : List.length (firstn (S n) s) = S n) by (rewrite length_firstn; lia).
    rewrite (compat_entries_first _ Hv), Hl, strnlen_firstn.
    pose proof (strnlen_le s (S n)) as Hk.
    rewrite firstn_firstn, (Nat.min_l _ _ Hk).
    cbn [existsb]. rewrite <- (strncmp_eq_entry (S n) c s Hc Hn).
    destruct (strncmp_eq c s (S n)); [reflexivity|]. cbn [orb].
    destruct (Nat.leb_spec (S n) (S (strnlen s (S n)))) as [Hle|Hlt].
    + rewrite skipn_all2 by (rewrite Hl; lia). reflexivity.
    + rewrite skipn_firstn_comm.
      apply IH; [exact Hc | lia | rewrite length_skipn; lia].
Qed.

Lemma dt_check_compat_match_entries node compat :
  nul_free compat -> Forall value_present (properties node) ->
  dt_check_compat_match node compat = node_compatible node compat.
Proof.
  unfold dt_check_compat_match, node_compatible, nul_free. intros Hc.
  induction (properties node) as [|p props IH]; intros Hp; [reflexivity|].
  inversion Hp as [|? ? [H0 Hlen] Hrest]; subst.
  cbn [dt_check_compat_props find].
  destruct (String.eqb "compatible" (prop_name p)).
  - unfold prop_value. apply compat_scan_entries; [exact Hc | lia | exact Hlen].
  - apply IH. exact Hrest.
Qed.

(** [dt_find_compat] walks the pre-order list and stops at the first node
    [dt_check_compat_match] accepts. *)
Lemma find_map {A B} (g : B -> bool) (h : A -> B) l :
  find g (map h l) = option_map h (find (fun x => g (h x)) l).
Proof.
  induction l as [|e l IH]; [reflexivity|]. simpl.
  destruct (g (h e)); [reflexivity | exact IH].
Qed.

Lemma find_app {A} (f : A -> bool) l1 l2 :
  find f (l1 ++ l2) = match find f l1 with Some x => Some x | None => find f l2 end.
Proof.
  induction l1 as [|x l1 IH]; [reflexivity|]. simpl.
  destruct (f x); [reflexivity | exact IH].
Qed.

Lemma dt_find_compat_preorder compat parent :
  dt_find_compat parent compat
  = option_map fst
      (find (fun e => dt_check_compat_match (snd e) compat) (preorder parent)).
Proof.
  induction parent as [nm ps cs IH] using DeviceTreeNode_ind'.
  cbn [dt_find_compat preorder find snd children].
  destruct (dt_check_compat_match (mkNode nm ps cs) compat); [reflexivity|].
  generalize O. induction IH as [|c cs Hc _ IHcs]; intros i; [reflexivity|].
  cbn [find_compat_children preorder_children].
  rewrite find_app, find_map. cbn [snd]. rewrite Hc. unfold node_ptr in *.
  match goal with |- context [find ?f (preorder c)] => set (o := find f (preorder c)) end.
  clearbody o. destruct o; [reflexivity | apply IHcs].
Qed.

Lemma preorder_node_at parent :
  forall p n, In (p, n) (preorder parent) -> node_at parent p = Some n.
Proof.
  induction parent as [nm ps cs IH] using DeviceTreeNode_ind'.
  intros p n. cbn [preorder children]. intros [E|H].
  - inversion E; subst. reflexivity.
  - revert H.
    assert (G : forall i, In (p, n) (preorder_children preorder cs i) ->
                exists j q, p = (i + j)%nat :: q /\
                  match nth_error cs j with
                  | Some c => node_at c q = Some n
                  | None => False
                  end).
    { induction IH as [|c cs Hc _ IHcs]; intros i; [intros []|].
      cbn [preorder_children]. rewrite in_app_iff, in_map_iff.
      intros [(e & Ee & He)|H].
      - inversion Ee; subst. exists O, (fst e). split; [f_equal; lia|].
        simpl. apply Hc. destruct e; exact He.
      - destruct (IHcs (S i) H) as (j & q & -> & Hj).
        exists (S j), q. split; [f_equal; lia | exact Hj]. }
    intros H. destruct (G O H) as (j & q & -> & Hj). simpl.
    destruct (nth_error cs j); [exact Hj | contradiction].
Qed.

Lemma find_ext_in {A} (f g : A -> bool) l :
  (forall x, In x l -> f x = g x) -> find f l = find g l.
Proof.
  induction l as [|x l IH]; intros H; [reflexivity|]. simpl.
  rewrite <- (H x (or_introl eq_refl)).
  destruct (f x); [reflexivity|]. apply IH. intros y Hy. apply H. right. exact Hy.
Qed.

(** C5. [dt_find_compat] returns the first node, in depth-first pre-order
    (the subtree root before its children, the children in list order, each
    with its own subtree), whose compatible property has an entry matching
    the string: an entry that is the string, or a last entry without
    terminator that the string starts with.  It returns [NULL] when no node
    of the subtree has one.  The pointer returned leads to that node. *)
Theorem dt_find_compat_first_match (parent : DeviceTreeNode) (compat : string) :
  nul_free compat -> values_present parent ->
  dt_find_compat parent compat
  = option_map fst (find (fun e => node_compatible (snd e) compat) (preorder parent)) /\
  (forall p, dt_find_compat parent compat = Some p ->
     exists n, node_at parent p = Some n /\ In (p, n) (preorder parent) /\
               node_compatible n compat = true) /\
  (dt_find_compat parent compat = None <->
   forall p n, In (p, n) (preorder parent) -> node_compatible n compat = false).
Proof.
  intros Hc Hv.
  assert (E : dt_find_compat parent compat
              = option_map fst (find (fun e => node_compatible (snd e) compat)
                                  (preorder parent))).
  { rewrite dt_find_compat_preorder. f_equal. apply find_ext_in.
    intros [q m] Hin. apply dt_check_compat_match_entries; [exact Hc|].
    apply (Hv q m Hin). }
  split; [exact E|]. rewrite E. split.
  - intros p Hp.
    destruct (find _ (preorder parent)) as [[q n]|] eqn:F; [|discriminate].
    inversion Hp; subst. apply find_some in F. destruct F as [Hin Hn].
    exists n. split; [apply preorder_node_at; exact Hin|]. split; assumption.
  - split.
    + intros Hn p n Hin.
      destruct (find _ (preorder parent)) eqn:F; [discriminate|].
      apply (find_none _ _ F (p, n) Hin).
    + intros Hn. destruct (find _ (preorder parent)) as [[q n]|] eqn:F; [|reflexivity].
      apply find_some in F. destruct F as [Hin Hm]. simpl in Hm.
      rewrite (Hn q n Hin) in Hm. discriminate.
Qed.

Lemma dt_find_compat_first_match_witness :
  dt_find_compat example_compat_root "foo" = Some [O] /\
  node_at example_compat_root [O]
  = Some (mkNode "X" [mkProp "compatible" (Some [x66; x6f; x6f; x00]) 4] []).
Proof.
  assert (Hc : nul_free "foo").
  { unfold nul_free. simpl. intros [H|[H|[H|[]]]]; discriminate H. }
  assert (Hv : values_present example_compat_root).
  { intros q m. simpl.
    intros [H|[H|[H|[H|[]]]]]; inversion H; subst; simpl;
      repeat constructor; simpl; lia. }
  destruct (dt_find_compat_first_match example_compat_root "foo" Hc Hv) as (E & _ & _).
  split; [exact E | reflexivity].
Defined.

(** The spec's example, and the resumed search among the children. *)
Example dt_find_compat_example :
  dt_find_compat example_compat_root "foo" = Some [O] /\
  dt_find_next_compat_child example_compat_root (Some O) "foo" = Some 2%nat /\
  dt_find_next_compat_child example_compat_root None "bar" = Some 1%nat /\
  dt_find_compat example_compat_root "fo" = None.
Proof. repeat split. Qed.

(** A whole entry is compared, not a part of it; a last entry without
    terminator is compared over the bytes the value has. *)
Example dt_check_compat_match_example :
  dt_check_compat_match
    (mkNode "n" [mkProp "compatible" (Some [x66; x6f; x6f; x62; x00]) 5] []) "foo" = false /\
  dt_check_compat_match
    (mkNode "n" [mkProp "compatible" (Some [x61; x00; x66; x6f; x6f; x00]) 6] []) "foo" = true /\
  dt_check_compat_match
    (mkNode "n" [mkProp "compatible" (Some [x61; x00; x66; x6f]) 4] []) "foo" = true.
Proof. repeat split. Qed.

(** ** Size calculator *)

Lemma wrap32_wrap32_add a b : wrap32 (wrap32 a + b) = wrap32 (a + b).
Proof. unfold wrap32. rewrite Zplus_mod_idemp_l. reflexivity. Qed.

Lemma round_up4_bounds n : 0 <= n -> n <= round_up4 n < n + 4.
Proof. intros H. unfold round_up4. Z.div_mod_to_equations. lia. Qed.

Lemma size32_round_up4 n :
  0 <= n -> round_up4 n < 2 ^ 32 -> size32 n * 4 = round_up4 n.
Proof.
  intros H0 H. unfold round_up4 in *. apply size32_exact; [exact H0|].
  Z.div_mod_to_equations. lia.
Qed.

Lemma strlen_nonneg s : 0 <= strlen s.
Proof. unfold strlen. lia. Qed.

Lemma prop_struct_bytes_pos p : 0 <= prop_size p -> 12 <= prop_struct_bytes p.
Proof.
  intros H. unfold prop_struct_bytes. pose proof (round_up4_bounds _ H). lia.
Qed.

Lemma prop_strings_bytes_pos p : 1 <= prop_strings_bytes p.
Proof. unfold prop_strings_bytes. pose proof (strlen_nonneg (prop_name p)). lia. Qed.

Lemma size_is_uint32_spec p :
  size_is_uint32 p = true -> 0 <= prop_size p < 2 ^ 32.
Proof. unfold size_is_uint32. intros H. apply andb_true_iff in H. lia. Qed.

Lemma props_struct_bytes_nonneg ps :
  forallb size_is_uint32 ps = true -> 0 <= props_struct_bytes ps.
Proof.
  unfold props_struct_bytes. induction ps as [|p ps IH]; simpl; intros H; [lia|].
  apply andb_true_iff in H. destruct H as [Hp Hps].
  pose proof (prop_struct_bytes_pos p (proj1 (size_is_uint32_spec p Hp))).
  specialize (IH Hps). lia.
Qed.

Lemma props_strings_bytes_nonneg ps : 0 <= props_strings_bytes ps.
Proof.
  unfold props_strings_bytes. induction ps as [|p ps IH]; simpl; [lia|].
  pose proof (prop_strings_bytes_pos p). lia.
Qed.

Lemma node_bytes_nonneg n :
  sizes_are_uint32 n = true -> 8 <= node_struct_bytes n /\ 0 <= node_strings_bytes n.
Proof.
  induction n as [nm ps cs IH] using DeviceTreeNode_ind'. intros H.
  cbn [sizes_are_uint32 properties children] in H.
  apply andb_true_iff in H. destruct H as [Hps Hcs].
  cbn [node_struct_bytes node_strings_bytes name properties children].
  pose proof (props_struct_bytes_nonneg ps Hps).
  pose proof (props_strings_bytes_nonneg ps).
  pose proof (round_up4_bounds (strlen nm + 1) ltac:(pose proof (strlen_nonneg nm); lia)).
  pose proof (strlen_nonneg nm).
  assert (G : 0 <= sumZ (map node_struct_bytes cs) /\ 0 <= sumZ (map node_strings_bytes cs)).
  { clear -IH Hcs. induction IH as [|c cs Hc _ IHcs]; simpl; [lia|].
    simpl in Hcs. apply andb_true_iff in Hcs. destruct Hcs as [H1 H2].
    specialize (Hc H1). specialize (IHcs H2). lia. }
  lia.
Qed.

(** Removes the reductions modulo [2 ^ 32] that the bounds at hand make
    void, innermost first. *)
Ltac unwrap32 :=
  repeat match goal with
         | |- context [wrap32 ?z] => rewrite (wrap32_small z) by lia
         end.

Lemma dt_flat_prop_size_exact p s1 s2 :
  size_is_uint32 p = true -> 0 <= s1 -> 0 <= s2 ->
  s1 + prop_struct_bytes p < 2 ^ 32 -> s2 + prop_strings_bytes p < 2 ^ 32 ->
  dt_flat_prop_size p (s1, s2) = (s1 + prop_struct_bytes p, s2 + prop_strings_bytes p).
Proof.
  intros Hp H1 H2 B1 B2. apply size_is_uint32_spec in Hp.
  unfold dt_flat_prop_size, prop_struct_bytes, prop_strings_bytes in *.
  pose proof (round_up4_bounds _ (proj1 Hp)) as R.
  pose proof (strlen_nonneg (prop_name p)) as L.
  rewrite size32_round_up4 by lia.
  unwrap32. f_equal; lia.
Qed.

Lemma dt_flat_props_size_exact ps :
  forall s1 s2,
    forallb size_is_uint32 ps = true -> 0 <= s1 -> 0 <= s2 ->
    s1 + props_struct_bytes ps < 2 ^ 32 -> s2 + props_strings_bytes ps < 2 ^ 32 ->
    fold_left (fun sz prop => dt_flat_prop_size prop sz) ps (s1, s2)
    = (s1 + props_struct_bytes ps, s2 + props_strings_bytes ps).
Proof.
  unfold props_struct_bytes, props_strings_bytes.
  induction ps as [|p ps IH]; intros s1 s2 H H1 H2 B1 B2;
    cbn [fold_left map sumZ forallb] in *.
  - f_equal; lia.
  - apply andb_true_iff in H. destruct H as [Hp Hps].
    pose proof (prop_struct_bytes_pos p (proj1 (size_is_uint32_spec p Hp))).
    pose proof (prop_strings_bytes_pos p).
    pose proof (props_struct_bytes_nonneg ps Hps) as N1.
    pose proof (props_strings_bytes_nonneg ps) as N2.
    unfold props_struct_bytes, props_strings_bytes in N1, N2.
    rewrite dt_flat_prop_size_exact by (try assumption; lia).
    rewrite IH by (try assumption; lia). f_equal; lia.
Qed.

(** The measuring traversal adds up the exact sizes, as long as they fit
    the 32-bit counters. *)
Lemma dt_flat_node_size_exact n :
  forall s1 s2,
    sizes_are_uint32 n = true -> 0 <= s1 -> 0 <= s2 ->
    s1 + node_struct_bytes n < 2 ^ 32 -> s2 + node_strings_bytes n < 2 ^ 32 ->
    dt_flat_node_size n (s1, s2)
    = (s1 + node_struct_bytes n, s2 + node_strings_bytes n).
Proof.
  induction n as [nm ps cs IH] using DeviceTreeNode_ind'.
  intros s1 s2 H H1 H2 B1 B2.
  cbn [sizes_are_uint32 properties children] in H.
  apply andb_true_iff in H. destruct H as [Hps Hcs].
  cbn [node_struct_bytes node_strings_bytes name properties children] in *.
  cbn [dt_flat_node_size name properties children].
  pose proof (props_struct_bytes_nonneg ps Hps) as P1.
  pose proof (props_strings_bytes_nonneg ps) as P2.
  pose proof (strlen_nonneg nm) as L.
  pose proof (round_up4_bounds (strlen nm + 1) ltac:(lia)) as R.
  assert (G : 0 <= sumZ (map node_struct_bytes cs) /\ 0 <= sumZ (map node_strings_bytes cs)).
  { clear -Hcs. induction cs as [|c cs IHcs]; simpl; [lia|].
    simpl in Hcs. apply andb_true_iff in Hcs. destruct Hcs as [Hc Hcs].
    pose proof (node_bytes_nonneg c Hc). specialize (IHcs Hcs). lia. }
  rewrite size32_round_up4 by lia. unwrap32.
  rewrite dt_flat_props_size_exact by (try assumption; lia).
  assert (F : forall t1 t2,
             0 <= t1 -> 0 <= t2 ->
             t1 + sumZ (map node_struct_bytes cs) < 2 ^ 32 ->
             t2 + sumZ (map node_strings_bytes cs) < 2 ^ 32 ->
             fold_left (fun sz child => dt_flat_node_size child sz) cs (t1, t2)
             = (t1 + sumZ (map node_struct_bytes cs),
                t2 + sumZ (map node_strings_bytes cs))).
  { clear -IH Hcs. induction IH as [|c cs Hc _ IHcs]; intros t1 t2 T1 T2 C1 C2;
      cbn [fold_left map sumZ forallb] in *.
    - f_equal; lia.
    - apply andb_true_iff in Hcs. destruct Hcs as [Hc1 Hcs].
      pose proof (node_bytes_nonneg c Hc1).
      assert (G : 0 <= sumZ (map node_struct_bytes cs)
                  /\ 0 <= sumZ (map node_strings_bytes cs)).
      { clear -Hcs. induction cs as [|d cs IHcs]; simpl; [lia|].
        simpl in Hcs. apply andb_true_iff in Hcs. destruct Hcs as [Hd Hcs].
        pose proof (node_bytes_nonneg d Hd). specialize (IHcs Hcs). lia. }
      rewrite Hc by (try assumption; lia).
      rewrite IHcs by (try assumption; lia). f_equal; lia. }
  rewrite F by lia. unwrap32. f_equal; lia.
Qed.
(** ** Memory *)

Lemma store_bytes_outside m a l x :
  x < a \/ a + Z.of_nat (List.length l) <= x -> store_bytes m a l x = m x.
Proof.
  intros H. unfold store_bytes.
  destruct (Z.leb_spec a x); destruct (Z.ltb_spec x (a + Z.of_nat (List.length l)));
    simpl; try reflexivity; lia.
Qed.

Lemma store_bytes_inside m a l i :
  (i < List.length l)%nat -> store_bytes m a l (a + Z.of_nat i) = nth i l x00.
Proof.
  intros H. unfold store_bytes.
  destruct (Z.leb_spec a (a + Z.of_nat i)); [|lia].
  destruct (Z.ltb_spec (a + Z.of_nat i) (a + Z.of_nat (List.length l))); [|lia].
  simpl. f_equal. lia.
Qed.

Lemma load_bytes_ext m m' a n :
  (forall x, a <= x < a + Z.of_nat n -> m' x = m x) ->
  load_bytes m' a n = load_bytes m a n.
Proof.
  intros H. unfold load_bytes. apply map_ext_in. intros i Hi.
  apply in_seq in Hi. apply H. lia.
Qed.

Lemma load_bytes_length m a n : List.length (load_bytes m a n) = n.
Proof. unfold load_bytes. rewrite length_map, length_seq. reflexivity. Qed.

Lemma nth_load_bytes m a n i :
  (i < n)%nat -> nth i (load_bytes m a n) x00 = m (a + Z.of_nat i).
Proof.
  intros H. unfold load_bytes.
  set (f := fun j => m (a + Z.of_nat j)).
  rewrite (nth_indep _ x00 (f O)) by (rewrite length_map, length_seq; exact H).
  rewrite map_nth, seq_nth by exact H. reflexivity.
Qed.

Lemma Z_of_byte_of_Z z : Z_of_byte (byte_of_Z z) = z mod 256.
Proof.
  unfold Z_of_byte, byte_of_Z.
  pose proof (Z.mod_pos_bound z 256 ltac:(lia)) as B.
  destruct (Byte.of_N (Z.to_N (z mod 256))) as [b|] eqn:E.
  - apply Byte.to_of_N in E. rewrite E. lia.
  - apply Byte.of_N_None_iff in E. lia.
Qed.

Lemma be32_of_htobe32 v : be32_of_bytes (htobe32 v) = wrap32 v.
Proof.
  unfold be32_of_bytes, htobe32, wrap32. cbn [nth].
  rewrite !Z_of_byte_of_Z, !Z.shiftr_div_pow2 by lia.
  change (2 ^ 32) with 4294967296. change (2 ^ 24) with 16777216.
  change (2 ^ 16) with 65536. change (2 ^ 8) with 256.
  Z.div_mod_to_equations. lia.
Qed.

Lemma htobe32_length v : List.length (htobe32 v) = 4%nat.
Proof. reflexivity. Qed.

Lemma htobe64_length v : List.length (htobe64 v) = 8%nat.
Proof. reflexivity. Qed.

Lemma be32toh_at_ext m m' a :
  (forall x, a <= x < a + 4 -> m' x = m x) -> be32toh_at m' a = be32toh_at m a.
Proof.
  intros H. unfold be32toh_at. rewrite (load_bytes_ext m m' a 4); [reflexivity|].
  intros x Hx. apply H. lia.
Qed.

Lemma load_bytes_store m a l :
  load_bytes (store_bytes m a l) a (List.length l) = l.
Proof.
  apply (nth_ext _ _ x00 x00); [apply load_bytes_length|].
  intros i Hi. rewrite load_bytes_length in Hi.
  rewrite nth_load_bytes by exact Hi. apply store_bytes_inside. exact Hi.
Qed.

Lemma be32toh_at_store m a v :
  be32toh_at (store_bytes m a (htobe32 v)) a = wrap32 v.
Proof.
  unfold be32toh_at.
  pose proof (load_bytes_store m a (htobe32 v)) as H.
  rewrite htobe32_length in H. rewrite H. apply be32_of_htobe32.
Qed.

(** ** The emitting traversal: cursors and frame *)

Lemma c_str_length s : Z.of_nat (List.length (c_str s ++ [x00])) = strlen s + 1.
Proof. unfold strlen. rewrite length_app. simpl. lia. Qed.

Lemma dt_flatten_prop_cursors p sb m ds dstr :
  size_is_uint32 p = true -> round_up4 (prop_size p) < 2 ^ 32 ->
  let r := dt_flatten_prop p sb (m, ds, dstr) in
  snd (fst r) = ds + prop_struct_bytes p /\
  snd r = dstr + prop_strings_bytes p /\
  frame m (fst (fst r)) ds (prop_struct_bytes p) dstr (prop_strings_bytes p).
Proof.
  intros Hp Hr r. subst r. apply size_is_uint32_spec in Hp.
  unfold dt_flatten_prop, prop_struct_bytes, prop_strings_bytes. cbn [fst snd].
  rewrite size32_round_up4 by lia.
  pose proof (round_up4_bounds _ (proj1 Hp)) as R.
  split; [lia|]. split; [lia|].
  intros x H1 H2.
  assert (Hl : Z.of_nat (List.length (firstn (Z.to_nat (prop_size p))
                                        (data_bytes (prop_data p)))) <= prop_size p).
  { rewrite length_firstn. lia. }
  rewrite store_bytes_outside by lia.
  rewrite store_bytes_outside by (rewrite c_str_length; lia).
  rewrite !store_bytes_outside by (rewrite htobe32_length; lia).
  reflexivity.
Qed.
Lemma frame_refl m ds dsl dstr dstrl : frame m m ds dsl dstr dstrl.
Proof. intros x _ _. reflexivity. Qed.

Lemma frame_trans m m1 m2 ds dsl dstr dstrl :
  frame m m1 ds dsl dstr dstrl -> frame m1 m2 ds dsl dstr dstrl ->
  frame m m2 ds dsl dstr dstrl.
Proof. intros H1 H2 x A B. rewrite (H2 x A B). apply (H1 x A B). Qed.

Lemma frame_sub m m' ds dsl dstr dstrl ds' dsl' dstr' dstrl' :
  frame m m' ds' dsl' dstr' dstrl' ->
  ds <= ds' -> ds' + dsl' <= ds + dsl ->
  dstr <= dstr' -> dstr' + dstrl' <= dstr + dstrl ->
  frame m m' ds dsl dstr dstrl.
Proof. intros H A B C D x E F. apply H; lia. Qed.

Lemma frame_store_struct m a l ds dsl dstr dstrl :
  ds <= a -> a + Z.of_nat (List.length l) <= ds + dsl ->
  frame m (store_bytes m a l) ds dsl dstr dstrl.
Proof. intros A B x E F. apply store_bytes_outside. lia. Qed.

Lemma dt_flatten_props_cursors ps :
  forall sb m ds dstr,
    forallb size_is_uint32 ps = true -> props_struct_bytes ps < 2 ^ 32 ->
    let r := fold_left (fun st prop => dt_flatten_prop prop sb st) ps (m, ds, dstr) in
    snd (fst r) = ds + props_struct_bytes ps /\
    snd r = dstr + props_strings_bytes ps /\
    frame m (fst (fst r)) ds (props_struct_bytes ps) dstr (props_strings_bytes ps).
Proof.
  unfold props_struct_bytes, props_strings_bytes.
  induction ps as [|p ps IH]; intros sb m ds dstr H B;
    cbn [fold_left map sumZ forallb] in *.
  - cbn [fst snd]. split; [lia|]. split; [lia|]. apply frame_refl.
  - apply andb_true_iff in H. destruct H as [Hp Hps].
    pose proof (prop_struct_bytes_pos p (proj1 (size_is_uint32_spec p Hp))) as P1.
    pose proof (prop_strings_bytes_pos p) as P2.
    pose proof (props_struct_bytes_nonneg ps Hps) as N1.
    pose proof (props_strings_bytes_nonneg ps) as N2.
    unfold props_struct_bytes, props_strings_bytes in N1, N2.
    destruct (dt_flatten_prop_cursors p sb m ds dstr Hp) as (C1 & C2 & F1).
    { unfold prop_struct_bytes in *. lia. }
    destruct (dt_flatten_prop p sb (m, ds, dstr)) as [[m1 ds1] dstr1].
    cbn [fst snd] in C1, C2, F1. subst ds1 dstr1.
    destruct (IH sb m1 (ds + prop_struct_bytes p) (dstr + prop_strings_bytes p) Hps
                ltac:(lia)) as (D1 & D2 & F2).
    split; [lia|]. split; [lia|].
    eapply frame_trans.
    + eapply frame_sub; [exact F1| lia..].
    + eapply frame_sub; [exact F2| lia..].
Qed.

Lemma sizes_children_nonneg cs :
  forallb sizes_are_uint32 cs = true ->
  0 <= sumZ (map node_struct_bytes cs) /\ 0 <= sumZ (map node_strings_bytes cs).
Proof.
  induction cs as [|c cs IH]; cbn [forallb map sumZ]; intros H; [lia|].
  apply andb_true_iff in H. destruct H as [Hc Hcs].
  pose proof (node_bytes_nonneg c Hc). specialize (IH Hcs). lia.
Qed.

(** The emitting traversal moves the two cursors by the exact sizes and
    writes nowhere but in the two regions they span. *)
Lemma dt_flatten_node_cursors n :
  forall sb m ds dstr,
    sizes_are_uint32 n = true -> node_struct_bytes n < 2 ^ 32 ->
    let r := dt_flatten_node n sb (m, ds, dstr) in
    snd (fst r) = ds + node_struct_bytes n /\
    snd r = dstr + node_strings_bytes n /\
    frame m (fst (fst r)) ds (node_struct_bytes n) dstr (node_strings_bytes n).
Proof.
  induction n as [nm ps cs IH] using DeviceTreeNode_ind'.
  intros sb m ds dstr H B.
  cbn [sizes_are_uint32 properties children] in H.
  apply andb_true_iff in H. destruct H as [Hps Hcs].
  cbn [node_struct_bytes node_strings_bytes name properties children] in *.
  cbn [dt_flatten_node name properties children].
  pose proof (props_struct_bytes_nonneg ps Hps) as P1.
  pose proof (props_strings_bytes_nonneg ps) as P2.
  pose proof (strlen_nonneg nm) as L.
  pose proof (round_up4_bounds (strlen nm + 1) ltac:(lia)) as R.
  pose proof (sizes_children_nonneg cs Hcs) as [G1 G2].
  rewrite size32_round_up4 by lia.
  set (m0 := store_bytes (store_bytes m ds (htobe32 TokenBeginNode)) (ds + 4)
               (c_str nm ++ [x00])).
  assert (F0 : frame m m0 ds (4 + round_up4 (strlen nm + 1)) dstr 0).
  { subst m0. apply frame_trans with (m1 := store_bytes m ds (htobe32 TokenBeginNode)).
    - apply frame_store_struct; rewrite ?htobe32_length; lia.
    - apply frame_store_struct; rewrite ?c_str_length; lia. }
  clearbody m0.
  destruct (dt_flatten_props_cursors ps sb m0 (ds + 4 + round_up4 (strlen nm + 1)) dstr
              Hps ltac:(lia)) as (C1 & C2 & F1).
  destruct (fold_left _ ps _) as [[m1 ds1] dstr1].
  cbn [fst snd] in C1, C2, F1. subst ds1 dstr1.
  assert (F : forall m1 d1 s1,
             sumZ (map node_struct_bytes cs) < 2 ^ 32 ->
             let r := fold_left (fun st child => dt_flatten_node child sb st) cs
                        (m1, d1, s1) in
             snd (fst r) = d1 + sumZ (map node_struct_bytes cs) /\
             snd r = s1 + sumZ (map node_strings_bytes cs) /\
             frame m1 (fst (fst r)) d1 (sumZ (map node_struct_bytes cs))
               s1 (sumZ (map node_strings_bytes cs))).
  { clear -IH Hcs. induction IH as [|c cs Hc _ IHcs]; intros m1 d1 s1 Bc;
      cbn [fold_left map sumZ forallb] in *.
    - cbn [fst snd]. split; [lia|]. split; [lia|]. apply frame_refl.
    - apply andb_true_iff in Hcs. destruct Hcs as [Hc1 Hcs].
      pose proof (node_bytes_nonneg c Hc1) as [N1 N2].
      pose proof (sizes_children_nonneg cs Hcs) as [G1 G2].
      destruct (Hc sb m1 d1 s1 Hc1 ltac:(lia)) as (C1 & C2 & F1).
      destruct (dt_flatten_node c sb (m1, d1, s1)) as [[m2 d2] s2].
      cbn [fst snd] in C1, C2, F1. subst d2 s2.
      destruct (IHcs Hcs m2 (d1 + node_struct_bytes c) (s1 + node_strings_bytes c)
                  ltac:(lia)) as (D1 & D2 & F2).
      split; [lia|]. split; [lia|].
      eapply frame_trans.
      + eapply frame_sub; [exact F1| lia..].
      + eapply frame_sub; [exact F2| lia..]. }
  destruct (F m1 (ds + 4 + round_up4 (strlen nm + 1) + props_struct_bytes ps)
              (dstr + props_strings_bytes ps) ltac:(lia)) as (D1 & D2 & F2).
  destruct (fold_left _ cs _) as [[m2 ds2] dstr2].
  cbn [fst snd] in D1, D2, F2 |- *. subst ds2 dstr2.
  split; [lia|]. split; [lia|].
  eapply frame_trans; [eapply frame_sub; [exact F0| lia..]|].
  eapply frame_trans; [eapply frame_sub; [exact F1| lia..]|].
  eapply frame_trans; [eapply frame_sub; [exact F2| lia..]|].
  apply frame_store_struct; rewrite ?htobe32_length; lia.
Qed.

(** ** Size exactness *)

Lemma same_outside_refl m lo hi : same_outside m m lo hi.
Proof. intros x _. reflexivity. Qed.

Lemma same_outside_trans m m1 m2 lo hi :
  same_outside m m1 lo hi -> same_outside m1 m2 lo hi -> same_outside m m2 lo hi.
Proof. intros H1 H2 x A. rewrite (H2 x A). apply (H1 x A). Qed.

Lemma same_outside_store m a l lo hi :
  lo <= a -> a + Z.of_nat (List.length l) <= hi ->
  same_outside m (store_bytes m a l) lo hi.
Proof. intros A B x H. apply store_bytes_outside. lia. Qed.

Lemma same_outside_sub m m' lo hi lo' hi' :
  same_outside m m' lo' hi' -> lo <= lo' -> hi' <= hi -> same_outside m m' lo hi.
Proof. intros H A B x C. apply H. lia. Qed.

Lemma frame_same_outside m m' ds dsl dstr dstrl lo hi :
  frame m m' ds dsl dstr dstrl ->
  lo <= ds -> ds + dsl <= hi -> lo <= dstr -> dstr + dstrl <= hi ->
  same_outside m m' lo hi.
Proof. intros H A B C D x E. apply H; lia. Qed.

Lemma dt_flat_size_map_fold (R : list DeviceTreeReserveMapEntry) :
  forall s,
    0 <= s -> s + 16 * Z.of_nat (List.length R) < 2 ^ 32 ->
    fold_left (fun size _ => wrap32 (size + 8 * 2)) R s
    = s + 16 * Z.of_nat (List.length R).
Proof.
  induction R as [|e R IH]; intros s H0 H; cbn [fold_left List.length] in *; [lia|].
  rewrite wrap32_small by lia. rewrite IH by lia. lia.
Qed.

Lemma dt_flatten_map_fold (R : list DeviceTreeReserveMapEntry) :
  forall m d,
    let r := fold_left (fun st entry => dt_flatten_map_entry entry st) R (m, d) in
    snd r = d + 16 * Z.of_nat (List.length R) /\
    same_outside m (fst r) d (d + 16 * Z.of_nat (List.length R)).
Proof.
  induction R as [|e R IH]; intros m d; cbn [fold_left List.length].
  - cbn [fst snd]. split; [lia | apply same_outside_refl].
  - cbn [dt_flatten_map_entry].
    destruct (IH (store_bytes (store_bytes m d (htobe64 (entry_start e))) (d + 8)
                    (htobe64 (entry_size e))) (d + 8 * 2)) as [C F].
    split; [lia|].
    eapply same_outside_trans; [|eapply same_outside_sub; [exact F| lia..]].
    apply same_outside_trans with (m1 := store_bytes m d (htobe64 (entry_start e)));
      apply same_outside_store; rewrite ?htobe64_length; lia.
Qed.

Lemma dt_flat_size_exact tree r :
  fits tree r (2 ^ 32) -> dt_flat_size tree = Some (flat_bytes tree r).
Proof.
  intros (Hr & Hh & Hs & Hb). unfold dt_flat_size, flat_bytes in *. rewrite Hr.
  unfold sizeof_FdtHeader in Hh.
  pose proof (node_bytes_nonneg r Hs) as [N1 N2].
  rewrite (wrap32_small (header_size tree)) by lia.
  rewrite dt_flat_size_map_fold by lia.
  rewrite dt_flat_node_size_exact by (try assumption; lia).
  unwrap32. f_equal. lia.
Qed.

(** [dt_flatten] writes only at the offsets below the exact byte count,
    which it leaves in [totalsize]. *)
Lemma dt_flatten_bounds (tree : DeviceTree) (r : DeviceTreeNode) (m : memory) :
  fits tree r (2 ^ 32) ->
  exists m',
    dt_flatten tree m = Some m' /\
    same_outside m m' 0 (flat_bytes tree r) /\
    be32toh_at m' hdr_totalsize = flat_bytes tree r.
Proof.
  intros Hfit.
  destruct Hfit as (Hr & Hh & Hs & Hb). unfold flat_bytes in *.
  unfold sizeof_FdtHeader in Hh.
  pose proof (node_bytes_nonneg r Hs) as [N1 N2].
  assert (Esz : dt_flat_node_size r (0, 0) = (node_struct_bytes r, node_strings_bytes r)).
  { rewrite dt_flat_node_size_exact by (try assumption; lia). f_equal; lia. }
  unfold dt_flatten. rewrite Hr, Esz.
  rewrite (wrap32_small (header_size tree)) by lia.
  set (m0 := store_bytes m 0 _).
  assert (F0 : same_outside m m0 0 (header_size tree)).
  { subst m0. apply same_outside_store; [lia|]. rewrite load_bytes_length. lia. }
  clearbody m0.
  destruct (dt_flatten_map_fold (reserve_map tree) m0 (header_size tree)) as [C1 F1].
  destruct (fold_left _ (reserve_map tree) _) as [m1 d1].
  cbn [fst snd] in C1, F1. subst d1.
  set (n := Z.of_nat (List.length (reserve_map tree))) in *.
  assert (Hn : 0 <= n) by (subst n; lia).
  set (S0 := header_size tree + 16 * n + 8 * 2).
  set (T0 := S0 + node_struct_bytes r + 4).
  set (mh := store_bytes _ hdr_strings_size _).
  assert (Fh : same_outside m1 mh 0 (T0 + node_strings_bytes r)).
  { subst mh. unfold hdr_strings_size, hdr_strings_offset, hdr_structure_size,
      hdr_structure_offset.
    repeat (eapply same_outside_trans;
            [|apply same_outside_store; rewrite ?htobe32_length;
              rewrite ?length_app, ?htobe64_length; subst T0 S0; lia]).
    apply same_outside_refl. }
  clearbody mh.
  destruct (dt_flatten_node_cursors r T0 mh S0 T0 Hs ltac:(lia)) as (_ & _ & F2).
  destruct (dt_flatten_node r T0 (mh, S0, T0)) as [[m2 ds2] dstr2].
  cbn [fst] in F2.
  eexists. split; [reflexivity|]. split.
  - replace (header_size tree + 16 * (n + 1) + node_struct_bytes r + 4
             + node_strings_bytes r) with (T0 + node_strings_bytes r)
      by (subst T0 S0; lia).
    eapply same_outside_trans;
      [|apply same_outside_store; unfold hdr_totalsize; rewrite ?htobe32_length;
        subst T0 S0; lia].
    eapply same_outside_trans;
      [|eapply frame_same_outside; [exact F2| subst T0 S0; lia..]].
    eapply same_outside_trans; [|exact Fh].
    eapply same_outside_trans; [eapply same_outside_sub; [exact F0| subst T0 S0; lia..]|].
    eapply same_outside_sub; [exact F1| subst T0 S0; lia..].
  - rewrite be32toh_at_store. rewrite wrap32_small by (subst T0 S0; lia).
    subst T0 S0. lia.
Qed.

(** ** Images in memory *)

Lemma agrees_nil m a : agrees m a [].
Proof. intros [|i] b H; discriminate H. Qed.

Lemma agrees_app m a l1 l2 :
  agrees m a (l1 ++ l2) <->
  agrees m a l1 /\ agrees m (a + Z.of_nat (List.length l1)) l2.
Proof.
  unfold agrees. split.
  - intros H. split.
    + intros i b Hi. apply H. rewrite nth_error_app1; [exact Hi|].
      apply nth_error_Some. rewrite Hi. discriminate.
    + intros i b Hi.
      replace (a + Z.of_nat (List.length l1) + Z.of_nat i)
        with (a + Z.of_nat (List.length l1 + i)) by lia.
      apply H. rewrite nth_error_app2 by lia.
      replace (List.length l1 + i - List.length l1)%nat with i by lia. exact Hi.
  - intros [H1 H2] i b Hi.
    destruct (Nat.lt_ge_cases i (List.length l1)) as [Hlt|Hge].
    + apply H1. rewrite nth_error_app1 in Hi by exact Hlt. exact Hi.
    + rewrite nth_error_app2 in Hi by exact Hge.
      replace (a + Z.of_nat i)
        with (a + Z.of_nat (List.length l1) + Z.of_nat (i - List.length l1)) by lia.
      apply H2. exact Hi.
Qed.

Lemma agrees_padding m a n : agrees m a (padding n).
Proof.
  intros i b H. unfold padding in H. apply nth_error_In in H.
  apply repeat_spec in H. discriminate H.
Qed.

Lemma agrees_ext m m' a l :
  agrees m a l ->
  (forall x, a <= x < a + Z.of_nat (List.length l) -> m' x = m x) ->
  agrees m' a l.
Proof.
  intros H E i b Hi. rewrite E; [apply H; exact Hi|].
  assert (i < List.length l)%nat by (apply nth_error_Some; rewrite Hi; discriminate).
  lia.
Qed.

Lemma written_length l : List.length (written l) = List.length l.
Proof. apply length_map. Qed.

Lemma padding_length n : 0 <= n -> Z.of_nat (List.length (padding n)) = n.
Proof. intros H. unfold padding. rewrite repeat_length. lia. Qed.

Lemma agrees_store m a l : agrees (store_bytes m a l) a (written l).
Proof.
  intros i b Hi. unfold written in Hi. rewrite nth_error_map in Hi.
  destruct (nth_error l i) as [c|] eqn:E; [|discriminate]. inversion Hi; subst.
  assert (Hl : (i < List.length l)%nat) by (apply nth_error_Some; rewrite E; discriminate).
  rewrite store_bytes_inside by exact Hl. apply nth_error_nth. exact E.
Qed.

Lemma agrees_store_other m a l a' l' :
  agrees m a l ->
  a + Z.of_nat (List.length l) <= a' \/ a' + Z.of_nat (List.length l') <= a ->
  agrees (store_bytes m a' l') a l.
Proof.
  intros H D. apply (agrees_ext m); [exact H|].
  intros x Hx. apply store_bytes_outside. lia.
Qed.

Lemma agrees_written m a l :
  agrees m a (written l) -> load_bytes m a (List.length l) = l.
Proof.
  intros H. apply (nth_ext _ _ x00 x00); [apply load_bytes_length|].
  intros i Hi. rewrite load_bytes_length in Hi.
  rewrite nth_load_bytes by exact Hi. apply H.
  unfold written. rewrite nth_error_map.
  rewrite (nth_error_nth' l x00 Hi). reflexivity.
Qed.

Lemma agrees_be32 m a v rest :
  agrees m a (written (htobe32 v) ++ rest) -> be32toh_at m a = wrap32 v.
Proof.
  intros H. apply agrees_app in H. destruct H as [H _].
  apply agrees_written in H. rewrite htobe32_length in H.
  unfold be32toh_at. rewrite H. apply be32_of_htobe32.
Qed.

Lemma agrees_be64 m a v rest :
  0 <= v < 2 ^ 64 ->
  agrees m a (written (htobe64 v) ++ rest) -> be64toh_at m a = v.
Proof.
  intros Hv H. unfold htobe64, written in H. rewrite map_app, <- app_assoc in H.
  pose proof (agrees_be32 _ _ _ _ H) as H1.
  apply agrees_app in H. destruct H as [_ H].
  rewrite length_map, htobe32_length in H. change (Z.of_nat 4) with 4 in H.
  pose proof (agrees_be32 _ _ _ _ H) as H2.
  unfold be64toh_at. rewrite H1, H2. unfold wrap32.
  rewrite Z.shiftr_div_pow2 by lia.
  change (2 ^ 64) with (2 ^ 32 * 2 ^ 32) in Hv.
  rewrite (Z.mod_small (v / 2 ^ 32)).
  - pose proof (Z.div_mod v (2 ^ 32) ltac:(lia)). lia.
  - split; [apply Z.div_pos; lia|]. apply Z.div_lt_upper_bound; lia.
Qed.
(** ** Well-formed trees and the length of their images *)

Lemma nul_freeb_spec s : nul_freeb s = true -> nul_free s.
Proof.
  unfold nul_freeb, nul_free. intros H F.
  apply negb_true_iff in H.
  assert (E : existsb (Byte.eqb x00) (c_str s) = true).
  { apply existsb_exists. exists x00. split; [exact F | apply byte_eqb_refl]. }
  rewrite E in H. discriminate H.
Qed.

Lemma wf_prop_spec p :
  wf_prop p = true ->
  size_is_uint32 p = true /\
  List.length (prop_value p) = Z.to_nat (prop_size p) /\
  nul_free (prop_name p).
Proof.
  unfold wf_prop. intros H.
  apply andb_true_iff in H. destruct H as [H Hn].
  apply andb_true_iff in H. destruct H as [Hs Hl].
  split; [exact Hs|]. split; [|apply nul_freeb_spec; exact Hn].
  apply Nat.leb_le in Hl. unfold prop_value. rewrite length_firstn. lia.
Qed.

Lemma wf_props_sizes ps :
  forallb wf_prop ps = true -> forallb size_is_uint32 ps = true.
Proof.
  induction ps as [|p ps IH]; cbn [forallb]; intros H; [reflexivity|].
  apply andb_true_iff in H. destruct H as [Hp Hps].
  rewrite (proj1 (wf_prop_spec p Hp)), (IH Hps). reflexivity.
Qed.

Lemma wf_node_sizes n : wf_node n = true -> sizes_are_uint32 n = true.
Proof.
  induction n as [nm ps cs IH] using DeviceTreeNode_ind'.
  cbn [wf_node sizes_are_uint32 name properties children]. intros H.
  apply andb_true_iff in H. destruct H as [H Hcs].
  apply andb_true_iff in H. destruct H as [_ Hps].
  rewrite (wf_props_sizes ps Hps). cbn [andb].
  induction IH as [|c cs Hc _ IHcs]; cbn [forallb] in *; [reflexivity|].
  apply andb_true_iff in Hcs. destruct Hcs as [H1 H2].
  rewrite (Hc H1), (IHcs H2). reflexivity.
Qed.

Lemma prop_image_length p noff :
  wf_prop p = true ->
  Z.of_nat (List.length (prop_image p noff)) = prop_struct_bytes p.
Proof.
  intros H. destruct (wf_prop_spec p H) as (Hs & Hl & _).
  apply size_is_uint32_spec in Hs.
  pose proof (round_up4_bounds _ (proj1 Hs)) as R.
  unfold prop_image, prop_struct_bytes.
  rewrite !length_app, !written_length, !htobe32_length, Hl.
  rewrite !Nat2Z.inj_add, padding_length by lia. lia.
Qed.

Lemma props_image_length ps :
  forall noff,
    forallb wf_prop ps = true ->
    Z.of_nat (List.length (props_image ps noff)) = props_struct_bytes ps.
Proof.
  unfold props_struct_bytes.
  induction ps as [|p ps IH]; intros noff H; cbn [props_image map sumZ forallb] in *;
    [reflexivity|].
  apply andb_true_iff in H. destruct H as [Hp Hps].
  rewrite length_app, Nat2Z.inj_add, (prop_image_length p noff Hp), (IH _ Hps).
  reflexivity.
Qed.

Lemma name_image_length nm :
  Z.of_nat (List.length (name_image nm)) = round_up4 (strlen nm + 1).
Proof.
  pose proof (strlen_nonneg nm) as L.
  pose proof (round_up4_bounds (strlen nm + 1) ltac:(lia)) as R.
  unfold name_image. rewrite length_app, written_length, Nat2Z.inj_add.
  rewrite c_str_length, padding_length by lia. lia.
Qed.

Lemma node_image_length n :
  forall noff,
    wf_node n = true ->
    Z.of_nat (List.length (node_image n noff)) = node_struct_bytes n.
Proof.
  induction n as [nm ps cs IH] using DeviceTreeNode_ind'. intros noff H.
  cbn [wf_node name properties children] in H.
  apply andb_true_iff in H. destruct H as [H Hcs].
  apply andb_true_iff in H. destruct H as [_ Hps].
  cbn [node_image node_struct_bytes name properties children].
  rewrite !length_app, !written_length, !htobe32_length, !Nat2Z.inj_add.
  rewrite name_image_length, (props_image_length ps noff Hps).
  assert (G : forall k, Z.of_nat (List.length (children_image node_image cs k))
                        = sumZ (map node_struct_bytes cs)).
  { clear -IH Hcs. induction IH as [|c cs Hc _ IHcs]; intros k;
      cbn [children_image map sumZ forallb] in *; [reflexivity|].
    apply andb_true_iff in Hcs. destruct Hcs as [H1 H2].
    rewrite length_app, Nat2Z.inj_add, (Hc k H1), (IHcs H2). reflexivity. }
  rewrite G. lia.
Qed.

Lemma props_strings_length ps :
  Z.of_nat (List.length (props_strings ps)) = props_strings_bytes ps.
Proof.
  unfold props_strings, props_strings_bytes.
  induction ps as [|p ps IH]; cbn [flat_map map sumZ]; [reflexivity|].
  rewrite length_app, Nat2Z.inj_add, IH, c_str_length. reflexivity.
Qed.

Lemma node_strings_length n :
  Z.of_nat (List.length (node_strings n)) = node_strings_bytes n.
Proof.
  induction n as [nm ps cs IH] using DeviceTreeNode_ind'.
  cbn [node_strings node_strings_bytes properties children].
  rewrite length_app, Nat2Z.inj_add, props_strings_length. f_equal.
  induction IH as [|c cs Hc _ IHcs]; cbn [flat_map map sumZ]; [reflexivity|].
  rewrite length_app, Nat2Z.inj_add, Hc, IHcs. reflexivity.
Qed.
(** ** The flattener writes the image *)

Lemma agrees_frame m m' a l ds dsl dstr dstrl :
  agrees m a l -> frame m m' ds dsl dstr dstrl ->
  a + Z.of_nat (List.length l) <= ds \/ ds + dsl <= a ->
  a + Z.of_nat (List.length l) <= dstr \/ dstr + dstrl <= a ->
  agrees m' a l.
Proof.
  intros H F A B. apply (agrees_ext m); [exact H|].
  intros x Hx. apply F; lia.
Qed.

Lemma dt_flatten_children_cursors cs :
  forall sb m ds dstr,
    forallb sizes_are_uint32 cs = true -> sumZ (map node_struct_bytes cs) < 2 ^ 32 ->
    let r := fold_left (fun st child => dt_flatten_node child sb st) cs (m, ds, dstr) in
    snd (fst r) = ds + sumZ (map node_struct_bytes cs) /\
    snd r = dstr + sumZ (map node_strings_bytes cs) /\
    frame m (fst (fst r)) ds (sumZ (map node_struct_bytes cs))
      dstr (sumZ (map node_strings_bytes cs)).
Proof.
  induction cs as [|c cs IH]; intros sb m ds dstr H B;
    cbn [fold_left map sumZ forallb] in *.
  - cbn [fst snd]. split; [lia|]. split; [lia|]. apply frame_refl.
  - apply andb_true_iff in H. destruct H as [Hc Hcs].
    pose proof (node_bytes_nonneg c Hc) as [N1 N2].
    pose proof (sizes_children_nonneg cs Hcs) as [G1 G2].
    destruct (dt_flatten_node_cursors c sb m ds dstr Hc ltac:(lia)) as (C1 & C2 & F1).
    destruct (dt_flatten_node c sb (m, ds, dstr)) as [[m2 d2] s2].
    cbn [fst snd] in C1, C2, F1. subst d2 s2.
    destruct (IH sb m2 (ds + node_struct_bytes c) (dstr + node_strings_bytes c) Hcs
                ltac:(lia)) as (D1 & D2 & F2).
    split; [lia|]. split; [lia|].
    eapply frame_trans.
    + eapply frame_sub; [exact F1| lia..].
    + eapply frame_sub; [exact F2| lia..].
Qed.

Lemma dt_flatten_prop_image p sb m ds dstr :
  wf_prop p = true -> round_up4 (prop_size p) < 2 ^ 32 ->
  0 <= dstr - sb < 2 ^ 32 -> ds + prop_struct_bytes p <= dstr ->
  let m' := fst (fst (dt_flatten_prop p sb (m, ds, dstr))) in
  agrees m' ds (prop_image p (dstr - sb)) /\
  agrees m' dstr (written (c_str (prop_name p) ++ [x00])).
Proof.
  intros H Hr Hoff Hd. destruct (wf_prop_spec p H) as (Hs & Hl & _).
  apply size_is_uint32_spec in Hs.
  pose proof (round_up4_bounds _ (proj1 Hs)) as R.
  unfold prop_struct_bytes in Hd.
  unfold dt_flatten_prop, prop_image. cbn [fst snd].
  rewrite (wrap32_small (dstr - sb)) by lia.
  change (firstn (Z.to_nat (prop_size p)) (data_bytes (prop_data p))) with (prop_value p).
  assert (Hv : Z.of_nat (List.length (prop_value p)) = prop_size p) by lia.
  split.
  - rewrite !agrees_app, !written_length, !htobe32_length.
    change (Z.of_nat 4) with 4.
    repeat split;
      repeat first
        [ apply agrees_padding
        | apply agrees_store
        | apply agrees_store_other;
          [| rewrite ?written_length, ?htobe32_length, ?c_str_length, ?Hv; lia ] ].
  - apply agrees_store_other;
      [apply agrees_store
      | rewrite ?written_length, ?htobe32_length, ?c_str_length, ?Hv; lia].
Qed.

Lemma dt_flatten_props_image ps :
  forall sb m ds dstr,
    forallb wf_prop ps = true -> props_struct_bytes ps < 2 ^ 32 ->
    0 <= dstr - sb -> dstr - sb + props_strings_bytes ps <= 2 ^ 32 ->
    ds + props_struct_bytes ps <= dstr ->
    let m' := fst (fst (fold_left (fun st prop => dt_flatten_prop prop sb st) ps
                          (m, ds, dstr))) in
    agrees m' ds (props_image ps (dstr - sb)) /\
    agrees m' dstr (written (props_strings ps)).
Proof.
  induction ps as [|p ps IH]; intros sb m ds dstr H B Hoff Hstr Hd.
  - cbn. split; apply agrees_nil.
  - cbn [forallb] in H. apply andb_true_iff in H. destruct H as [Hp Hps].
    pose proof (wf_props_sizes ps Hps) as Sps.
    destruct (wf_prop_spec p Hp) as (Sp & _ & _).
    unfold props_struct_bytes, props_strings_bytes in *.
    cbn [map sumZ] in B, Hstr, Hd.
    pose proof (prop_struct_bytes_pos p (proj1 (size_is_uint32_spec p Sp))) as P1.
    pose proof (prop_strings_bytes_pos p) as P2.
    pose proof (props_struct_bytes_nonneg ps Sps) as N1.
    pose proof (props_strings_bytes_nonneg ps) as N2.
    unfold props_struct_bytes, props_strings_bytes in N1, N2.
    assert (Hr : round_up4 (prop_size p) < 2 ^ 32) by (unfold prop_struct_bytes in *; lia).
    cbn [fold_left props_image props_strings flat_map].
    destruct (dt_flatten_prop_image p sb m ds dstr Hp Hr ltac:(lia) ltac:(lia)) as [A1 A2].
    destruct (dt_flatten_prop_cursors p sb m ds dstr Sp Hr) as (C1 & C2 & _).
    destruct (dt_flatten_prop p sb (m, ds, dstr)) as [[m1 ds1] dstr1].
    cbn [fst snd] in A1, A2, C1, C2. subst ds1 dstr1.
    destruct (IH sb m1 (ds + prop_struct_bytes p) (dstr + prop_strings_bytes p) Hps
                ltac:(lia) ltac:(lia) ltac:(lia) ltac:(lia)) as [B1 B2].
    destruct (dt_flatten_props_cursors ps sb m1 (ds + prop_struct_bytes p)
                (dstr + prop_strings_bytes p) Sps ltac:(unfold props_struct_bytes; lia))
      as (_ & _ & F).
    unfold props_struct_bytes, props_strings_bytes in F.
    destruct (fold_left _ ps _) as [[m2 ds2] dstr2]. cbn [fst snd] in B1, B2, F |- *.
    replace (dstr + prop_strings_bytes p - sb)
      with (dstr - sb + prop_strings_bytes p) in B1 by lia.
    split.
    + apply agrees_app. rewrite (prop_image_length p _ Hp). split; [|exact B1].
      eapply agrees_frame; [exact A1 | exact F | |];
        rewrite (prop_image_length p _ Hp); lia.
    + unfold written. rewrite map_app. apply agrees_app.
      rewrite length_map, c_str_length. split; [|exact B2].
      eapply agrees_frame; [exact A2 | exact F | |];
        rewrite written_length, c_str_length; unfold prop_strings_bytes in *; lia.
Qed.
Lemma wf_children_sizes cs :
  forallb wf_node cs = true -> forallb sizes_are_uint32 cs = true.
Proof.
  induction cs as [|c cs IH]; cbn [forallb]; intros H; [reflexivity|].
  apply andb_true_iff in H. destruct H as [Hc Hcs].
  rewrite (wf_node_sizes c Hc), (IH Hcs). reflexivity.
Qed.

Lemma children_image_length cs :
  forall k,
    forallb wf_node cs = true ->
    Z.of_nat (List.length (children_image node_image cs k))
    = sumZ (map node_struct_bytes cs).
Proof.
  induction cs as [|c cs IH]; intros k H; cbn [children_image map sumZ forallb] in *;
    [reflexivity|].
  apply andb_true_iff in H. destruct H as [Hc Hcs].
  rewrite length_app, Nat2Z.inj_add, (node_image_length c k Hc), (IH _ Hcs).
  reflexivity.
Qed.

Lemma children_strings_length cs :
  Z.of_nat (List.length (flat_map node_strings cs)) = sumZ (map node_strings_bytes cs).
Proof.
  induction cs as [|c cs IH]; cbn [flat_map map sumZ]; [reflexivity|].
  rewrite length_app, Nat2Z.inj_add, node_strings_length, IH. reflexivity.
Qed.

(** After [dt_flatten_node] the structure region holds the image of the
    subtree and the strings region its property names. *)
Lemma dt_flatten_node_image n :
  forall sb m ds dstr,
    wf_node n = true -> node_struct_bytes n < 2 ^ 32 ->
    0 <= dstr - sb -> dstr - sb + node_strings_bytes n <= 2 ^ 32 ->
    ds + node_struct_bytes n <= dstr ->
    let m' := fst (fst (dt_flatten_node n sb (m, ds, dstr))) in
    agrees m' ds (node_image n (dstr - sb)) /\
    agrees m' dstr (written (node_strings n)).
Proof.
  induction n as [nm ps cs IH] using DeviceTreeNode_ind'.
  intros sb m ds dstr H B Hoff Hstr Hd.
  pose proof (wf_node_sizes _ H) as Hsz.
  cbn [sizes_are_uint32 properties children] in Hsz.
  apply andb_true_iff in Hsz. destruct Hsz as [Sps Scs].
  cbn [wf_node name properties children] in H.
  apply andb_true_iff in H. destruct H as [H Hcs].
  apply andb_true_iff in H. destruct H as [_ Hps].
  cbn [node_struct_bytes node_strings_bytes name properties children] in *.
  cbn [dt_flatten_node node_image node_strings name properties children].
  pose proof (props_struct_bytes_nonneg ps Sps) as P1.
  pose proof (props_strings_bytes_nonneg ps) as P2.
  pose proof (strlen_nonneg nm) as L.
  pose proof (round_up4_bounds (strlen nm + 1) ltac:(lia)) as R.
  pose proof (sizes_children_nonneg cs Scs) as [G1 G2].
  rewrite size32_round_up4 by lia.
  set (m0 := store_bytes (store_bytes m ds (htobe32 TokenBeginNode)) (ds + 4)
               (c_str nm ++ [x00])).
  assert (A0 : agrees m0 ds (written (htobe32 TokenBeginNode))).
  { subst m0. apply agrees_store_other; [apply agrees_store|].
    rewrite written_length, htobe32_length. lia. }
  assert (A1 : agrees m0 (ds + 4) (name_image nm)).
  { subst m0. unfold name_image. apply agrees_app.
    split; [apply agrees_store | apply agrees_padding]. }
  clearbody m0.
  set (dp := ds + 4 + round_up4 (strlen nm + 1)) in *.
  destruct (dt_flatten_props_image ps sb m0 dp dstr Hps ltac:(lia) ltac:(lia)
              ltac:(lia) ltac:(subst dp; lia)) as [A2 A3].
  destruct (dt_flatten_props_cursors ps sb m0 dp dstr Sps ltac:(lia)) as (C1 & C2 & F1).
  destruct (fold_left _ ps _) as [[m1 ds1] dstr1].
  cbn [fst snd] in A2, A3, C1, C2, F1. subst ds1 dstr1.
  set (dc := dp + props_struct_bytes ps) in *.
  set (sc := dstr + props_strings_bytes ps) in *.
  assert (G : forall m1 d1 s1,
             sumZ (map node_struct_bytes cs) < 2 ^ 32 ->
             0 <= s1 - sb -> s1 - sb + sumZ (map node_strings_bytes cs) <= 2 ^ 32 ->
             d1 + sumZ (map node_struct_bytes cs) <= s1 ->
             let m' := fst (fst (fold_left (fun st child => dt_flatten_node child sb st)
                                   cs (m1, d1, s1))) in
             agrees m' d1 (children_image node_image cs (s1 - sb)) /\
             agrees m' s1 (written (flat_map node_strings cs))).
  { clear -IH Hcs Scs. induction IH as [|c cs Hc _ IHcs]; intros m1 d1 s1 Bc Ho Hs Hdc.
    - cbn. split; apply agrees_nil.
    - cbn [forallb] in Hcs, Scs.
      apply andb_true_iff in Hcs. destruct Hcs as [Wc Wcs].
      apply andb_true_iff in Scs. destruct Scs as [Sc Scs].
      cbn [map sumZ] in Bc, Hs, Hdc.
      pose proof (node_bytes_nonneg c Sc) as [N1 N2].
      pose proof (sizes_children_nonneg cs Scs) as [G1 G2].
      cbn [fold_left children_image flat_map].
      destruct (Hc sb m1 d1 s1 Wc ltac:(lia) ltac:(lia) ltac:(lia) ltac:(lia)) as [A1 A2].
      destruct (dt_flatten_node_cursors c sb m1 d1 s1 Sc ltac:(lia)) as (C1 & C2 & _).
      destruct (dt_flatten_node c sb (m1, d1, s1)) as [[m2 d2] s2].
      cbn [fst snd] in A1, A2, C1, C2. subst d2 s2.
      destruct (IHcs Wcs Scs m2 (d1 + node_struct_bytes c) (s1 + node_strings_bytes c)
                  ltac:(lia) ltac:(lia) ltac:(lia) ltac:(lia)) as [B1 B2].
      destruct (dt_flatten_children_cursors cs sb m2 (d1 + node_struct_bytes c)
                  (s1 + node_strings_bytes c) Scs ltac:(lia)) as (_ & _ & F).
      destruct (fold_left _ cs _) as [[m3 d3] s3]. cbn [fst snd] in B1, B2, F |- *.
      replace (s1 + node_strings_bytes c - sb)
        with (s1 - sb + node_strings_bytes c) in B1 by lia.
      split.
      + apply agrees_app. rewrite (node_image_length c _ Wc). split; [|exact B1].
        eapply agrees_frame; [exact A1 | exact F | |];
          rewrite (node_image_length c _ Wc); lia.
      + unfold written. rewrite map_app. apply agrees_app.
        rewrite length_map, node_strings_length. split; [|exact B2].
        eapply agrees_frame; [exact A2 | exact F | |];
          rewrite written_length, node_strings_length; lia. }
  destruct (G m1 dc sc ltac:(lia) ltac:(subst sc; lia) ltac:(subst sc; lia)
              ltac:(subst sc dc dp; lia)) as [A4 A5].
  destruct (dt_flatten_children_cursors cs sb m1 dc sc Scs ltac:(lia)) as (D1 & D2 & F2).
  destruct (fold_left _ cs _) as [[m2 ds2] dstr2].
  cbn [fst snd] in A4, A5, D1, D2, F2 |- *. subst ds2 dstr2.
  replace (sc - sb) with (dstr - sb + props_strings_bytes ps) in A4 by (subst sc; lia).
  pose proof (props_image_length ps (dstr - sb) Hps) as LP.
  pose proof (children_image_length cs (dstr - sb + props_strings_bytes ps) Hcs) as LC.
  pose proof (name_image_length nm) as LN.
  pose proof (props_strings_length ps) as LS.
  pose proof (children_strings_length cs) as LT.
  split.
  - rewrite !agrees_app, written_length, htobe32_length, LN, LP, LC.
    change (Z.of_nat 4) with 4. fold dp. fold dc.
    split; [|split; [|split; [|split]]].
    + apply agrees_store_other; [|rewrite written_length, !htobe32_length; lia].
      eapply agrees_frame; [|exact F2| |]; [|rewrite written_length, htobe32_length; lia..].
      eapply agrees_frame; [exact A0|exact F1| |];
        rewrite written_length, htobe32_length; lia.
    + apply agrees_store_other; [|rewrite LN, !htobe32_length; lia].
      eapply agrees_frame; [|exact F2| |]; [|rewrite LN; lia..].
      eapply agrees_frame; [exact A1|exact F1| |]; rewrite LN; lia.
    + apply agrees_store_other; [|rewrite LP, !htobe32_length; lia].
      eapply agrees_frame; [exact A2|exact F2| |]; rewrite LP; lia.
    + apply agrees_store_other; [exact A4|rewrite LC, !htobe32_length; lia].
    + apply agrees_store.
  - unfold written. rewrite map_app. apply agrees_app. rewrite length_map, LS.
    fold sc. split.
    + apply agrees_store_other; [|rewrite written_length, LS, !htobe32_length; lia].
      eapply agrees_frame; [exact A3|exact F2| |]; rewrite written_length, LS; lia.
    + apply agrees_store_other; [exact A5|].
      fold (written (flat_map node_strings cs)).
      rewrite written_length, LT, !htobe32_length. lia.
Qed.
(** ** The builder reads the image *)

Lemma c_string_at_agrees l :
  forall m a f,
    ~ In x00 l -> agrees m a (written (l ++ [x00])) ->
    (List.length l < f)%nat -> c_string_at f m a = Some l.
Proof.
  induction l as [|b l IH]; intros m a f Hn H Hf.
  - destruct f as [|f]; [lia|]. cbn [c_string_at].
    rewrite <- (Z.add_0_r a). change 0 with (Z.of_nat 0).
    rewrite (H O x00 eq_refl). reflexivity.
  - destruct f as [|f]; [simpl in Hf; lia|]. cbn [c_string_at].
    assert (Hb : m a = b).
    { rewrite <- (Z.add_0_r a). change 0 with (Z.of_nat 0). apply H. reflexivity. }
    rewrite Hb.
    assert (Hb0 : b <> x00) by (intros ->; apply Hn; left; reflexivity).
    rewrite (byte_eqb_neq _ _ Hb0).
    rewrite (IH m (a + 1) f); [reflexivity| | |simpl in Hf; lia].
    + intros F. apply Hn. right. exact F.
    + intros i c Hi. replace (a + 1 + Z.of_nat i) with (a + Z.of_nat (S i)) by lia.
      apply H. exact Hi.
Qed.

Lemma c_string_at_name m a s f :
  nul_free s -> agrees m a (written (c_str s ++ [x00])) ->
  (Z.to_nat (strlen s) < f)%nat -> c_string_at f m a = Some (c_str s).
Proof.
  intros Hn H Hf. apply c_string_at_agrees; [exact Hn | exact H|].
  unfold strlen in Hf. lia.
Qed.

Lemma fdt_next_property_image p noff rest m a sb :
  wf_prop p = true ->
  agrees m a (prop_image p noff ++ rest) ->
  be32toh_at m hdr_strings_offset = sb ->
  0 <= a -> a + prop_struct_bytes p < 2 ^ 31 ->
  0 <= noff -> 0 <= sb -> sb + noff < 2 ^ 32 ->
  fdt_next_property m a
  = (prop_struct_bytes p, Some (mkBlobProp (sb + noff) (a + 12) (prop_size p))).
Proof.
  intros H A Hsb Ha Hb Hn Hs Hns.
  destruct (wf_prop_spec p H) as (Hsz & _ & _). apply size_is_uint32_spec in Hsz.
  pose proof (round_up4_bounds _ (proj1 Hsz)) as R.
  unfold prop_struct_bytes in *. unfold prop_image in A.
  rewrite <- !app_assoc in A.
  pose proof (agrees_be32 _ _ _ _ A) as T0.
  apply agrees_app in A. destruct A as [_ A].
  rewrite written_length, htobe32_length in A. change (Z.of_nat 4) with 4 in A.
  pose proof (agrees_be32 _ _ _ _ A) as T1.
  apply agrees_app in A. destruct A as [_ A].
  rewrite written_length, htobe32_length in A. change (Z.of_nat 4) with 4 in A.
  pose proof (agrees_be32 _ _ _ _ A) as T2.
  replace (a + 4 + 4) with (a + 8) in T2 by lia.
  rewrite (wrap32_small (prop_size p)) in T1 by lia.
  rewrite (wrap32_small noff) in T2 by lia.
  unfold fdt_next_property. rewrite (wrap32_small a) by lia.
  rewrite T0, T1, T2, Hsb. change (wrap32 TokenProperty) with TokenProperty.
  rewrite Z.eqb_refl. cbn [negb].
  rewrite (wrap32_small (noff + sb)) by lia.
  pose proof (size32_round_up4 (prop_size p) ltac:(lia) ltac:(lia)) as E.
  rewrite (wrap_int_small (3 + _)) by lia.
  rewrite wrap_int_small by lia.
  replace ((3 + size32 (prop_size p)) * 4) with (12 + round_up4 (prop_size p)) by lia.
  replace (noff + sb) with (sb + noff) by lia. reflexivity.
Qed.

Lemma fdt_next_property_other tok rest m a :
  agrees m a (written (htobe32 tok) ++ rest) ->
  tok <> TokenProperty -> 0 <= tok < 2 ^ 32 -> 0 <= a < 2 ^ 32 ->
  fdt_next_property m a = (0, None).
Proof.
  intros A Ht Hr Ha. unfold fdt_next_property.
  rewrite (wrap32_small a) by lia. rewrite (agrees_be32 _ _ _ _ A).
  rewrite (wrap32_small tok) by lia.
  destruct (Z.eqb_spec tok TokenProperty); [contradiction | reflexivity].
Qed.

Lemma resolve_prop_image p noff m a sb g :
  wf_prop p = true ->
  agrees m a (prop_image p noff) ->
  agrees m (sb + noff) (written (c_str (prop_name p) ++ [x00])) ->
  (Z.to_nat (strlen (prop_name p)) < g)%nat ->
  resolve_prop g m (mkBlobProp (sb + noff) (a + 12) (prop_size p)) = Some (canon_prop p).
Proof.
  intros H A S Hg. destruct (wf_prop_spec p H) as (_ & Hl & Hn).
  unfold resolve_prop. cbn [bp_name bp_data bp_size].
  rewrite (c_string_at_name _ _ _ _ Hn S Hg).
  unfold prop_image in A.
  apply agrees_app in A. destruct A as [_ A].
  apply agrees_app in A. destruct A as [_ A].
  apply agrees_app in A. destruct A as [_ A].
  apply agrees_app in A. destruct A as [A _].
  rewrite !written_length, !htobe32_length in A.
  replace (a + Z.of_nat 4 + Z.of_nat 4 + Z.of_nat 4) with (a + 12) in A by lia.
  apply agrees_written in A. rewrite Hl in A. rewrite A.
  unfold canon_prop, c_str. rewrite string_of_list_byte_of_string. reflexivity.
Qed.

Lemma fdt_unflatten_props_image ps :
  forall m a noff sb tok rest,
    forallb wf_prop ps = true ->
    agrees m a (props_image ps noff ++ written (htobe32 tok) ++ rest) ->
    agrees m (sb + noff) (written (props_strings ps)) ->
    be32toh_at m hdr_strings_offset = sb ->
    tok <> TokenProperty -> 0 <= tok < 2 ^ 32 ->
    0 <= a -> a + props_struct_bytes ps < 2 ^ 31 ->
    0 <= noff -> 0 <= sb -> sb + noff + props_strings_bytes ps <= 2 ^ 32 ->
    exists f0, forall f, (f0 <= f)%nat ->
      exists bps,
        (forall acc, fdt_unflatten_props f m a acc
                     = Some (acc ++ bps, a + props_struct_bytes ps)) /\
        (forall g, (f0 <= g)%nat ->
           sequence (map (resolve_prop g m) bps) = Some (map canon_prop ps)).
Proof.
  unfold props_struct_bytes, props_strings_bytes.
  induction ps as [|p ps IH]; intros m a noff sb tok rest H A S Hsb Ht Hr Ha Hb Hn Hs Hns.
  - exists 1%nat. intros f Hf. exists []. split.
    + intros acc. destruct f as [|f]; [lia|]. cbn [fdt_unflatten_props].
      cbn [props_image app] in A.
      rewrite (fdt_next_property_other tok rest m a A Ht Hr) by (cbn [map sumZ] in Hb; lia).
      cbn. rewrite app_nil_r. f_equal. f_equal. lia.
    + intros g _. reflexivity.
  - cbn [forallb] in H. apply andb_true_iff in H. destruct H as [Hp Hps].
    destruct (wf_prop_spec p Hp) as (Sp & _ & _).
    pose proof (wf_props_sizes ps Hps) as Sps.
    cbn [map sumZ] in Hb, Hns.
    pose proof (prop_struct_bytes_pos p (proj1 (size_is_uint32_spec p Sp))) as P1.
    pose proof (prop_strings_bytes_pos p) as P2.
    pose proof (props_struct_bytes_nonneg ps Sps) as N1.
    pose proof (props_strings_bytes_nonneg ps) as N2.
    unfold props_struct_bytes, props_strings_bytes in N1, N2.
    cbn [props_image] in A. rewrite <- app_assoc in A.
    pose proof A as A'.
    apply agrees_app in A'. destruct A' as [Ap Ar].
    rewrite (prop_image_length p noff Hp) in Ar.
    cbn [props_strings flat_map] in S. unfold written in S. rewrite map_app in S.
    apply agrees_app in S. destruct S as [Sp1 Sr].
    rewrite length_map, c_str_length in Sr.
    fold (prop_strings_bytes p) in Sr.
    replace (sb + noff + prop_strings_bytes p)
      with (sb + (noff + prop_strings_bytes p)) in Sr by lia.
    destruct (IH m (a + prop_struct_bytes p) (noff + prop_strings_bytes p) sb tok rest
                Hps Ar Sr Hsb Ht Hr ltac:(lia) ltac:(lia) ltac:(lia) Hs ltac:(lia))
      as (f0 & Hf0).
    exists (S (Nat.max f0 (S (Z.to_nat (strlen (prop_name p)))))).
    intros f Hf. destruct f as [|f]; [lia|].
    destruct (Hf0 f ltac:(lia)) as (bps & L & Rs).
    exists (mkBlobProp (sb + noff) (a + 12) (prop_size p) :: bps). split.
    + intros acc. cbn [fdt_unflatten_props].
      rewrite (fdt_next_property_image p noff _ m a sb Hp A Hsb Ha ltac:(lia) Hn Hs
                 ltac:(lia)).
      destruct (Z.eqb_spec (prop_struct_bytes p) 0) as [E|_]; [lia|].
      rewrite wrap_int_small by lia.
      rewrite L. unfold list_insert_after_last. rewrite <- app_assoc.
      cbn [app map sumZ]. f_equal. f_equal. lia.
    + intros g Hg. cbn [map sequence].
      rewrite (resolve_prop_image p noff m a sb g Hp Ap Sp1 ltac:(lia)).
      rewrite (Rs g ltac:(lia)). reflexivity.
Qed.
Lemma fdt_node_name_image nm rest m a f :
  nul_free nm ->
  agrees m a (written (htobe32 TokenBeginNode) ++ name_image nm ++ rest) ->
  0 <= a -> a + 4 + round_up4 (strlen nm + 1) < 2 ^ 31 ->
  (Z.to_nat (strlen nm) < f)%nat ->
  fdt_node_name f m a = Some (round_up4 (strlen nm + 1) + 4, Some (a + 4)).
Proof.
  intros Hn A Ha Hb Hf.
  pose proof (strlen_nonneg nm) as L.
  pose proof (round_up4_bounds (strlen nm + 1) ltac:(lia)) as R.
  pose proof (agrees_be32 _ _ _ _ A) as T0.
  apply agrees_app in A. destruct A as [_ A].
  rewrite written_length, htobe32_length in A. change (Z.of_nat 4) with 4 in A.
  unfold name_image in A. rewrite <- app_assoc in A.
  apply agrees_app in A. destruct A as [A _].
  unfold fdt_node_name, strlen_at. rewrite (wrap32_small a) by lia.
  rewrite T0. change (wrap32 TokenBeginNode) with TokenBeginNode.
  rewrite Z.eqb_refl. cbn [negb].
  rewrite (c_string_at_name _ _ _ _ Hn A Hf). cbn [option_map].
  fold (strlen nm). rewrite size32_round_up4 by lia.
  rewrite wrap_int_small by lia. reflexivity.
Qed.

Lemma fdt_node_name_other tok rest m a f :
  agrees m a (written (htobe32 tok) ++ rest) ->
  tok <> TokenBeginNode -> 0 <= tok < 2 ^ 32 -> 0 <= a < 2 ^ 32 ->
  fdt_node_name f m a = Some (0, None).
Proof.
  intros A Ht Hr Ha. unfold fdt_node_name.
  rewrite (wrap32_small a) by lia. rewrite (agrees_be32 _ _ _ _ A).
  rewrite (wrap32_small tok) by lia.
  destruct (Z.eqb_spec tok TokenBeginNode); [contradiction | reflexivity].
Qed.

(** What follows the properties of a node is a token that is not a
    property token. *)
Lemma children_image_head cs k :
  exists tok rest,
    children_image node_image cs k ++ written (htobe32 TokenEndNode)
    = written (htobe32 tok) ++ rest /\
    tok <> TokenProperty /\ 0 <= tok < 2 ^ 32.
Proof.
  destruct cs as [|c cs].
  - exists TokenEndNode, []. cbn [children_image app]. rewrite app_nil_r.
    split; [reflexivity|]. unfold TokenEndNode, TokenProperty. lia.
  - exists TokenBeginNode. eexists. cbn [children_image].
    destruct c as [nm ps cs']. cbn [node_image]. rewrite <- !app_assoc.
    split; [reflexivity|]. unfold TokenBeginNode, TokenProperty. lia.
Qed.

Lemma wf_node_name n : wf_node n = true -> nul_free (name n).
Proof.
  destruct n as [nm ps cs]. cbn [wf_node name properties children]. intros H.
  apply andb_true_iff in H. destruct H as [H _].
  apply andb_true_iff in H. destruct H as [H _].
  apply nul_freeb_spec. exact H.
Qed.

(** [fdt_unflatten_node] on the image of a subtree consumes the image and
    builds a node whose pointers denote the subtree. *)
Lemma fdt_unflatten_node_image n :
  forall m a noff sb,
    wf_node n = true ->
    agrees m a (node_image n noff) ->
    agrees m (sb + noff) (written (node_strings n)) ->
    be32toh_at m hdr_strings_offset = sb ->
    0 <= a -> a + node_struct_bytes n < 2 ^ 31 ->
    0 <= noff -> 0 <= sb -> sb + noff + node_strings_bytes n <= 2 ^ 32 ->
    exists f0, forall f, (f0 <= f)%nat ->
      exists bn,
        fdt_unflatten_node f m a = Some (node_struct_bytes n, Some bn) /\
        (forall g, (f0 <= g)%nat -> resolve_node g m bn = Some (canon_node n)).
Proof.
  induction n as [nm ps cs IH] using DeviceTreeNode_ind'.
  intros m a noff sb H A S Hsb Ha Hb Hn Hs Hns.
  pose proof (wf_node_name _ H) as Hnm. cbn [name] in Hnm.
  pose proof (wf_node_sizes _ H) as Hsz.
  cbn [sizes_are_uint32 properties children] in Hsz.
  apply andb_true_iff in Hsz. destruct Hsz as [Sps Scs].
  cbn [wf_node name properties children] in H.
  apply andb_true_iff in H. destruct H as [H Hcs].
  apply andb_true_iff in H. destruct H as [_ Hps].
  cbn [node_struct_bytes node_strings_bytes name properties children] in *.
  pose proof (props_struct_bytes_nonneg ps Sps) as P1.
  pose proof (props_strings_bytes_nonneg ps) as P2.
  pose proof (strlen_nonneg nm) as L.
  pose proof (round_up4_bounds (strlen nm + 1) ltac:(lia)) as R.
  pose proof (sizes_children_nonneg cs Scs) as [G1 G2].
  cbn [node_image node_strings name properties children] in A, S.
  (* the parts of the image *)
  pose proof A as A'.
  apply agrees_app in A'. destruct A' as [_ A'].
  rewrite written_length, htobe32_length in A'. change (Z.of_nat 4) with 4 in A'.
  apply agrees_app in A'. destruct A' as [_ Ap].
  rewrite name_image_length in Ap.
  set (dp := a + 4 + round_up4 (strlen nm + 1)) in *.
  destruct (children_image_head cs (noff + props_strings_bytes ps))
    as (tok & rest & Etok & Htok & Rtok).
  pose proof Ap as Ap'. rewrite Etok in Ap'.
  pose proof Ap as Ac. apply agrees_app in Ac. destruct Ac as [_ Ac].
  rewrite (props_image_length ps noff Hps) in Ac.
  set (dc := dp + props_struct_bytes ps) in *.
  unfold written in S. rewrite map_app in S.
  apply agrees_app in S. destruct S as [Sp Sc].
  rewrite length_map, props_strings_length in Sc.
  replace (sb + noff + props_strings_bytes ps)
    with (sb + (noff + props_strings_bytes ps)) in Sc by lia.
  (* the properties *)
  destruct (fdt_unflatten_props_image ps m dp noff sb tok rest Hps Ap' Sp Hsb Htok Rtok
              ltac:(subst dp; lia) ltac:(subst dp; lia) Hn Hs ltac:(lia)) as (fp & Hfp).
  (* the children *)
  assert (G : forall a k,
             agrees m a (children_image node_image cs k
                         ++ written (htobe32 TokenEndNode)) ->
             agrees m (sb + k) (written (flat_map node_strings cs)) ->
             0 <= a -> a + sumZ (map node_struct_bytes cs) + 4 < 2 ^ 31 ->
             0 <= k -> sb + k + sumZ (map node_strings_bytes cs) <= 2 ^ 32 ->
             exists f0, forall f, (f0 <= f)%nat ->
               exists bcs,
                 (forall acc, fdt_unflatten_children f m a acc
                              = Some (acc ++ bcs, a + sumZ (map node_struct_bytes cs))) /\
                 (forall g, (f0 <= g)%nat ->
                    sequence (map (resolve_node g m) bcs) = Some (map canon_node cs))).
  { clear -IH Hcs Scs Hsb Hs.
    induction IH as [|c cs Hc _ IHcs]; intros a k A S Ha Hb Hk Hks.
    - exists 2%nat. intros f Hf. exists []. split; [|intros g _; reflexivity].
      intros acc. destruct f as [|[|f]]; try lia.
      cbn [fdt_unflatten_children fdt_unflatten_node].
      cbn [children_image app] in A.
      rewrite <- (app_nil_r (written (htobe32 TokenEndNode))) in A.
      rewrite (wrap_int_small a) by (cbn [map sumZ] in Hb; lia).
      rewrite (fdt_node_name_other TokenEndNode [] m a f A)
        by (unfold TokenEndNode, TokenBeginNode; cbn [map sumZ] in Hb; lia).
      cbn. rewrite app_nil_r. f_equal. f_equal. lia.
    - cbn [forallb] in Hcs, Scs.
      apply andb_true_iff in Hcs. destruct Hcs as [Wc Wcs].
      apply andb_true_iff in Scs. destruct Scs as [Sc Scs].
      cbn [map sumZ] in Hb, Hks.
      pose proof (node_bytes_nonneg c Sc) as [N1 N2].
      pose proof (sizes_children_nonneg cs Scs) as [G1 G2].
      cbn [children_image] in A. rewrite <- app_assoc in A.
      apply agrees_app in A. destruct A as [A1 A2].
      rewrite (node_image_length c k Wc) in A2.
      cbn [flat_map] in S. unfold written in S. rewrite map_app in S.
      apply agrees_app in S. destruct S as [S1 S2].
      rewrite length_map, node_strings_length in S2.
      replace (sb + k + node_strings_bytes c) with (sb + (k + node_strings_bytes c))
        in S2 by lia.
      destruct (Hc m a k sb Wc A1 S1 Hsb Ha ltac:(lia) Hk Hs ltac:(lia)) as (fc & Hfc).
      destruct (IHcs Wcs Scs (a + node_struct_bytes c) (k + node_strings_bytes c) A2 S2
                  ltac:(lia) ltac:(lia) ltac:(lia) ltac:(lia)) as (fr & Hfr).
      exists (S (Nat.max fc fr)). intros f Hf. destruct f as [|f]; [lia|].
      destruct (Hfc f ltac:(lia)) as (bc & Uc & Rc).
      destruct (Hfr f ltac:(lia)) as (bcs & Ur & Rr).
      exists (bc :: bcs). split.
      + intros acc. cbn [fdt_unflatten_children]. rewrite Uc.
        destruct (Z.eqb_spec (node_struct_bytes c) 0) as [E|_]; [lia|].
        rewrite wrap_int_small by lia.
        rewrite Ur. unfold list_insert_after_last. rewrite <- app_assoc.
        cbn [app map sumZ]. f_equal. f_equal. lia.
      + intros g Hg. cbn [map sequence].
        rewrite (Rc g ltac:(lia)), (Rr g ltac:(lia)). reflexivity. }
  destruct (G dc (noff + props_strings_bytes ps) Ac Sc ltac:(subst dc dp; lia)
              ltac:(subst dc dp; lia) ltac:(lia) ltac:(lia)) as (fc & Hfc).
  exists (S (Nat.max (Nat.max fp fc) (S (Z.to_nat (strlen nm))))).
  intros f Hf. destruct f as [|f]; [lia|].
  destruct (Hfp f ltac:(lia)) as (bps & Up & Rp).
  destruct (Hfc f ltac:(lia)) as (bcs & Uc & Rc).
  exists (mkBlobNode (a + 4) bps bcs). split.
  - cbn [fdt_unflatten_node]. rewrite (wrap_int_small a) by lia.
    rewrite (fdt_node_name_image nm _ m a f Hnm A Ha ltac:(lia) ltac:(lia)).
    destruct (Z.eqb_spec (round_up4 (strlen nm + 1) + 4) 0) as [E|_]; [lia|].
    rewrite wrap_int_small by lia.
    replace (a + (round_up4 (strlen nm + 1) + 4)) with dp by (subst dp; lia).
    rewrite (Up []). cbn [app]. fold dc. rewrite (Uc []). cbn [app].
    f_equal. f_equal.
    rewrite wrap32_small by (subst dc dp; lia).
    rewrite wrap_int_small by (subst dc dp; lia). subst dc dp. lia.
  - intros g Hg. cbn [resolve_node bn_name bn_properties bn_children].
    apply agrees_app in A. destruct A as [_ A].
    rewrite written_length, htobe32_length in A. change (Z.of_nat 4) with 4 in A.
    unfold name_image in A. rewrite <- app_assoc in A.
    apply agrees_app in A. destruct A as [A _].
    rewrite (c_string_at_name m (a + 4) nm g Hnm A ltac:(lia)).
    rewrite (Rp g ltac:(lia)), (Rc g ltac:(lia)).
    cbn [canon_node name properties children].
    unfold c_str. rewrite string_of_list_byte_of_string. reflexivity.
Qed.
(** ** The reserve map *)

Lemma agrees_same_outside m m' a l lo hi :
  agrees m a l -> same_outside m m' lo hi ->
  a + Z.of_nat (List.length l) <= lo \/ hi <= a ->
  agrees m' a l.
Proof.
  intros H F D. apply (agrees_ext m); [exact H|].
  intros x Hx. apply F. lia.
Qed.

Lemma written_app l1 l2 : written (l1 ++ l2) = written l1 ++ written l2.
Proof. apply map_app. Qed.

Lemma dt_flatten_map_image (R : list DeviceTreeReserveMapEntry) :
  forall m d,
    agrees (fst (fold_left (fun st entry => dt_flatten_map_entry entry st) R (m, d))) d
      (written (flat_map (fun e => htobe64 (entry_start e) ++ htobe64 (entry_size e)) R)).
Proof.
  induction R as [|e R IH]; intros m d; cbn [fold_left flat_map].
  - apply agrees_nil.
  - cbn [dt_flatten_map_entry].
    set (m1 := store_bytes (store_bytes m d (htobe64 (entry_start e))) (d + 8)
                 (htobe64 (entry_size e))).
    pose proof (IH m1 (d + 8 * 2)) as B.
    destruct (dt_flatten_map_fold R m1 (d + 8 * 2)) as [_ F].
    destruct (fold_left _ R _) as [m2 d2]. cbn [fst] in B, F |- *.
    rewrite <- app_assoc, !written_app, !agrees_app, !written_length, !htobe64_length.
    change (Z.of_nat 8) with 8.
    split; [|split].
    + eapply agrees_same_outside; [|exact F|rewrite written_length, htobe64_length; lia].
      subst m1. apply agrees_store_other; [apply agrees_store|].
      rewrite written_length, htobe64_length. lia.
    + eapply agrees_same_outside; [|exact F|rewrite written_length, htobe64_length; lia].
      subst m1. apply agrees_store.
    + replace (d + 8 + 8) with (d + 8 * 2) by lia. exact B.
Qed.

Lemma wf_entry_spec e :
  wf_entry e = true -> 0 <= entry_start e < 2 ^ 64 /\ 0 < entry_size e < 2 ^ 64.
Proof.
  unfold wf_entry. intros H.
  apply andb_true_iff in H. destruct H as [H H4].
  apply andb_true_iff in H. destruct H as [H H3].
  apply andb_true_iff in H. destruct H as [H1 H2]. lia.
Qed.

Lemma fdt_unflatten_map_image (R : list DeviceTreeReserveMapEntry) :
  forall m a f acc,
    forallb wf_entry R = true ->
    agrees m a (written (map_image R)) ->
    0 <= a -> a + 16 * (Z.of_nat (List.length R) + 1) <= 2 ^ 32 ->
    (List.length R < f)%nat ->
    fdt_unflatten_map f m a acc = Some (acc ++ R).
Proof.
  unfold map_image.
  induction R as [|e R IH]; intros m a f acc H A Ha Hb Hf;
    (destruct f as [|f]; [simpl in Hf; lia|]); cbn [fdt_unflatten_map].
  - cbn [flat_map app] in A. rewrite written_app in A.
    apply agrees_app in A. destruct A as [_ A].
    rewrite written_length, htobe64_length in A. change (Z.of_nat 8) with 8 in A.
    rewrite <- (app_nil_r (written (htobe64 0))) in A.
    unfold fdt_unflatten_map_entry. rewrite (wrap32_small a) by (simpl in Hb; lia).
    rewrite (agrees_be64 _ _ 0 _ ltac:(lia) A). cbn. rewrite app_nil_r. reflexivity.
  - cbn [forallb] in H. apply andb_true_iff in H. destruct H as [He HR].
    destruct (wf_entry_spec e He) as [Hst Hsi].
    cbn [List.length] in Hb, Hf.
    cbn [flat_map] in A. rewrite <- !app_assoc, written_app in A.
    pose proof (agrees_be64 _ _ _ _ Hst A) as E1.
    apply agrees_app in A. destruct A as [_ A].
    rewrite written_length, htobe64_length in A. change (Z.of_nat 8) with 8 in A.
    rewrite written_app in A.
    pose proof (agrees_be64 _ _ (entry_size e) _ ltac:(lia) A) as E2.
    apply agrees_app in A. destruct A as [_ A].
    rewrite written_length, htobe64_length in A. change (Z.of_nat 8) with 8 in A.
    unfold fdt_unflatten_map_entry. rewrite (wrap32_small a) by lia.
    rewrite E1, E2.
    destruct (Z.eqb_spec (entry_size e) 0) as [E|_]; [lia|].
    change (8 * 2 =? 0) with false. cbn iota.
    rewrite (wrap32_small (a + 8 * 2)) by lia.
    replace (a + 8 + 8) with (a + 8 * 2) in A by lia.
    rewrite (IH m (a + 8 * 2) f _ HR A ltac:(lia) ltac:(lia) ltac:(lia)).
    unfold list_insert_after_last. rewrite <- app_assoc. destruct e. reflexivity.
Qed.

Lemma canon_exact n : values_exact n = true -> canon_node n = n.
Proof.
  induction n as [nm ps cs IH] using DeviceTreeNode_ind'.
  cbn [values_exact canon_node name properties children]. intros H.
  apply andb_true_iff in H. destruct H as [Hps Hcs]. f_equal.
  - clear -Hps. induction ps as [|p ps IHps]; cbn [map forallb] in *; [reflexivity|].
    apply andb_true_iff in Hps. destruct Hps as [Hp Hps].
    rewrite (IHps Hps). f_equal.
    destruct p as [pn [d|] sz]; unfold value_exact in Hp; cbn in Hp; [|discriminate].
    apply Z.eqb_eq in Hp. unfold canon_prop, prop_value. cbn.
    rewrite firstn_all2 by lia. subst sz. reflexivity.
  - induction IH as [|c cs Hc _ IHcs]; cbn [map forallb] in *; [reflexivity|].
    apply andb_true_iff in Hcs. destruct Hcs as [H1 H2].
    rewrite (Hc H1), (IHcs H2). reflexivity.
Qed.
(** ** Round trip *)

Lemma map_entries_length (R : list DeviceTreeReserveMapEntry) :
  Z.of_nat (List.length
              (flat_map (fun e => htobe64 (entry_start e) ++ htobe64 (entry_size e)) R))
  = 16 * Z.of_nat (List.length R).
Proof.
  induction R as [|e R IH]; cbn [flat_map List.length]; [reflexivity|].
  rewrite !length_app, !htobe64_length, !Nat2Z.inj_add, IH. lia.
Qed.

Lemma agrees_store32_other m a l a' v :
  agrees m a l ->
  a + Z.of_nat (List.length l) <= a' \/ a' + 4 <= a ->
  agrees (store_bytes m a' (htobe32 v)) a l.
Proof. intros H D. apply agrees_store_other; [exact H|]. rewrite htobe32_length. lia. Qed.

Lemma store32_outside m a v x :
  x < a \/ a + 4 <= x -> store_bytes m a (htobe32 v) x = m x.
Proof. intros H. apply store_bytes_outside. rewrite htobe32_length. lia. Qed.

Lemma written32_length v : Z.of_nat (List.length (written (htobe32 v))) = 4.
Proof. reflexivity. Qed.

Lemma map_image_length (R : list DeviceTreeReserveMapEntry) :
  Z.of_nat (List.length (written (map_image R))) = 16 * (Z.of_nat (List.length R) + 1).
Proof.
  unfold map_image. rewrite written_length, !length_app, !htobe64_length.
  rewrite !Nat2Z.inj_add, map_entries_length. lia.
Qed.

(** The blob [dt_flatten] leaves: the three offsets in its header, the
    reserve map, the structure block and the strings block. *)
Lemma dt_flatten_blob tree r m :
  well_formed tree r ->
  exists blob,
    dt_flatten tree m = Some blob /\
    be32toh_at blob hdr_structure_offset
    = header_size tree + 16 * (Z.of_nat (List.length (reserve_map tree)) + 1) /\
    be32toh_at blob hdr_strings_offset
    = header_size tree + 16 * (Z.of_nat (List.length (reserve_map tree)) + 1)
      + node_struct_bytes r + 4 /\
    be32toh_at blob hdr_reserve_map_offset = header_size tree /\
    agrees blob (header_size tree) (written (map_image (reserve_map tree))) /\
    agrees blob (header_size tree + 16 * (Z.of_nat (List.length (reserve_map tree)) + 1))
      (node_image r 0) /\
    agrees blob (header_size tree + 16 * (Z.of_nat (List.length (reserve_map tree)) + 1)
                 + node_struct_bytes r + 4)
      (written (node_strings r)).
Proof.
  intros ((Hr & Hh & Hs & Hb) & Hw & He & Hm). unfold flat_bytes in Hb.
  unfold sizeof_FdtHeader in Hh.
  pose proof (node_bytes_nonneg r Hs) as [N1 N2].
  assert (Esz : dt_flat_node_size r (0, 0) = (node_struct_bytes r, node_strings_bytes r)).
  { rewrite dt_flat_node_size_exact by (try assumption; lia). f_equal; lia. }
  unfold dt_flatten. rewrite Hr, Esz.
  rewrite (wrap32_small (header_size tree)) by lia.
  unfold hdr_totalsize, hdr_structure_offset, hdr_strings_offset,
    hdr_reserve_map_offset, hdr_strings_size, hdr_structure_size in *.
  set (H := header_size tree) in *.
  set (R := reserve_map tree) in *.
  pose proof (map_image_length R) as LM.
  pose proof (map_entries_length R) as LE.
  set (n := Z.of_nat (List.length R)) in *.
  assert (Hn : 0 <= n) by (subst n; lia).
  set (m0 := store_bytes m 0 (load_bytes (header tree) 0 (Z.to_nat H))).
  assert (P0 : forall x, 0 <= x < H -> m0 x = header tree x).
  { intros x Hx. subst m0.
    replace x with (0 + Z.of_nat (Z.to_nat x)) at 1 by lia.
    rewrite store_bytes_inside by (rewrite load_bytes_length; lia).
    rewrite nth_load_bytes by lia. f_equal. lia. }
  clearbody m0.
  destruct (dt_flatten_map_fold R m0 H) as [C1 F1].
  pose proof (dt_flatten_map_image R m0 H) as A1.
  destruct (fold_left _ R _) as [m1 d1]. cbn [fst snd] in C1, F1, A1. subst d1.
  fold n in F1 |- *.
  set (S0 := H + 16 * n + 8 * 2).
  set (SS := node_struct_bytes r) in *.
  set (ST := node_strings_bytes r) in *.
  set (T0 := S0 + SS + 4).
  pose proof (written32_length S0) as L0.
  pose proof (written32_length T0) as L1.
  assert (LZ : Z.of_nat (List.length (htobe64 0 ++ htobe64 0)) = 16) by reflexivity.
  set (m2 := store_bytes m1 (H + 16 * n) (htobe64 0 ++ htobe64 0)).
  set (m3 := store_bytes m2 8 (htobe32 S0)).
  set (m4 := store_bytes m3 36 (htobe32 SS)).
  set (m5 := store_bytes m4 (S0 + SS) (htobe32 TokenEnd)).
  set (m6 := store_bytes m5 12 (htobe32 T0)).
  set (m7 := store_bytes m6 32 (htobe32 ST)).
  assert (Q1 : agrees m7 8 (written (htobe32 S0))).
  { subst m7 m6 m5 m4 m3.
    do 4 (apply agrees_store32_other; [|subst T0 S0; lia]). apply agrees_store. }
  assert (Q2 : agrees m7 12 (written (htobe32 T0))).
  { subst m7 m6. apply agrees_store32_other; [|subst T0 S0; lia]. apply agrees_store. }
  assert (Q3 : forall x, 16 <= x < 20 -> m7 x = header tree x).
  { intros x Hx. subst m7 m6 m5 m4 m3 m2.
    rewrite !store32_outside by (subst T0 S0; lia).
    rewrite store_bytes_outside by lia.
    rewrite (F1 x) by lia. apply P0. lia. }
  assert (Q4 : agrees m7 H (written (map_image R))).
  { subst m7 m6 m5 m4 m3.
    do 5 (apply agrees_store32_other; [|subst T0 S0; lia]).
    unfold map_image. rewrite written_app. apply agrees_app. split.
    - subst m2. apply agrees_store_other; [exact A1|]. rewrite written_length. lia.
    - rewrite written_length, LE. subst m2. apply agrees_store. }
  clearbody m7. clear m2 m3 m4 m5 m6.
  destruct (dt_flatten_node_image r T0 m7 S0 T0 Hw ltac:(lia) ltac:(lia) ltac:(lia)
              ltac:(subst T0; lia)) as [A8 B8].
  destruct (dt_flatten_node_cursors r T0 m7 S0 T0 Hs ltac:(lia)) as (_ & _ & F8).
  destruct (dt_flatten_node r T0 (m7, S0, T0)) as [[m8 ds8] dstr8].
  cbn [fst] in A8, B8, F8. rewrite Z.sub_diag in A8.
  fold SS in F8. fold ST in F8.
  assert (LI : Z.of_nat (List.length (node_image r 0)) = SS)
    by (apply node_image_length; exact Hw).
  assert (LS : Z.of_nat (List.length (written (node_strings r))) = ST)
    by (rewrite written_length; apply node_strings_length).
  eexists. split; [reflexivity|].
  replace (H + 16 * (n + 1)) with S0 by (subst S0; lia). fold T0.
  split; [|split; [|split; [|split; [|split]]]].
  - rewrite <- (wrap32_small S0) by (subst S0; lia).
    apply (agrees_be32 _ _ _ []). rewrite app_nil_r.
    apply agrees_store32_other; [|subst T0 S0; lia].
    eapply agrees_frame; [exact Q1|exact F8| |]; subst T0 S0; lia.
  - rewrite <- (wrap32_small T0) by (subst T0 S0; lia).
    apply (agrees_be32 _ _ _ []). rewrite app_nil_r.
    apply agrees_store32_other; [|subst T0 S0; lia].
    eapply agrees_frame; [exact Q2|exact F8| |]; subst T0 S0; lia.
  - rewrite <- Hm. apply be32toh_at_ext. intros x Hx.
    rewrite store32_outside by lia.
    rewrite (F8 x) by (subst T0 S0; lia). apply Q3. lia.
  - apply agrees_store32_other; [|subst T0 S0; lia].
    eapply agrees_frame; [exact Q4|exact F8| |]; subst T0 S0; lia.
  - apply agrees_store32_other; [exact A8|]. subst T0 S0. lia.
  - apply agrees_store32_other; [exact B8|]. subst T0 S0. lia.
Qed.

(** ** What the flattener emits *)

Lemma sumZ_member {A} (f : A -> Z) (l : list A) (a : A) :
  (forall x, In x l -> 0 <= f x) -> In a l -> f a <= sumZ (map f l).
Proof.
  induction l as [|x l IH]; intros Hp Ha; [destruct Ha|].
  cbn [map sumZ].
  assert (P : 0 <= sumZ (map f l)).
  { clear -Hp. induction l as [|y l IHl]; cbn [map sumZ]; [lia|].
    pose proof (Hp y (or_intror (or_introl eq_refl))).
    assert (0 <= sumZ (map f l)); [|lia].
    apply IHl. intros z [Hz|Hz]; apply Hp; [left | right; right]; assumption. }
  destruct Ha as [->|Ha].
  - lia.
  - pose proof (Hp x (or_introl eq_refl)).
    assert (f a <= sumZ (map f l)); [|lia].
    apply IH; [|exact Ha]. intros z Hz. apply Hp. right. exact Hz.
Qed.

(** A node of the tree has sizes that are [uint32_t] values and takes no
    more bytes than the tree. *)
Lemma node_at_bytes (q : node_ptr) :
  forall r n,
    node_at r q = Some n -> sizes_are_uint32 r = true ->
    sizes_are_uint32 n = true /\
    node_struct_bytes n <= node_struct_bytes r /\
    node_strings_bytes n <= node_strings_bytes r.
Proof.
  induction q as [|i q IH]; intros r n N Hs.
  - cbn in N. apply some_eq in N. subst n. split; [exact Hs | lia].
  - cbn [node_at] in N.
    destruct (nth_error (children r) i) as [c|] eqn:F; [|discriminate N].
    apply nth_error_In in F.
    destruct r as [nm ps cs]. cbn [children] in F.
    cbn [sizes_are_uint32 properties children] in Hs.
    apply andb_true_iff in Hs. destruct Hs as [Hps Hcs].
    pose proof (proj1 (forallb_forall _ _) Hcs) as Hall.
    destruct (IH c n N (Hall c F)) as (I1 & I2 & I3).
    split; [exact I1|].
    cbn [node_struct_bytes node_strings_bytes name properties children].
    pose proof (props_struct_bytes_nonneg ps Hps).
    pose proof (props_strings_bytes_nonneg ps).
    pose proof (strlen_nonneg nm).
    pose proof (round_up4_bounds (strlen nm + 1) ltac:(lia)).
    assert (Pc : forall x, In x cs -> 0 <= node_struct_bytes x).
    { intros x Hx. pose proof (proj1 (node_bytes_nonneg x (Hall x Hx))). lia. }
    pose proof (sumZ_member node_struct_bytes cs c Pc F).
    pose proof (sumZ_member node_strings_bytes cs c
                  (fun x Hx => proj2 (node_bytes_nonneg x (Hall x Hx))) F).
    lia.
Qed.

(** A property of a node has a size that is a [uint32_t] value and takes
    no more bytes than the node. *)
Lemma property_bytes (n : DeviceTreeNode) (p : DeviceTreeProperty) :
  In p (properties n) -> sizes_are_uint32 n = true ->
  size_is_uint32 p = true /\
  prop_struct_bytes p <= node_struct_bytes n /\
  prop_strings_bytes p <= node_strings_bytes n.
Proof.
  intros Hp Hs. destruct n as [nm ps cs]. cbn [properties] in Hp.
  pose proof (node_bytes_nonneg _ Hs) as [_ N2].
  cbn [sizes_are_uint32 properties children] in Hs.
  apply andb_true_iff in Hs. destruct Hs as [Hps Hcs].
  pose proof (proj1 (forallb_forall _ _) Hps) as Hall.
  pose proof (proj1 (forallb_forall _ _) Hcs) as Hallc.
  split; [apply Hall; exact Hp|].
  cbn [node_struct_bytes node_strings_bytes name properties children] in *.
  pose proof (strlen_nonneg nm).
  pose proof (round_up4_bounds (strlen nm + 1) ltac:(lia)).
  assert (Pp : forall x, In x ps -> 0 <= prop_size x).
  { intros x Hx. specialize (Hall x Hx). unfold size_is_uint32 in Hall.
    apply andb_true_iff in Hall. destruct Hall as [Hl _]. apply Z.leb_le in Hl.
    exact Hl. }
  assert (Ps : forall x, In x ps -> 0 <= prop_struct_bytes x).
  { intros x Hx. pose proof (prop_struct_bytes_pos x (Pp x Hx)). lia. }
  assert (Pn : forall x, In x ps -> 0 <= prop_strings_bytes x).
  { intros x _. unfold prop_strings_bytes.
    pose proof (strlen_nonneg (prop_name x)). lia. }
  pose proof (sumZ_member prop_struct_bytes ps p Ps Hp) as B1.
  pose proof (sumZ_member prop_strings_bytes ps p Pn Hp) as B2.
  fold (props_struct_bytes ps) in B1. fold (props_strings_bytes ps) in B2.
  assert (0 <= sumZ (map node_struct_bytes cs)).
  { clear -Hallc. induction cs as [|c cs IH]; cbn [map sumZ]; [lia|].
    pose proof (proj1 (node_bytes_nonneg c (Hallc c (or_introl eq_refl)))).
    assert (0 <= sumZ (map node_struct_bytes cs)); [|lia].
    apply IH. intros x Hx. apply Hallc. right. exact Hx. }
  assert (0 <= sumZ (map node_strings_bytes cs)).
  { clear -Hallc. induction cs as [|c cs IH]; cbn [map sumZ]; [lia|].
    pose proof (proj2 (node_bytes_nonneg c (Hallc c (or_introl eq_refl)))).
    assert (0 <= sumZ (map node_strings_bytes cs)); [|lia].
    apply IH. intros x Hx. apply Hallc. right. exact Hx. }
  lia.
Qed.

(** The bytes [dt_flatten] leaves in the blob: the preserved header but
    for the fields it patches, the reserve map with the entry that ends it,
    the end token behind the structure block and, for a tree whose strings
    and values are there, the structure block and the strings block. *)
Lemma dt_flatten_emits tree r m :
  fits tree r (2 ^ 32) ->
  exists blob,
    dt_flatten tree m = Some blob /\
    (forall x, 0 <= x < header_size tree ->
       ~ (hdr_totalsize <= x < hdr_reserve_map_offset) ->
       ~ (hdr_strings_size <= x < sizeof_FdtHeader) ->
       blob x = header tree x) /\
    agrees blob (header_size tree) (written (map_image (reserve_map tree))) /\
    be32toh_at blob (header_size tree
                     + 16 * (Z.of_nat (List.length (reserve_map tree)) + 1)
                     + node_struct_bytes r) = TokenEnd /\
    (wf_node r = true ->
     agrees blob (header_size tree + 16 * (Z.of_nat (List.length (reserve_map tree)) + 1))
       (node_image r 0) /\
     agrees blob (header_size tree + 16 * (Z.of_nat (List.length (reserve_map tree)) + 1)
                  + node_struct_bytes r + 4)
       (written (node_strings r))).
Proof.
  intros (Hr & Hh & Hs & Hb). unfold flat_bytes in Hb.
  unfold sizeof_FdtHeader in *.
  pose proof (node_bytes_nonneg r Hs) as [N1 N2].
  assert (Esz : dt_flat_node_size r (0, 0) = (node_struct_bytes r, node_strings_bytes r)).
  { rewrite dt_flat_node_size_exact by (try assumption; lia). f_equal; lia. }
  unfold dt_flatten. rewrite Hr, Esz.
  rewrite (wrap32_small (header_size tree)) by lia.
  unfold hdr_totalsize, hdr_structure_offset, hdr_strings_offset,
    hdr_reserve_map_offset, hdr_strings_size, hdr_structure_size in *.
  set (H := header_size tree) in *.
  set (R := reserve_map tree) in *.
  pose proof (map_image_length R) as LM.
  pose proof (map_entries_length R) as LE.
  set (n := Z.of_nat (List.length R)) in *.
  assert (Hn : 0 <= n) by (subst n; lia).
  set (m0 := store_bytes m 0 (load_bytes (header tree) 0 (Z.to_nat H))).
  assert (P0 : forall x, 0 <= x < H -> m0 x = header tree x).
  { intros x Hx. subst m0.
    replace x with (0 + Z.of_nat (Z.to_nat x)) at 1 by lia.
    rewrite store_bytes_inside by (rewrite load_bytes_length; lia).
    rewrite nth_load_bytes by lia. f_equal. lia. }
  clearbody m0.
  destruct (dt_flatten_map_fold R m0 H) as [C1 F1].
  pose proof (dt_flatten_map_image R m0 H) as A1.
  destruct (fold_left _ R _) as [m1 d1]. cbn [fst snd] in C1, F1, A1. subst d1.
  fold n in F1 |- *.
  set (S0 := H + 16 * n + 8 * 2).
  set (SS := node_struct_bytes r) in *.
  set (ST := node_strings_bytes r) in *.
  set (T0 := S0 + SS + 4).
  pose proof (written32_length S0) as L0.
  pose proof (written32_length T0) as L1.
  assert (LZ : Z.of_nat (List.length (htobe64 0 ++ htobe64 0)) = 16) by reflexivity.
  set (m2 := store_bytes m1 (H + 16 * n) (htobe64 0 ++ htobe64 0)).
  set (m3 := store_bytes m2 8 (htobe32 S0)).
  set (m4 := store_bytes m3 36 (htobe32 SS)).
  set (m5 := store_bytes m4 (S0 + SS) (htobe32 TokenEnd)).
  set (m6 := store_bytes m5 12 (htobe32 T0)).
  set (m7 := store_bytes m6 32 (htobe32 ST)).
  assert (Q3 : agrees m7 (S0 + SS) (written (htobe32 TokenEnd))).
  { subst m7 m6 m5.
    do 2 (apply agrees_store32_other; [|rewrite ?written32_length; subst T0 S0; lia]).
    apply agrees_store. }
  assert (Q4 : agrees m7 H (written (map_image R))).
  { subst m7 m6 m5 m4 m3.
    do 5 (apply agrees_store32_other; [|subst T0 S0; lia]).
    unfold map_image. rewrite written_app. apply agrees_app. split.
    - subst m2. apply agrees_store_other; [exact A1|]. rewrite written_length. lia.
    - rewrite written_length, LE. subst m2. apply agrees_store. }
  assert (Q7 : forall x, 0 <= x < H -> ~ (4 <= x < 16) -> ~ (32 <= x < 40) ->
                         m7 x = header tree x).
  { intros x Hx X1 X2. subst m7 m6 m5 m4 m3 m2.
    rewrite !store32_outside by (subst T0 S0; lia).
    rewrite store_bytes_outside by lia.
    rewrite (F1 x) by lia. apply P0. lia. }
  clearbody m7. clear m2 m3 m4 m5 m6.
  pose proof (fun Hw => dt_flatten_node_image r T0 m7 S0 T0 Hw ltac:(lia) ltac:(lia)
                          ltac:(lia) ltac:(subst T0; lia)) as AB.
  destruct (dt_flatten_node_cursors r T0 m7 S0 T0 Hs ltac:(lia)) as (_ & _ & F8).
  destruct (dt_flatten_node r T0 (m7, S0, T0)) as [[m8 ds8] dstr8].
  cbn [fst] in AB, F8. rewrite Z.sub_diag in AB.
  fold SS in F8. fold ST in F8.
  eexists. split; [reflexivity|].
  replace (H + 16 * (n + 1)) with S0 by (subst S0; lia). fold T0.
  split; [|split; [|split]].
  - intros x Hx X1 X2. rewrite store32_outside by lia.
    rewrite (F8 x) by (subst T0 S0; lia). apply Q7; lia.
  - apply agrees_store32_other; [|subst T0 S0; lia].
    eapply agrees_frame; [exact Q4|exact F8| |]; subst T0 S0; lia.
  - rewrite <- (wrap32_small TokenEnd) by (unfold TokenEnd; lia).
    apply (agrees_be32 _ _ _ []). rewrite app_nil_r.
    apply agrees_store32_other; [|rewrite ?written32_length; subst T0 S0; lia].
    eapply agrees_frame; [exact Q3|exact F8| |]; rewrite ?written32_length;
      subst T0 S0; lia.
  - intros Hw. destruct (AB Hw) as [A8 B8].
    assert (LI : Z.of_nat (List.length (node_image r 0)) = SS)
      by (apply node_image_length; exact Hw).
    assert (LS : Z.of_nat (List.length (written (node_strings r))) = ST)
      by (rewrite written_length; apply node_strings_length).
    split.
    + apply agrees_store32_other; [exact A8|]. subst T0 S0. lia.
    + apply agrees_store32_other; [exact B8|]. subst T0 S0. lia.
Qed.

(** C2, with the conditions the code needs.  For a tree with a root whose
    preserved header holds the whole [FdtHeader] and whose flattening fits
    32 bits, [dt_flat_size] is the exact byte count of the flattened tree;
    [dt_flatten] writes at no offset at or beyond it (nor before the
    destination), and the [totalsize] field it leaves in the output header
    is that count.  The emitting traversal moves the structure cursor and
    the strings cursor by the two amounts the measuring traversal computes,
    for the root and for every node and every property of the tree.  The
    bytes emitted are the preserved header (but for the fields patched),
    the reserve map with the entry that ends it, the structure block, the
    end token and the strings block, one behind the other, and the last
    byte of the strings block is the one before offset [dt_flat_size];
    the structure block holds the nodes and properties in depth-first
    order, the strings block their names in the same order. *)
Theorem dt_flatten_size_exact (tree : DeviceTree) (r : DeviceTreeNode) (m : memory) :
  fits tree r (2 ^ 32) ->
  dt_flat_size tree = Some (flat_bytes tree r) /\
  (forall strings_base m0 dstruct dstrings,
     let st := dt_flatten_node r strings_base (m0, dstruct, dstrings) in
     let sz := dt_flat_node_size r (0, 0) in
     snd (fst st) = dstruct + fst sz /\ snd st = dstrings + snd sz /\
     fst sz = node_struct_bytes r /\ snd sz = node_strings_bytes r) /\
  (forall q n strings_base m0 dstruct dstrings,
     node_at r q = Some n ->
     (let st := dt_flatten_node n strings_base (m0, dstruct, dstrings) in
      let sz := dt_flat_node_size n (0, 0) in
      snd (fst st) = dstruct + fst sz /\ snd st = dstrings + snd sz) /\
     (forall p, In p (properties n) ->
        let st := dt_flatten_prop p strings_base (m0, dstruct, dstrings) in
        let sz := dt_flat_prop_size p (0, 0) in
        snd (fst st) = dstruct + fst sz /\ snd st = dstrings + snd sz)) /\
  exists m',
    dt_flatten tree m = Some m' /\
    same_outside m m' 0 (flat_bytes tree r) /\
    be32toh_at m' hdr_totalsize = flat_bytes tree r /\
    let map_start := header_size tree in
    let struct_start := map_start + Z.of_nat (List.length (map_image (reserve_map tree))) in
    let strings_start := struct_start + node_struct_bytes r + 4 in
    (forall x, 0 <= x < header_size tree ->
       ~ (hdr_totalsize <= x < hdr_reserve_map_offset) ->
       ~ (hdr_strings_size <= x < sizeof_FdtHeader) ->
       m' x = header tree x) /\
    agrees m' map_start (written (map_image (reserve_map tree))) /\
    be32toh_at m' (struct_start + node_struct_bytes r) = TokenEnd /\
    strings_start + node_strings_bytes r = flat_bytes tree r /\
    (wf_node r = true ->
     agrees m' struct_start (node_image r 0) /\
     Z.of_nat (List.length (node_image r 0)) = node_struct_bytes r /\
     agrees m' strings_start (written (node_strings r)) /\
     Z.of_nat (List.length (node_strings r)) = node_strings_bytes r).
Proof.
  intros Hfit. split; [apply dt_flat_size_exact; exact Hfit|].
  destruct (dt_flatten_bounds tree r m Hfit) as (m' & Hf & Ho & Et).
  destruct (dt_flatten_emits tree r m Hfit) as (blob & Hf' & Eh & Am & Ee & Aw).
  rewrite Hf in Hf'. apply some_eq in Hf'. subst blob.
  destruct Hfit as (Hr & Hh & Hs & Hb). unfold flat_bytes in *.
  unfold sizeof_FdtHeader in Hh.
  pose proof (node_bytes_nonneg r Hs) as [N1 N2].
  assert (Ex : forall n,
            sizes_are_uint32 n = true ->
            node_struct_bytes n <= node_struct_bytes r ->
            node_strings_bytes n <= node_strings_bytes r ->
            dt_flat_node_size n (0, 0) = (node_struct_bytes n, node_strings_bytes n)).
  { intros n Hn B1 B2. pose proof (node_bytes_nonneg n Hn) as [M1 M2].
    rewrite dt_flat_node_size_exact by (try assumption; lia). f_equal; lia. }
  split; [|split].
  - intros sb m0 ds dstr. cbv zeta. rewrite (Ex r Hs) by lia. cbn [fst snd].
    destruct (dt_flatten_node_cursors r sb m0 ds dstr Hs ltac:(lia)) as (C1 & C2 & _).
    repeat split; assumption.
  - intros q n sb m0 ds dstr N.
    destruct (node_at_bytes q r n N Hs) as (Hn & B1 & B2).
    pose proof (node_bytes_nonneg n Hn) as [M1 M2].
    split.
    + cbv zeta. rewrite (Ex n Hn B1 B2). cbn [fst snd].
      destruct (dt_flatten_node_cursors n sb m0 ds dstr Hn ltac:(lia)) as (C1 & C2 & _).
      split; assumption.
    + intros p Hp. cbv zeta.
      destruct (property_bytes n p Hp Hn) as (Sp & P1 & P2).
      assert (Rp : 0 <= prop_size p).
      { unfold size_is_uint32 in Sp. apply andb_true_iff in Sp.
        destruct Sp as [Sl _]. apply Z.leb_le in Sl. exact Sl. }
      pose proof (prop_struct_bytes_pos p Rp) as Q1.
      assert (Q2 : 1 <= prop_strings_bytes p).
      { unfold prop_strings_bytes. pose proof (strlen_nonneg (prop_name p)). lia. }
      rewrite dt_flat_prop_size_exact by (try assumption; lia). cbn [fst snd].
      destruct (dt_flatten_prop_cursors p sb m0 ds dstr Sp
                  ltac:(unfold prop_struct_bytes in P1; lia)) as (C1 & C2 & _).
      split; [rewrite C1; lia | rewrite C2; lia].
  - exists m'. split; [exact Hf|]. split; [exact Ho|]. split; [exact Et|].
    cbv zeta.
    pose proof (map_image_length (reserve_map tree)) as LM.
    rewrite written_length in LM. rewrite LM.
    split; [exact Eh|]. split; [exact Am|]. split; [exact Ee|].
    split; [lia|].
    intros Hw. destruct (Aw Hw) as [A1 A2].
    split; [exact A1|]. split; [apply node_image_length; exact Hw|].
    split; [exact A2 | apply node_strings_length].
Qed.

Lemma dt_flatten_size_exact_witness :
  dt_flat_size example_tree = Some 232 /\
  exists m',
    dt_flatten example_tree (fun _ => xff) = Some m' /\
    same_outside (fun _ => xff) m' 0 232 /\
    be32toh_at m' hdr_totalsize = 232 /\
    agrees m' 72 (node_image example_root 0) /\
    agrees m' 200 (written (node_strings example_root)).
Proof.
  assert (Hfit : fits example_tree example_root (2 ^ 32)).
  { repeat split; try reflexivity; vm_compute; discriminate. }
  destruct (dt_flatten_size_exact example_tree example_root (fun _ => xff) Hfit)
    as (A & _ & _ & m' & F & O & T & _ & _ & _ & _ & W).
  destruct (W eq_refl) as (W1 & _ & W2 & _).
  split; [exact A|]. exists m'.
  split; [exact F|]. split; [exact O|]. split; [exact T|].
  split; [exact W1 | exact W2].
Defined.

(** C2 as stated fails for a tree whose preserved header is shorter than
    [FdtHeader]: with a header size of 0, no reserve map entry and a root
    without properties and children, [dt_flat_size] is 32, and [dt_flatten]
    stores the structure size at the offsets 36 to 39, beyond the 32 bytes
    measured. *)
Lemma dt_flatten_size_exact_counterexample :
  let tree := mkTree (fun _ => x00) 0 [] (Some (mkNode "" [] [])) in
  dt_flat_size tree = Some 32 /\
  exists blob,
    dt_flatten tree (fun _ => xff) = Some blob /\
    32 <= 39 /\ blob 39 = x0c /\ blob 39 <> (fun _ : Z => xff) 39.
Proof.
  cbv zeta. split; [reflexivity|].
  eexists. split; [reflexivity|].
  split; [lia|]. split; [reflexivity | discriminate].
Qed.

(** C1. Unflattening the blob that [dt_flatten] makes of a well-formed
    tree gives that tree back: the same header size, the same reserve map
    entries in the same order, and a root whose pointers denote the same
    node names in the same child order and the same property names, sizes
    and values in the same property order.  The value of a property is the
    [size] bytes behind its data pointer; a tree whose value buffers have
    exactly [size] bytes comes back identical. *)
Theorem fdt_unflatten_dt_flatten (tree : DeviceTree) (r : DeviceTreeNode) (m : memory) :
  well_formed tree r ->
  exists blob,
    dt_flatten tree m = Some blob /\
    (exists fuel0, forall fuel, (fuel0 <= fuel)%nat ->
       exists bt,
         fdt_unflatten fuel blob = Some bt /\
         resolve_tree fuel bt
         = Some (mkTree blob (header_size tree) (reserve_map tree)
                   (Some (canon_node r)))) /\
    (values_exact r = true -> canon_node r = r).
Proof.
  intros Hwf.
  destruct (dt_flatten_blob tree r m Hwf) as (blob & Hf & E1 & E2 & E3 & Am & As & At).
  destruct Hwf as ((Hr & Hh & Hs & Hb) & Hw & He & Hm). unfold flat_bytes in Hb.
  unfold sizeof_FdtHeader in Hh.
  pose proof (node_bytes_nonneg r Hs) as [N1 N2].
  set (H := header_size tree) in *.
  set (R := reserve_map tree) in *.
  set (n := Z.of_nat (List.length R)) in *.
  assert (Hn : 0 <= n) by (subst n; lia).
  set (S0 := H + 16 * (n + 1)) in *.
  set (T0 := S0 + node_struct_bytes r + 4) in *.
  exists blob. split; [exact Hf|]. split; [|apply canon_exact].
  rewrite <- (Z.add_0_r T0) in At.
  destruct (fdt_unflatten_node_image r blob S0 0 T0 Hw As At E2 ltac:(subst S0; lia)
              ltac:(subst S0; lia) ltac:(lia) ltac:(subst T0 S0; lia)
              ltac:(subst T0 S0; lia)) as (f0 & Hf0).
  exists (Nat.max f0 (S (List.length R))). intros fuel Hfuel.
  destruct (Hf0 fuel ltac:(lia)) as (bn & U & Rs).
  exists (mkTree blob H R (Some bn)). split.
  - unfold fdt_unflatten. rewrite E1, E2, E3.
    rewrite (fdt_unflatten_map_image R blob H fuel [] He Am ltac:(lia)
               ltac:(subst T0 S0; lia) ltac:(lia)).
    rewrite U. cbn [app]. f_equal. f_equal. subst T0 S0. lia.
  - unfold resolve_tree. cbn [root header header_size reserve_map].
    rewrite (Rs fuel ltac:(lia)). reflexivity.
Qed.

(** On the blob of a well-formed tree both [fdt_skip_node] and
    [fdt_unflatten_node], started at the structure offset of the header,
    return the size of the structure block less its end token, which is the
    [structure_size] the header holds. *)
Lemma fdt_skip_node_flattened (tree : DeviceTree) (r : DeviceTreeNode) (m : memory) :
  well_formed tree r ->
  exists blob,
    dt_flatten tree m = Some blob /\
    exists fuel0, forall fuel, (fuel0 <= fuel)%nat ->
      fdt_skip_node fuel blob (be32toh_at blob hdr_structure_offset)
      = Some (node_struct_bytes r) /\
      option_map fst (fdt_unflatten_node fuel blob (be32toh_at blob hdr_structure_offset))
      = Some (node_struct_bytes r).
Proof.
  intros Hwf.
  destruct (dt_flatten_blob tree r m Hwf) as (blob & Hf & E1 & E2 & _ & _ & As & At).
  destruct Hwf as ((Hr & Hh & Hs & Hb) & Hw & _ & _). unfold flat_bytes in Hb.
  unfold sizeof_FdtHeader in Hh.
  pose proof (node_bytes_nonneg r Hs) as [N1 N2].
  exists blob. split; [exact Hf|]. rewrite E1.
  set (S0 := header_size tree + 16 * (Z.of_nat (List.length (reserve_map tree)) + 1)) in *.
  set (T0 := S0 + node_struct_bytes r + 4) in *.
  rewrite <- (Z.add_0_r T0) in At.
  destruct (fdt_unflatten_node_image r blob S0 0 T0 Hw As At E2 ltac:(subst S0; lia)
              ltac:(subst S0; lia) ltac:(lia) ltac:(subst T0 S0; lia)
              ltac:(subst T0 S0; lia)) as (f0 & Hf0).
  exists f0. intros fuel Hfuel. destruct (Hf0 fuel Hfuel) as (bn & U & _).
  rewrite (proj1 (fdt_skip_unflatten fuel)), U. split; reflexivity.
Qed.

(** C9. [fdt_skip_node] returns the byte count [fdt_unflatten_node]
    returns at the same offset of the same blob: with the same allowance of
    calls and loop rounds the two end together and with the same count, and
    a larger allowance does not change the count.  When the token at the
    offset is not a begin-node token both return 0 and no node is built.
    On the blob [dt_flatten] makes of a well-formed tree both return, given
    allowance enough, at the offset of the root node, with one count: the
    bytes of the root node in the structure block, which are 8 at least. *)
Theorem fdt_skip_node_consumes_as_unflatten :
  (forall fuel blob start_offset,
     fdt_skip_node fuel blob start_offset
     = option_map fst (fdt_unflatten_node fuel blob start_offset)) /\
  (forall fuel fuel' blob start_offset size,
     (fuel <= fuel')%nat ->
     fdt_skip_node fuel blob start_offset = Some size ->
     fdt_skip_node fuel' blob start_offset = Some size /\
     option_map fst (fdt_unflatten_node fuel' blob start_offset) = Some size) /\
  (forall fuel blob start_offset,
     be32toh_at blob (wrap32 start_offset) <> TokenBeginNode ->
     fdt_skip_node (S fuel) blob start_offset = Some 0 /\
     fdt_unflatten_node (S fuel) blob start_offset = Some (0, None)) /\
  (forall tree r m,
     well_formed tree r ->
     exists blob,
       dt_flatten tree m = Some blob /\
       8 <= node_struct_bytes r /\
       exists fuel0, forall fuel, (fuel0 <= fuel)%nat ->
         fdt_skip_node fuel blob (be32toh_at blob hdr_structure_offset)
         = Some (node_struct_bytes r) /\
         option_map fst
           (fdt_unflatten_node fuel blob (be32toh_at blob hdr_structure_offset))
         = Some (node_struct_bytes r)).
Proof.
  split; [intros fuel blob start_offset; apply fdt_skip_unflatten|].
  split; [|split].
  - intros fuel fuel' blob start_offset size Hle H.
    pose proof (proj1 (fdt_skip_mono fuel) fuel' blob start_offset size Hle H) as H'.
    split; [exact H'|]. rewrite <- (proj1 (fdt_skip_unflatten fuel')). exact H'.
  - intros fuel blob start_offset H. simpl. unfold fdt_node_name.
    rewrite wrap32_wrap_int.
    destruct (Z.eqb_spec (be32toh_at blob (wrap32 start_offset)) TokenBeginNode) as [E|E];
      [contradiction|].
    simpl. split; reflexivity.
  - intros tree r m Hwf.
    destruct (fdt_skip_node_flattened tree r m Hwf) as (blob & F & f0 & Hf0).
    exists blob. split; [exact F|]. split.
    + destruct Hwf as ((_ & _ & Hs & _) & _). apply (node_bytes_nonneg r Hs).
    + exists f0. exact Hf0.
Qed.

Lemma fdt_skip_node_consumes_as_unflatten_witness :
  (fdt_skip_node 1 (fun _ => x00) 0 = Some 0 /\
   fdt_unflatten_node 1 (fun _ => x00) 0 = Some (0, None)) /\
  (fdt_skip_node 20 example_flat 72 = Some 124 /\
   option_map fst (fdt_unflatten_node 20 example_flat 72) = Some 124) /\
  (exists blob,
     dt_flatten example_tree (fun _ => xff) = Some blob /\
     exists fuel0, forall fuel, (fuel0 <= fuel)%nat ->
       fdt_skip_node fuel blob (be32toh_at blob hdr_structure_offset) = Some 124 /\
       option_map fst
         (fdt_unflatten_node fuel blob (be32toh_at blob hdr_structure_offset))
       = Some 124).
Proof.
  destruct fdt_skip_node_consumes_as_unflatten as (_ & M & Z0 & F).
  split; [|split].
  - apply (Z0 O (fun _ => x00) 0). vm_compute. discriminate.
  - apply (M 12%nat 20%nat example_flat 72 124); [lia|]. vm_compute. reflexivity.
  - assert (Hwf : well_formed example_tree example_root).
    { repeat split; try reflexivity; vm_compute; discriminate. }
    destruct (F example_tree example_root (fun _ => xff) Hwf) as (blob & Hf & _ & R).
    exists blob. split; [exact Hf | exact R].
Defined.

Lemma fdt_unflatten_dt_flatten_witness :
  exists blob,
    dt_flatten example_tree (fun _ => xff) = Some blob /\
    exists fuel0, forall fuel, (fuel0 <= fuel)%nat ->
      exists bt,
        fdt_unflatten fuel blob = Some bt /\
        resolve_tree fuel bt
        = Some (mkTree blob 40 [mkEntry 4096 512] (Some example_root)).
Proof.
  assert (Hwf : well_formed example_tree example_root).
  { repeat split; try reflexivity; vm_compute; discriminate. }
  destruct (fdt_unflatten_dt_flatten example_tree example_root (fun _ => xff) Hwf)
    as (blob & Hf & (f0 & Hf0) & Hc).
  exists blob. split; [exact Hf|]. exists f0. intros fuel Hle.
  destruct (Hf0 fuel Hle) as (bt & U & Rs). exists bt. split; [exact U|].
  rewrite Rs, (Hc eq_refl). reflexivity.
Defined.

(** The example tree, flattened over a buffer of [0xff] bytes and read
    back: the root, the reserve map and the header size return, and
    skipping the root consumes the structure block but its end token. *)
Example example_round_trip :
  match dt_flatten example_tree (fun _ => xff) with
  | Some blob =>
      match fdt_unflatten 20 blob with
      | Some bt =>
          option_map (fun t => (header_size t, reserve_map t, root t))
            (resolve_tree 20 bt)
          = Some (40, [mkEntry 4096 512], Some example_root) /\
          fdt_skip_node 20 blob (be32toh_at blob hdr_structure_offset) = Some 124 /\
          be32toh_at blob hdr_structure_size = 124
      | None => False
      end
  | None => False
  end.
Proof. vm_compute. repeat split. Qed.

(** ** Cell properties *)

Lemma dt_read_cell_props_fold props c :
  fold_left dt_read_cell_props_step props c
  = (option_map (last_cell props "#address-cells") (fst c),
     option_map (last_cell props "#size-cells") (snd c)).
Proof.
  induction props as [|p props IH] using rev_ind.
  - destruct c as [[a|] [s|]]; reflexivity.
  - rewrite fold_left_app. cbn [fold_left]. rewrite IH.
    unfold dt_read_cell_props_step, last_cell. cbn [fst snd].
    rewrite rev_unit. cbn [find].
    destruct c as [[a|] [s|]]; cbn [option_map fst snd];
      destruct (String.eqb "#address-cells" (prop_name p));
      destruct (String.eqb "#size-cells" (prop_name p)); reflexivity.
Qed.

(** X1. On a node whose cell properties hold at least four bytes each,
    [dt_read_cell_props] leaves behind each pointer that is not [NULL]
    the big-endian word of the last property of the node that is named
    ["#address-cells"] (for [addrcp]) or ["#size-cells"] (for [sizecp]);
    a cell whose name no property of the node carries keeps its value, and
    a [NULL] pointer stays [NULL]. *)
Theorem dt_read_cell_props_last (node : DeviceTreeNode) (c : cells) :
  cell_values_present node c = true ->
  dt_read_cell_props node c
  = (option_map (last_cell (properties node) "#address-cells") (fst c),
     option_map (last_cell (properties node) "#size-cells") (snd c)).
Proof. intros _. apply dt_read_cell_props_fold. Qed.

Lemma dt_read_cell_props_last_witness :
  cell_values_present example_soc_root (Some 0, Some 0) = true /\
  dt_read_cell_props example_soc_root (Some 0, Some 0) = (Some 2, Some 1).
Proof.
  split; [reflexivity|].
  exact (dt_read_cell_props_last example_soc_root (Some 0, Some 0) eq_refl).
Defined.

(** ** Path lookup without creation *)

Lemma distinct_nth (l : list DeviceTreeNode) :
  forall i j a b,
    distinct (map name l) = true ->
    nth_error l i = Some a -> nth_error l j = Some b -> name a = name b -> i = j.
Proof.
  induction l as [|x l IH]; intros i j a b D Hi Hj E.
  - destruct i; discriminate.
  - cbn [map distinct] in D. apply andb_true_iff in D. destruct D as [Dx D].
    apply negb_true_iff in Dx.
    assert (N : forall k y, nth_error l k = Some y -> name y <> name x).
    { intros k y Hk Ey.
      assert (X : existsb (String.eqb (name x)) (map name l) = true).
      { apply existsb_exists. exists (name y). split.
        - apply in_map. apply (nth_error_In _ _ Hk).
        - rewrite Ey. apply String.eqb_refl. }
      rewrite X in Dx. discriminate. }
    destruct i as [|i], j as [|j]; simpl in Hi, Hj.
    + reflexivity.
    + inversion Hi; subst. exfalso. apply (N j b Hj). symmetry. exact E.
    + inversion Hj; subst. exfalso. apply (N i a Hi). exact E.
    + f_equal. apply (IH i j a b D Hi Hj E).
Qed.

Lemma find_child_absent l nm : find_child l nm = None -> no_child_named l nm.
Proof.
  induction l as [|c l IH]; simpl; intros H ch Hin; [contradiction|].
  destruct (String.eqb_spec (name c) nm) as [E|E]; [discriminate|].
  destruct (find_child l nm) as [[i d]|] eqn:F; [discriminate|].
  destruct Hin as [<-|Hin]; [exact E | apply IH; [reflexivity | exact Hin]].
Qed.

(** X2. In a tree no node of which has two children of the same name, a
    lookup that may not create returns a pointer exactly when the nodes it
    leads through carry the path components as their names, in order; so
    it returns [NULL] exactly when no such node exists.  The tree is the
    same after the call. *)
Theorem dt_find_node_lookup (strdup : string -> option string)
    (parent : DeviceTreeNode) (path : list string) (c : cells) (p : node_ptr) :
  distinct_siblings parent = true ->
  fst (fst (dt_find_node strdup parent path c false)) = parent /\
  (snd (dt_find_node strdup parent path c false) = Some p <->
   names_along parent p = Some path).
Proof.
  intros D. split; [apply dt_find_node_readonly|].
  revert parent c p D. induction path as [|comp path IH]; intros parent c p D.
  - simpl. split.
    + intros H. inversion H. reflexivity.
    + destruct p as [|i p]; [reflexivity|]. simpl.
      destruct (nth_error (children parent) i) as [d|]; [|discriminate].
      destruct (names_along d p); discriminate.
  - cbn [dt_find_node].
    destruct parent as [nm ps cs]. cbn [distinct_siblings children] in D.
    apply andb_true_iff in D. destruct D as [D1 D2].
    rewrite forallb_forall in D2. cbn [children].
    destruct (find_child cs comp) as [[i found]|] eqn:F.
    + pose proof (find_child_some _ _ _ _ F) as [Fi Fn].
      assert (Df : distinct_siblings found = true).
      { apply D2. apply (nth_error_In _ _ Fi). }
      specialize (IH found (dt_read_cell_props (mkNode nm ps cs) c)).
      destruct (dt_find_node strdup found path _ false) as [[f' c'] r].
      cbn [snd] in *. split.
      * destruct r as [q|]; [|discriminate]. intros H. inversion H; subst.
        cbn [names_along children]. rewrite Fi.
        rewrite (proj1 (IH q Df) eq_refl). reflexivity.
      * destruct p as [|j q]; cbn [names_along children]; [discriminate|].
        destruct (nth_error cs j) as [ch|] eqn:J; [|discriminate].
        destruct (names_along ch q) as [ns|] eqn:Nq; [|discriminate].
        cbn [option_map]. intros H. inversion H; subst.
        assert (j = i) by (apply (distinct_nth cs j i ch found D1 J Fi); assumption).
        subst j. rewrite Fi in J. inversion J; subst ch.
        rewrite (proj2 (IH q Df) Nq). reflexivity.
    + cbn [negb snd]. split; [discriminate|].
      destruct p as [|j q]; cbn [names_along children]; [discriminate|].
      destruct (nth_error cs j) as [ch|] eqn:J; [|discriminate].
      destruct (names_along ch q) as [ns|]; [|discriminate].
      cbn [option_map]. intros H. inversion H; subst. exfalso.
      apply (find_child_absent _ _ F ch (nth_error_In _ _ J)). reflexivity.
Qed.

Lemma dt_find_node_lookup_witness :
  snd (dt_find_node (fun s => Some s) example_soc_root ["soc"; "i2c"]%string
         (None, None) false) = Some [0; 1]%nat <->
  names_along example_soc_root [0; 1]%nat = Some ["soc"; "i2c"]%string.
Proof.
  apply (dt_find_node_lookup (fun s => Some s) example_soc_root
           ["soc"; "i2c"]%string (None, None) [0; 1]%nat).
  reflexivity.
Defined.

(** ** Creation, then lookup *)

Lemma find_child_list_set l nm i c c' :
  find_child l nm = Some (i, c) -> name c' = nm ->
  find_child (list_set l i c') nm = Some (i, c').
Proof.
  revert i. induction l as [|d l IH]; simpl; intros i H E; [discriminate|].
  destruct (String.eqb_spec (name d) nm) as [En|En].
  - inversion H; subst i c. simpl. rewrite E, String.eqb_refl. reflexivity.
  - destruct (find_child l nm) as [[j e]|] eqn:F; [|discriminate].
    inversion H; subst i c. simpl.
    destruct (String.eqb_spec (name d) nm); [contradiction|].
    rewrite (IH j eq_refl E). reflexivity.
Qed.

Lemma list_set_twice {A} (l : list A) i x y :
  list_set (list_set l i x) i y = list_set l i y.
Proof.
  revert i. induction l as [|z l IH]; intros [|i]; simpl; try reflexivity.
  rewrite IH. reflexivity.
Qed.

(** X3. Once [dt_find_node] has created a path (with [strdup] returning
    its copy), a second call with the same path on the tree it left,
    creating or not, returns the same node and the same cells and leaves
    the tree as it is: the nodes created are the ones a lookup finds. *)
Theorem dt_find_node_create_idempotent (strdup : string -> option string)
    (parent : DeviceTreeNode) (path : list string) (c : cells) (create : bool) :
  (forall s, strdup s = Some s) ->
  let res := dt_find_node strdup parent path c true in
  dt_find_node strdup (fst (fst res)) path c create = res.
Proof.
  intros Hs. cbv zeta. revert parent c.
  induction path as [|comp path IH]; intros parent c; [reflexivity|].
  cbn [dt_find_node].
  destruct (find_child (children parent) comp) as [[i found]|] eqn:F.
  - specialize (IH found (dt_read_cell_props parent c)).
    pose proof (dt_find_node_keeps strdup found path (dt_read_cell_props parent c) true)
      as [Kn _].
    destruct (dt_find_node strdup found path _ true) as [[f' c'] r].
    cbn [fst snd] in *. cbn [dt_find_node].
    change (dt_read_cell_props (set_children parent (list_set (children parent) i f')) c)
      with (dt_read_cell_props parent c).
    cbn [set_children children].
    pose proof (find_child_some _ _ _ _ F) as [_ Fn].
    rewrite (find_child_list_set _ _ _ _ f' F) by congruence.
    rewrite IH. rewrite list_set_twice. reflexivity.
  - cbn [negb]. rewrite Hs.
    set (found := mkNode comp (properties alloc_node) (children alloc_node)).
    specialize (IH found (dt_read_cell_props parent c)).
    pose proof (dt_find_node_keeps strdup found path (dt_read_cell_props parent c) true)
      as [Kn _].
    destruct (dt_find_node strdup found path _ true) as [[f' c'] r].
    cbn [fst snd] in *. cbn [dt_find_node].
    change (dt_read_cell_props
              (set_children parent (list_insert_after_head f' (children parent))) c)
      with (dt_read_cell_props parent c).
    cbn [set_children children list_insert_after_head find_child].
    replace (name f') with comp by (symmetry; exact Kn).
    rewrite String.eqb_refl, IH. reflexivity.
Qed.

Lemma dt_find_node_create_idempotent_witness :
  dt_find_node (fun s => Some s)
    (fst (fst (dt_find_node (fun s => Some s) example_soc_root
                 ["soc"; "spi"; "flash"]%string (Some 0, Some 0) true)))
    ["soc"; "spi"; "flash"]%string (Some 0, Some 0) false
  = dt_find_node (fun s => Some s) example_soc_root
      ["soc"; "spi"; "flash"]%string (Some 0, Some 0) true.
Proof.
  apply (dt_find_node_create_idempotent (fun s => Some s) example_soc_root
           ["soc"; "spi"; "flash"]%string (Some 0, Some 0) false).
  intros s. reflexivity.
Defined.

(** ** The next compatible child *)

Lemma next_compat_loop_search compat l :
  forall i child,
    match next_compat_loop l i child false compat with
    | Some r =>
        (i <= r)%nat /\
        (exists n, nth_error l (r - i) = Some n /\
                   dt_check_compat_match n compat = true) /\
        (forall j n, (i <= j < r)%nat -> nth_error l (j - i) = Some n ->
                     dt_check_compat_match n compat = false)
    | None =>
        forall j n, (i <= j)%nat -> nth_error l (j - i) = Some n ->
                    dt_check_compat_match n compat = false
    end.
Proof.
  induction l as [|x l IH]; intros i child; cbn [next_compat_loop].
  - intros j n _ H. destruct (j - i)%nat; discriminate.
  - destruct (dt_check_compat_match x compat) eqn:X.
    + split; [lia|]. split.
      * exists x. rewrite Nat.sub_diag. split; [reflexivity | exact X].
      * intros j n Hj. lia.
    + specialize (IH (S i) child).
      destruct (next_compat_loop l (S i) child false compat) as [r|].
      * destruct IH as (Hr & (n & Hn & Hc) & Hb). split; [lia|]. split.
        -- exists n. replace (r - i)%nat with (S (r - S i)) by lia.
           split; [exact Hn | exact Hc].
        -- intros j m Hj Hm. destruct (Nat.eq_dec j i) as [->|Hne].
           ++ rewrite Nat.sub_diag in Hm. inversion Hm; subst. exact X.
           ++ replace (j - i)%nat with (S (j - S i)) in Hm by lia.
              apply (Hb j m); [lia | exact Hm].
      * intros j m Hj Hm. destruct (Nat.eq_dec j i) as [->|Hne].
        -- rewrite Nat.sub_diag in Hm. inversion Hm; subst. exact X.
        -- replace (j - i)%nat with (S (j - S i)) in Hm by lia.
           apply (IH j m); [lia | exact Hm].
Qed.

Lemma next_compat_loop_ignore compat l :
  forall i k, (i <= k)%nat ->
    next_compat_loop l i (Some k) true compat
    = next_compat_loop (skipn (S (k - i)) l) (S k) (Some k) false compat.
Proof.
  induction l as [|x l IH]; intros i k H; [reflexivity|].
  cbn [next_compat_loop]. destruct (Nat.eqb_spec k i) as [->|Hne].
  - rewrite Nat.sub_diag. reflexivity.
  - rewrite (IH (S i) k) by lia.
    replace (k - i)%nat with (S (k - S i)) by lia. reflexivity.
Qed.

Lemma dt_find_next_compat_child_spec parent child compat :
  match dt_find_next_compat_child parent child compat with
  | Some i =>
      (match child with Some k => S k | None => O end <= i)%nat /\
      (exists n, nth_error (children parent) i = Some n /\
                 dt_check_compat_match n compat = true) /\
      (forall j n, (match child with Some k => S k | None => O end <= j < i)%nat ->
                   nth_error (children parent) j = Some n ->
                   dt_check_compat_match n compat = false)
  | None =>
      forall j n, (match child with Some k => S k | None => O end <= j)%nat ->
                  nth_error (children parent) j = Some n ->
                  dt_check_compat_match n compat = false
  end.
Proof.
  unfold dt_find_next_compat_child. destruct child as [k|].
  - rewrite next_compat_loop_ignore by lia. rewrite Nat.sub_0_r.
    pose proof (next_compat_loop_search compat (skipn (S k) (children parent))
                  (S k) (Some k)) as H.
    destruct (next_compat_loop _ (S k) (Some k) false compat) as [r|].
    + destruct H as (Hr & (n & Hn & Hc) & Hb). split; [exact Hr|]. split.
      * exists n. rewrite nth_error_skipn in Hn.
        replace (S k + (r - S k))%nat with r in Hn by lia.
        split; [exact Hn | exact Hc].
      * intros j m Hj Hm. apply (Hb j m Hj). rewrite nth_error_skipn.
        replace (S k + (j - S k))%nat with j by lia. exact Hm.
    + intros j m Hj Hm. apply (H j m Hj). rewrite nth_error_skipn.
      replace (S k + (j - S k))%nat with j by lia. exact Hm.
  - pose proof (next_compat_loop_search compat (children parent) O None) as H.
    destruct (next_compat_loop _ O None false compat) as [r|].
    + destruct H as (Hr & (n & Hn & Hc) & Hb). split; [exact Hr|]. split.
      * exists n. rewrite Nat.sub_0_r in Hn. split; [exact Hn | exact Hc].
      * intros j m Hj Hm. apply (Hb j m Hj). rewrite Nat.sub_0_r. exact Hm.
    + intros j m Hj Hm. apply (H j m Hj). rewrite Nat.sub_0_r. exact Hm.
Qed.

(** X4. [dt_find_next_compat_child] returns the first compatible child
    behind the child it is given, the first compatible child of all when
    it is given [NULL]: every child between the given one and the returned
    one is not compatible, and when it returns [NULL] no child behind the
    given one is.  A node that is not a child of the parent makes it return
    [NULL]. *)
Theorem dt_find_next_compat_child_resumes (parent : DeviceTreeNode)
    (child : option nat) (compat : string) :
  let from := match child with Some k => S k | None => O end in
  match dt_find_next_compat_child parent child compat with
  | Some i =>
      (from <= i)%nat /\
      (exists n, nth_error (children parent) i = Some n /\
                 dt_check_compat_match n compat = true) /\
      (forall j n, (from <= j < i)%nat -> nth_error (children parent) j = Some n ->
                   dt_check_compat_match n compat = false)
  | None =>
      forall j n, (from <= j)%nat -> nth_error (children parent) j = Some n ->
                  dt_check_compat_match n compat = false
  end.
Proof. cbv zeta. apply dt_find_next_compat_child_spec. Qed.

(** ** Search by property value *)

Lemma memcmp_eq_refl a n : memcmp_eq a a n = true.
Proof.
  revert a. induction n as [|n IH]; intros a; [reflexivity|].
  cbn [memcmp_eq]. rewrite byte_eqb_refl, IH. reflexivity.
Qed.

Lemma memcmp_eq_firstn n :
  forall a b,
    (n <= List.length a)%nat -> (n <= List.length b)%nat ->
    memcmp_eq a b n = bytes_eqb (firstn n a) (firstn n b).
Proof.
  induction n as [|n IH]; intros a b Ha Hb; [reflexivity|].
  destruct a as [|x a]; [simpl in Ha; lia|].
  destruct b as [|y b]; [simpl in Hb; lia|].
  cbn [memcmp_eq hd tl firstn]. rewrite bytes_eqb_cons, IH; [reflexivity| |];
    simpl in *; lia.
Qed.

Lemma prop_value_loop_find props nm data size :
  Forall value_present props -> (Z.to_nat size <= List.length data)%nat ->
  prop_value_loop props nm data size
  = match find (fun p => String.eqb nm (prop_name p)) props with
    | Some p => (size =? prop_size p) &&
                bytes_eqb (firstn (Z.to_nat size) data) (prop_value p)
    | None => false
    end.
Proof.
  intros Hv Hd. induction Hv as [|p props Hp _ IH]; [reflexivity|].
  cbn [prop_value_loop find].
  destruct (String.eqb nm (prop_name p)); [|exact IH].
  destruct (Z.eqb_spec size (prop_size p)) as [E|E]; [|reflexivity].
  cbn [negb andb]. unfold prop_value. rewrite <- E.
  destruct Hp as [_ Hp]. rewrite <- E in Hp.
  rewrite (memcmp_eq_firstn _ _ _ Hd Hp).
  destruct (bytes_eqb _ _); reflexivity.
Qed.

Lemma find_children_preorder (test : DeviceTreeNode -> bool)
    (search : DeviceTreeNode -> option node_ptr) cs :
  Forall (fun c => search c
                   = option_map fst (find (fun e => test (snd e)) (preorder c))) cs ->
  forall i,
    find_compat_children search cs i
    = option_map fst (find (fun e => test (snd e)) (preorder_children preorder cs i)).
Proof.
  intros H. induction H as [|c cs Hc _ IH]; intros i; [reflexivity|].
  cbn [find_compat_children preorder_children].
  rewrite find_app, find_map. cbn [snd]. rewrite Hc. unfold node_ptr in *.
  match goal with |- context [find ?f (preorder c)] => set (o := find f (preorder c)) end.
  clearbody o. destruct o; [reflexivity | apply IH].
Qed.

Lemma dt_find_prop_value_preorder nm data size parent :
  dt_find_prop_value parent nm data size
  = option_map fst
      (find (fun e => prop_value_loop (properties (snd e)) nm data size)
         (preorder parent)).
Proof.
  induction parent as [n ps cs IH] using DeviceTreeNode_ind'.
  cbn [dt_find_prop_value preorder find snd children properties].
  destruct (prop_value_loop ps nm data size); [reflexivity|].
  apply (find_children_preorder
           (fun m => prop_value_loop (properties m) nm data size)). exact IH.
Qed.

(** X5. [dt_find_prop_value] returns the first node, in depth-first
    pre-order, whose first property of the given name has the given size
    and, as its value, the first [size] bytes of the given data; [NULL]
    when the subtree has no such node.  A node whose first property of that
    name has another size or other bytes is passed over, whatever its
    later properties are.  The pointer returned leads to that node. *)
Theorem dt_find_prop_value_first_match (parent : DeviceTreeNode) (nm : string)
    (data : list byte) (size : Z) :
  values_present parent -> (Z.to_nat size <= List.length data)%nat ->
  dt_find_prop_value parent nm data size
  = option_map fst
      (find (fun e => node_has_value (snd e) nm data size) (preorder parent)) /\
  (forall p, dt_find_prop_value parent nm data size = Some p ->
     exists n, node_at parent p = Some n /\ node_has_value n nm data size = true) /\
  (dt_find_prop_value parent nm data size = None <->
   forall p n, In (p, n) (preorder parent) -> node_has_value n nm data size = false).
Proof.
  intros Hv Hd.
  assert (E : dt_find_prop_value parent nm data size
              = option_map fst (find (fun e => node_has_value (snd e) nm data size)
                                  (preorder parent))).
  { rewrite dt_find_prop_value_preorder. f_equal. apply find_ext_in.
    intros [q m] Hin. cbn [snd]. unfold node_has_value.
    apply prop_value_loop_find; [|exact Hd]. apply (Hv q m Hin). }
  split; [exact E|]. rewrite E. split.
  - intros p Hp.
    destruct (find _ (preorder parent)) as [[q n]|] eqn:F; [|discriminate].
    inversion Hp; subst. apply find_some in F. destruct F as [Hin Hn].
    exists n. split; [apply preorder_node_at; exact Hin | exact Hn].
  - split.
    + intros Hn p n Hin.
      destruct (find _ (preorder parent)) eqn:F; [discriminate|].
      apply (find_none _ _ F (p, n) Hin).
    + intros Hn. destruct (find _ (preorder parent)) as [[q n]|] eqn:F; [|reflexivity].
      apply find_some in F. destruct F as [Hin Hm]. simpl in Hm.
      rewrite (Hn q n Hin) in Hm. discriminate.
Qed.

Lemma dt_find_prop_value_first_match_witness :
  dt_find_prop_value example_soc_root "#address-cells" (htobe32 1) 4 = Some [0%nat].
Proof.
  destruct (dt_find_prop_value_first_match example_soc_root "#address-cells"
              (htobe32 1) 4) as (E & _).
  - intros q m H. simpl in H.
    repeat (destruct H as [H|H]; [inversion H; subst; clear H|]);
      try contradiction;
      repeat constructor; simpl; lia.
  - simpl. lia.
  - exact E.
Defined.

Lemma prop_value_loop_update props nm data size :
  0 <= size < 2 ^ 32 ->
  prop_value_loop
    (match bin_prop_update props nm (Some data) size with
     | Some props' => props'
     | None => mkProp nm (Some data) (wrap32 size) :: props
     end) nm data size = true.
Proof.
  intros Hs.
  assert (Hit : forall rest,
            prop_value_loop (mkProp nm (Some data) (wrap32 size) :: rest) nm data size
            = true).
  { intros rest. cbn [prop_value_loop prop_name prop_size prop_data data_bytes].
    rewrite String.eqb_refl, (wrap32_small _ Hs), Z.eqb_refl, memcmp_eq_refl.
    reflexivity. }
  destruct (bin_prop_update props nm (Some data) size) as [props'|] eqn:E;
    [|apply Hit].
  revert props' E. induction props as [|p props IH]; intros props' E; simpl in E;
    [discriminate|].
  destruct (String.eqb_spec (prop_name p) nm) as [En|En].
  - inversion E; subst. apply Hit.
  - destruct (bin_prop_update props nm (Some data) size) as [q|]; [|discriminate].
    inversion E; subst. cbn [prop_value_loop].
    destruct (String.eqb_spec nm (prop_name p)) as [Em|Em]; [congruence|].
    apply IH. reflexivity.
Qed.

Lemma dt_find_prop_value_unfold parent nm data size :
  dt_find_prop_value parent nm data size
  = if prop_value_loop (properties parent) nm data size then Some []
    else find_compat_children (fun child => dt_find_prop_value child nm data size)
           (children parent) O.
Proof. destruct parent; reflexivity. Qed.

(** X6. A node that [dt_add_bin_prop] has given a value under a name is
    what [dt_find_prop_value] returns for that name and value, whatever the
    node had before and whatever is below it. *)
Theorem dt_find_prop_value_after_add (node : DeviceTreeNode) (nm : string)
    (data : list byte) (size : Z) :
  0 <= size < 2 ^ 32 ->
  dt_find_prop_value (dt_add_bin_prop node nm (Some data) size) nm data size = Some [].
Proof.
  intros Hs. rewrite dt_find_prop_value_unfold.
  pose proof (prop_value_loop_update (properties node) nm data size Hs) as H.
  unfold dt_add_bin_prop.
  destruct (bin_prop_update (properties node) nm (Some data) size);
    unfold list_insert_after_head; cbn [set_properties properties];
    rewrite H; reflexivity.
Qed.

Lemma dt_find_prop_value_after_add_witness :
  dt_find_prop_value
    (dt_add_bin_prop example_soc_root "#size-cells" (Some (htobe32 2)) 4)
    "#size-cells" (htobe32 2) 4 = Some [].
Proof.
  apply (dt_find_prop_value_after_add example_soc_root "#size-cells" (htobe32 2) 4).
  lia.
Defined.

(** ** The properties of a node as a map *)

Lemma find_other_update props nm data size nm' out :
  nm' <> nm ->
  find_bin_prop_loop
    (match bin_prop_update props nm data size with
     | Some props' => props'
     | None => mkProp nm data (wrap32 size) :: props
     end) nm' out
  = find_bin_prop_loop props nm' out.
Proof.
  intros Hne.
  destruct (bin_prop_update props nm data size) as [props'|] eqn:E.
  - revert props' E. induction props as [|p props IH]; intros props' E; simpl in E;
      [discriminate|].
    destruct (String.eqb_spec (prop_name p) nm) as [En|En].
    + inversion E; subst. cbn [find_bin_prop_loop prop_name].
      destruct (String.eqb_spec (prop_name p) nm'); [congruence | reflexivity].
    + destruct (bin_prop_update props nm data size) as [q|]; [|discriminate].
      inversion E; subst. cbn [find_bin_prop_loop].
      destruct (String.eqb (prop_name p) nm'); [reflexivity|].
      apply IH. reflexivity.
  - cbn [find_bin_prop_loop prop_name].
    destruct (String.eqb_spec nm nm'); [congruence | reflexivity].
Qed.

(** X7. The properties of a node behave as a map from names to values:
    after [dt_add_bin_prop] has set a name, [dt_find_bin_prop] returns the
    new data and size for that name, and for every other name what it
    returned before. *)
Theorem dt_find_bin_prop_after_add (node : DeviceTreeNode) (nm : string)
    (data : option (list byte)) (size : Z) (nm' : string) :
  dt_find_bin_prop (dt_add_bin_prop node nm data size) nm'
  = if String.eqb nm' nm then (data, wrap32 size) else dt_find_bin_prop node nm'.
Proof.
  destruct (String.eqb_spec nm' nm) as [->|Hne]; [apply dt_find_after_add|].
  unfold dt_find_bin_prop, dt_add_bin_prop.
  pose proof (find_other_update (properties node) nm data size nm' (None, 0) Hne) as H.
  destruct (bin_prop_update (properties node) nm data size); exact H.
Qed.

(** ** String and integer properties *)

Lemma strncmp_eq_terminated l n : strncmp_eq l (l ++ [x00]) n = true.
Proof.
  revert n. induction l as [|b l IH]; intros [|n]; cbn [strncmp_eq hd tl app];
    try reflexivity.
  rewrite byte_eqb_refl. destruct (Byte.eqb b x00); [reflexivity | apply IH].
Qed.

Lemma dt_check_compat_update props compat data size :
  dt_check_compat_props
    (match bin_prop_update props "compatible" data size with
     | Some props' => props'
     | None => mkProp "compatible" data (wrap32 size) :: props
     end) compat
  = compat_scan (Z.to_nat (wrap32 size)) (c_str compat) (data_bytes data)
      (Z.to_nat (wrap32 size)).
Proof.
  destruct (bin_prop_update props "compatible" data size) as [props'|] eqn:E;
    [|reflexivity].
  revert props' E. induction props as [|p props IH]; intros props' E; simpl in E;
    [discriminate|].
  destruct (String.eqb_spec (prop_name p) "compatible") as [En|En].
  - inversion E; subst. cbn [dt_check_compat_props prop_name].
    rewrite En. reflexivity.
  - destruct (bin_prop_update props "compatible" data size) as [q|]; [|discriminate].
    inversion E; subst. cbn [dt_check_compat_props].
    destruct (String.eqb_spec "compatible" (prop_name p)) as [Em|Em]; [congruence|].
    apply IH. reflexivity.
Qed.

Lemma dt_find_compat_unfold parent compat :
  dt_find_compat parent compat
  = if dt_check_compat_match parent compat then Some []
    else find_compat_children (fun child => dt_find_compat child compat)
           (children parent) O.
Proof. destruct parent; reflexivity. Qed.

(** X8. A node whose ["compatible"] property [dt_add_string_prop] has
    set to a string is compatible with that string: [dt_find_compat] for
    the string, started at the node, returns the node itself. *)
Theorem dt_find_compat_after_add_string (node : DeviceTreeNode) (str : string) :
  strlen str + 1 < 2 ^ 32 ->
  dt_find_compat (dt_add_string_prop node "compatible" str) str = Some [].
Proof.
  intros Hs. rewrite dt_find_compat_unfold.
  assert (H : dt_check_compat_match (dt_add_string_prop node "compatible" str) str
              = true).
  { unfold dt_check_compat_match, dt_add_string_prop, dt_add_bin_prop.
    pose proof (dt_check_compat_update (properties node) str
                  (Some (c_str str ++ [x00])) (strlen str + 1)) as H.
    destruct (bin_prop_update (properties node) "compatible" _ _);
      unfold list_insert_after_head; cbn [set_properties properties]; rewrite H;
      clear H;
      (rewrite wrap32_small by (pose proof (strlen_nonneg str); lia));
      (destruct (Z.to_nat (strlen str + 1)) as [|b] eqn:B;
       [pose proof (strlen_nonneg str); lia|]);
      cbn [compat_scan data_bytes Nat.ltb Nat.leb];
      rewrite strncmp_eq_terminated; reflexivity. }
  rewrite H. reflexivity.
Qed.

Lemma dt_find_compat_after_add_string_witness :
  dt_find_compat (dt_add_string_prop example_soc_root "compatible" "vendor,board")
    "vendor,board" = Some [].
Proof.
  apply (dt_find_compat_after_add_string example_soc_root "vendor,board").
  vm_compute. reflexivity.
Defined.

Lemma find_hd_filter {A} (f : A -> bool) l : find f l = hd_error (filter f l).
Proof.
  induction l as [|x l IH]; [reflexivity|]. simpl.
  destruct (f x); [reflexivity | exact IH].
Qed.

Lemma filter_update_other props nm data size (f : DeviceTreeProperty -> bool) :
  (forall p, prop_name p = nm -> f p = false) ->
  filter f (match bin_prop_update props nm data size with
            | Some props' => props'
            | None => mkProp nm data (wrap32 size) :: props
            end)
  = filter f props.
Proof.
  intros Hf.
  destruct (bin_prop_update props nm data size) as [props'|] eqn:E.
  - revert props' E. induction props as [|p props IH]; intros props' E; simpl in E;
      [discriminate|].
    destruct (String.eqb_spec (prop_name p) nm) as [En|En].
    + inversion E; subst. cbn [filter].
      rewrite (Hf p eq_refl), (Hf (mkProp (prop_name p) data (wrap32 size)) eq_refl).
      reflexivity.
    + destruct (bin_prop_update props nm data size) as [q|]; [|discriminate].
      inversion E; subst. cbn [filter]. rewrite (IH q eq_refl). reflexivity.
  - cbn [filter]. rewrite (Hf (mkProp nm data (wrap32 size)) eq_refl). reflexivity.
Qed.

Lemma filter_update_same props nm data size :
  (List.length (filter (fun p => String.eqb nm (prop_name p)) props) <= 1)%nat ->
  filter (fun p => String.eqb nm (prop_name p))
    (match bin_prop_update props nm data size with
     | Some props' => props'
     | None => mkProp nm data (wrap32 size) :: props
     end)
  = [mkProp nm data (wrap32 size)].
Proof.
  set (f := fun p => String.eqb nm (prop_name p)).
  assert (Hnone : forall l, bin_prop_update l nm data size = None -> filter f l = []).
  { induction l as [|p l IH]; simpl; intros E; [reflexivity|]. subst f. cbn beta.
    destruct (String.eqb_spec (prop_name p) nm) as [En|En]; [discriminate|].
    destruct (String.eqb_spec nm (prop_name p)) as [Em|Em]; [congruence|].
    apply IH. destruct (bin_prop_update l nm data size); [discriminate | reflexivity]. }
  intros Hc.
  destruct (bin_prop_update props nm data size) as [props'|] eqn:E.
  - revert props' E Hc. induction props as [|p props IH]; intros props' E Hc;
      simpl in E; [discriminate|].
    destruct (String.eqb_spec (prop_name p) nm) as [En|En].
    + inversion E; subst. cbn [filter] in *. unfold f in Hc at 1. unfold f at 1.
      cbn [prop_name] in *. rewrite String.eqb_refl in *. f_equal.
      destruct (filter f props); [reflexivity | simpl in Hc; lia].
    + destruct (bin_prop_update props nm data size) as [q|]; [|discriminate].
      inversion E; subst. cbn [filter] in *. unfold f in Hc at 1. unfold f at 1.
      destruct (String.eqb_spec nm (prop_name p)) as [Em|Em]; [congruence|].
      apply IH; [reflexivity | exact Hc].
  - cbn [filter]. unfold f at 1. cbn [prop_name]. rewrite String.eqb_refl.
    rewrite (Hnone props E). reflexivity.
Qed.

(** X9. On a node with at most one property named ["#address-cells"],
    a value set with [dt_add_u32_prop] under that name is the one
    [dt_read_cell_props] reads back (as a 32-bit value), and the cell read
    for ["#size-cells"] is the one read before. *)
Theorem dt_read_cell_props_after_add_u32 (node : DeviceTreeNode) (val : Z)
    (c : cells) :
  (List.length (filter (fun p => String.eqb "#address-cells" (prop_name p))
                  (properties node)) <= 1)%nat ->
  dt_read_cell_props (dt_add_u32_prop node "#address-cells" val) c
  = (option_map (fun _ => wrap32 val) (fst c), snd (dt_read_cell_props node c)).
Proof.
  intros Hc. unfold dt_read_cell_props. rewrite !dt_read_cell_props_fold.
  cbn [snd].
  assert (P : properties (dt_add_u32_prop node "#address-cells" val)
              = match bin_prop_update (properties node) "#address-cells"
                        (Some (htobe32 val)) 4 with
                | Some props' => props'
                | None => mkProp "#address-cells" (Some (htobe32 val)) (wrap32 4)
                          :: properties node
                end).
  { unfold dt_add_u32_prop, dt_add_bin_prop.
    destruct (bin_prop_update (properties node) _ _ _); reflexivity. }
  rewrite P. f_equal.
  - destruct (fst c) as [a|]; [|reflexivity]. cbn [option_map]. f_equal.
    unfold last_cell. rewrite find_hd_filter, filter_rev.
    rewrite (filter_update_same _ _ _ _ Hc). cbn [rev app hd_error prop_data data_bytes].
    apply be32_of_htobe32.
  - destruct (snd c) as [s|]; [|reflexivity]. cbn [option_map]. f_equal.
    unfold last_cell. rewrite !find_hd_filter, !filter_rev.
    rewrite filter_update_other; [reflexivity|].
    intros p ->. reflexivity.
Qed.

Lemma dt_read_cell_props_after_add_u32_witness :
  dt_read_cell_props (dt_add_u32_prop example_soc_root "#address-cells" 3)
    (Some 0, Some 0)
  = (Some 3, Some 1).
Proof.
  apply (dt_read_cell_props_after_add_u32 example_soc_root 3 (Some 0, Some 0)).
  simpl. lia.
Defined.

(** ** Big-endian integers *)

Lemma be_value_app l b : be_value (l ++ [b]) = be_value l * 256 + Z_of_byte b.
Proof. unfold be_value. rewrite fold_left_app. reflexivity. Qed.

Lemma be_value_be_bytes n :
  forall v, be_value (be_bytes n v) = v mod 2 ^ (8 * Z.of_nat n).
Proof.
  induction n as [|n IH]; intros v.
  - simpl. rewrite Z.mod_1_r. reflexivity.
  - cbn [be_bytes]. rewrite be_value_app, IH, Z_of_byte_of_Z.
    rewrite Z.shiftr_div_pow2 by lia.
    replace (8 * Z.of_nat (S n)) with (8 + 8 * Z.of_nat n) by lia.
    rewrite Z.pow_add_r by lia. change (2 ^ 8) with 256.
    rewrite (Z.rem_mul_r v 256 (2 ^ (8 * Z.of_nat n))) by lia. lia.
Qed.

Lemma firstn_exact {A} (l r : list A) n : List.length l = n -> firstn n (l ++ r) = l.
Proof.
  intros <-. rewrite firstn_app, Nat.sub_diag, firstn_all. simpl.
  apply app_nil_r.
Qed.

Lemma skipn_exact {A} (l r : list A) n : List.length l = n -> skipn n (l ++ r) = r.
Proof.
  intros <-. rewrite skipn_app, Nat.sub_diag, skipn_all. reflexivity.
Qed.

(** X10. [dt_write_int] stores the integer big-endian in the [length]
    bytes from [dest] on: read as a number, most significant byte first,
    they are the integer modulo [2 ^ (8 * length)].  The buffer keeps its
    length, and the bytes before and behind the field are untouched. *)
Theorem dt_write_int_big_endian (buf : list byte) (off : nat) (src : Z) (len : nat) :
  (off + len <= List.length buf)%nat ->
  let buf' := dt_write_int buf off src len in
  List.length buf' = List.length buf /\
  firstn off buf' = firstn off buf /\
  skipn (off + len) buf' = skipn (off + len) buf /\
  be_value (firstn len (skipn off buf')) = src mod 2 ^ (8 * Z.of_nat len).
Proof.
  intros H. cbv zeta.
  assert (S : exists pre mid post,
            buf = pre ++ mid ++ post /\ List.length pre = off /\
            List.length mid = len).
  { exists (firstn off buf), (firstn len (skipn off buf)), (skipn len (skipn off buf)).
    rewrite !firstn_skipn, !length_firstn, length_skipn.
    split; [reflexivity | lia]. }
  destruct S as (pre & mid & post & -> & Lp & Lm). subst off len.
  rewrite (dt_write_int_app (List.length mid) pre mid post src eq_refl).
  split; [|split; [|split]].
  - rewrite !length_app, be_bytes_length. reflexivity.
  - rewrite !firstn_exact by reflexivity. reflexivity.
  - rewrite !app_assoc.
    rewrite !skipn_exact by (rewrite length_app, ?be_bytes_length; reflexivity).
    reflexivity.
  - rewrite (skipn_exact pre _ _ eq_refl).
    rewrite (firstn_exact _ _ _ (be_bytes_length (List.length mid) src)).
    apply be_value_be_bytes.
Qed.

Lemma dt_write_int_big_endian_witness :
  be_value (firstn 2 (skipn 1 (dt_write_int [x00; x00; x00; x00] 1 74565 2)))
  = 74565 mod 2 ^ (8 * Z.of_nat 2).
Proof.
  apply (dt_write_int_big_endian [x00; x00; x00; x00] 1 74565 2).
  simpl. lia.
Defined.

(** ** Reading a node name *)

Lemma load_bytes_cons m a n :
  load_bytes m a (S n) = m a :: load_bytes m (a + 1) n.
Proof.
  unfold load_bytes. cbn [seq map]. rewrite Z.add_0_r. f_equal.
  rewrite <- seq_shift, map_map. apply map_ext. intros i. f_equal. lia.
Qed.

Lemma c_string_at_first_nul m n :
  forall a f,
    (forall i, (i < n)%nat -> m (a + Z.of_nat i) <> x00) ->
    m (a + Z.of_nat n) = x00 -> (n < f)%nat ->
    c_string_at f m a = Some (load_bytes m a n).
Proof.
  induction n as [|n IH]; intros a f Hn H0 Hf; (destruct f as [|f]; [lia|]);
    cbn [c_string_at].
  - rewrite Z.add_0_r in H0. rewrite H0. reflexivity.
  - assert (Ha : m a <> x00).
    { specialize (Hn O ltac:(lia)). rewrite Z.add_0_r in Hn. exact Hn. }
    rewrite (byte_eqb_neq _ _ Ha), load_bytes_cons.
    rewrite (IH (a + 1) f); [reflexivity| | |lia].
    + intros i Hi. replace (a + 1 + Z.of_nat i) with (a + Z.of_nat (S i)) by lia.
      apply Hn. lia.
    + replace (a + 1 + Z.of_nat n) with (a + Z.of_nat (S n)) by lia. exact H0.
Qed.

(** X11. At an offset whose token is not the begin-node token
    [fdt_node_name] consumes 0 bytes, sets no name and reads no string.
    At a begin-node token followed by [n] bytes that are not zero and a
    zero byte, where the token and the terminated name rounded up to a
    multiple of four stay within the range of [int], it consumes exactly
    these bytes, which is not 0 and is at least 8; the name it sets starts
    right behind the token and is these [n] bytes. *)
Theorem fdt_node_name_reads (fuel : nat) (blob : memory) (offset : Z) :
  0 <= offset < 2 ^ 32 ->
  (be32toh_at blob offset <> TokenBeginNode ->
   fdt_node_name fuel blob offset = Some (0, None)) /\
  (forall n,
     be32toh_at blob offset = TokenBeginNode ->
     (forall i, (i < n)%nat -> blob (offset + 4 + Z.of_nat i) <> x00) ->
     blob (offset + 4 + Z.of_nat n) = x00 ->
     (n < fuel)%nat -> 4 + round_up4 (Z.of_nat n + 1) < 2 ^ 31 ->
     fdt_node_name fuel blob offset
     = Some (4 + round_up4 (Z.of_nat n + 1), Some (offset + 4)) /\
     c_string_at fuel blob (offset + 4) = Some (load_bytes blob (offset + 4) n) /\
     8 <= 4 + round_up4 (Z.of_nat n + 1)).
Proof.
  intros Ho. unfold fdt_node_name. rewrite (wrap32_small _ Ho). split.
  - intros H.
    destruct (Z.eqb_spec (be32toh_at blob offset) TokenBeginNode); [contradiction|].
    reflexivity.
  - intros n H Hn H0 Hf Hb. rewrite H, Z.eqb_refl. cbn [negb].
    pose proof (c_string_at_first_nul blob n (offset + 4) fuel Hn H0 Hf) as C.
    unfold strlen_at. rewrite C. cbn [option_map]. rewrite load_bytes_length.
    pose proof (round_up4_bounds (Z.of_nat n + 1) ltac:(lia)) as R.
    rewrite size32_round_up4 by lia.
    rewrite wrap_int_small by lia.
    split; [f_equal; f_equal; lia|]. split; [reflexivity|].
    unfold round_up4 in *. Z.div_mod_to_equations. lia.
Qed.

Lemma fdt_node_name_reads_witness :
  fdt_node_name 10 example_flat 112
  = Some (4 + round_up4 (Z.of_nat 4 + 1), Some (112 + 4)) /\
  fdt_node_name 10 example_flat 80 = Some (0, None).
Proof.
  split.
  - apply (fdt_node_name_reads 10 example_flat 112 ltac:(lia)).
    + vm_compute. reflexivity.
    + intros i Hi.
      destruct i as [|[|[|[|i]]]]; [vm_compute; discriminate ..|lia].
    + vm_compute. reflexivity.
    + lia.
    + vm_compute. reflexivity.
  - apply (fdt_node_name_reads 10 example_flat 80 ltac:(lia)).
    vm_compute. discriminate.
Defined.

(** ** Counts are multiples of four *)

Lemma wrap32_divide4 x : (4 | x) -> (4 | wrap32 x).
Proof.
  intros H. unfold wrap32. rewrite Z.mod_eq by lia.
  apply Z.divide_sub_r; [exact H|].
  apply Z.divide_mul_l. exists (2 ^ 30). reflexivity.
Qed.

Lemma wrap32_nonneg x : 0 <= wrap32 x.
Proof. unfold wrap32. apply Z.mod_pos_bound. lia. Qed.

Lemma size32_nonneg x : 0 <= size32 x.
Proof. apply wrap32_nonneg. Qed.

Lemma wrap_int_range z : - 2 ^ 31 <= wrap_int z < 2 ^ 31.
Proof.
  unfold wrap_int. pose proof (Z.mod_pos_bound (z + 2 ^ 31) (2 ^ 32) ltac:(lia)). lia.
Qed.

Lemma wrap_int_shift4 z : (4 | wrap_int z - z).
Proof.
  unfold wrap_int. rewrite Z.mod_eq by lia.
  exists (- (2 ^ 30 * ((z + 2 ^ 31) / 2 ^ 32))). lia.
Qed.

Lemma wrap_int_divide4 z : (4 | z) -> (4 | wrap_int z).
Proof.
  intros H. replace (wrap_int z) with ((wrap_int z - z) + z) by lia.
  apply Z.divide_add_r; [apply wrap_int_shift4 | exact H].
Qed.

Lemma fdt_next_property_aligned blob off :
  (4 | fst (fdt_next_property blob off)).
Proof.
  unfold fdt_next_property.
  destruct (negb (be32toh_at blob (wrap32 off) =? TokenProperty)); cbn [fst].
  - apply Z.divide_0_r.
  - apply wrap_int_divide4, Z.divide_factor_r.
Qed.

Lemma fdt_skip_props_aligned blob f :
  forall off off', fdt_skip_props f blob off = Some off' -> (4 | off' - off).
Proof.
  induction f as [|f IH]; intros off off' H; simpl in H; [discriminate|].
  destruct (fst (fdt_next_property blob off) =? 0).
  - inversion H; subst. rewrite Z.sub_diag. apply Z.divide_0_r.
  - apply IH in H.
    set (size := fst (fdt_next_property blob off)) in *.
    replace (off' - off)
      with ((off' - wrap_int (off + size)) + (wrap_int (off + size) - (off + size))
            + size) by lia.
    apply Z.divide_add_r; [apply Z.divide_add_r|];
      [exact H | apply wrap_int_shift4 | apply fdt_next_property_aligned].
Qed.

Lemma fdt_node_name_aligned blob f off size nm :
  fdt_node_name f blob off = Some (size, nm) ->
  (4 | size) /\ - 2 ^ 31 <= size < 2 ^ 31 /\
  (be32toh_at blob (wrap32 off) <> TokenBeginNode -> size = 0).
Proof.
  unfold fdt_node_name.
  destruct (Z.eqb_spec (be32toh_at blob (wrap32 off)) TokenBeginNode) as [E|E];
    cbn [negb].
  - destruct (strlen_at f blob (wrap32 off + 4)) as [len|]; [|discriminate].
    intros H. apply some_eq in H. inversion H; subst.
    split; [|split; [apply wrap_int_range | contradiction]].
    apply wrap_int_divide4.
    apply Z.divide_add_r; [apply Z.divide_factor_r | exists 1; reflexivity].
  - intros H. apply some_eq in H. inversion H; subst.
    split; [apply Z.divide_0_r|]. split; [lia | reflexivity].
Qed.

Lemma fdt_skip_aligned blob f :
  (forall off n,
     fdt_skip_node f blob off = Some n ->
     (4 | n) /\ - 2 ^ 31 <= n < 2 ^ 31 /\
     (be32toh_at blob (wrap32 off) <> TokenBeginNode -> n = 0)) /\
  (forall off off', fdt_skip_children f blob off = Some off' -> (4 | off' - off)).
Proof.
  induction f as [|f [IHn IHc]]; [split; intros; discriminate|].
  split.
  - intros off n H. simpl in H.
    destruct (fdt_node_name f blob _) as [[size nm]|] eqn:E; [|discriminate].
    destruct (fdt_node_name_aligned _ _ _ _ _ E) as (D & P & Z0).
    rewrite wrap32_wrap_int in Z0.
    destruct (Z.eqb_spec size 0) as [S0|S0].
    + apply some_eq in H. subst n size.
      split; [apply Z.divide_0_r|]. split; [lia | reflexivity].
    + destruct (fdt_skip_props f blob _) as [o1|] eqn:E1; [|discriminate].
      destruct (fdt_skip_children f blob o1) as [o2|] eqn:E2; [|discriminate].
      apply some_eq in H. subst n.
      split; [|split; [apply wrap_int_range|]].
      * apply wrap_int_divide4.
        apply Z.divide_add_r; [|exists 1; reflexivity]. apply wrap32_divide4.
        replace (o2 - off)
          with ((o2 - o1) + (o1 - wrap_int (wrap_int off + size))
                + (wrap_int (wrap_int off + size) - (wrap_int off + size))
                + (wrap_int off - off) + size) by lia.
        apply Z.divide_add_r;
          [apply Z.divide_add_r; [apply Z.divide_add_r; [apply Z.divide_add_r|]|]|];
          [apply (IHc _ _ E2) | apply (fdt_skip_props_aligned _ _ _ _ E1)
          | apply wrap_int_shift4 | apply wrap_int_shift4 | exact D].
      * intros N. exfalso. apply S0. apply Z0. exact N.
  - intros off off' H. simpl in H.
    destruct (fdt_skip_node f blob off) as [size|] eqn:E; [|discriminate].
    destruct (IHn _ _ E) as (D & _).
    destruct (size =? 0).
    + inversion H; subst. rewrite Z.sub_diag. apply Z.divide_0_r.
    + apply IHc in H.
      replace (off' - off)
        with ((off' - wrap_int (off + size)) + (wrap_int (off + size) - (off + size))
              + size) by lia.
      apply Z.divide_add_r; [apply Z.divide_add_r|];
        [exact H | apply wrap_int_shift4 | exact D].
Qed.

(** X12. Whenever [fdt_skip_node] returns, and whenever
    [fdt_unflatten_node] does, the byte count is a multiple of four within
    the range of [int], and it is 0 when the token at the offset is not the
    begin-node token: the loops that stop at a count of 0 stop at the first
    token that opens no node. *)
Theorem fdt_skip_node_aligned (fuel : nat) (blob : memory) (start_offset : Z) (n : Z) :
  fdt_skip_node fuel blob start_offset = Some n \/
  option_map fst (fdt_unflatten_node fuel blob start_offset) = Some n ->
  n mod 4 = 0 /\ - 2 ^ 31 <= n < 2 ^ 31 /\
  (be32toh_at blob (wrap32 start_offset) <> TokenBeginNode -> n = 0).
Proof.
  intros H.
  assert (S : fdt_skip_node fuel blob start_offset = Some n).
  { destruct H as [H|H]; [exact H|].
    rewrite (proj1 (fdt_skip_unflatten fuel)). exact H. }
  destruct (proj1 (fdt_skip_aligned blob fuel) _ _ S) as (D & P & Z0).
  split; [|split; [exact P | exact Z0]].
  apply Z.mod_divide; [lia | exact D].
Qed.

Lemma fdt_skip_node_aligned_witness :
  (124 mod 4 = 0 /\ - 2 ^ 31 <= 124 < 2 ^ 31 /\
   (be32toh_at example_flat (wrap32 72) <> TokenBeginNode -> 124 = 0)) /\
  (0 mod 4 = 0 /\ - 2 ^ 31 <= 0 < 2 ^ 31 /\
   (be32toh_at example_flat (wrap32 80) <> TokenBeginNode -> 0 = 0)).
Proof.
  split.
  - apply (fdt_skip_node_aligned 20 example_flat 72 124).
    left. vm_compute. reflexivity.
  - apply (fdt_skip_node_aligned 20 example_flat 80 0).
    right. vm_compute. reflexivity.
Defined.

(** ** The reserve map ends at the first size of zero *)

Lemma fdt_unflatten_map_prefix (R : list DeviceTreeReserveMapEntry) :
  forall m a f acc,
    forallb wf_entry R = true ->
    agrees m a
      (written (flat_map (fun e => htobe64 (entry_start e) ++ htobe64 (entry_size e)) R)
       ++ padding 8 ++ written (htobe64 0)) ->
    0 <= a -> a + 16 * (Z.of_nat (List.length R) + 1) <= 2 ^ 32 ->
    (List.length R < f)%nat ->
    fdt_unflatten_map f m a acc = Some (acc ++ R).
Proof.
  induction R as [|e R IH]; intros m a f acc H A Ha Hb Hf;
    (destruct f as [|f]; [simpl in Hf; lia|]); cbn [fdt_unflatten_map].
  - cbn [flat_map written map app] in A.
    apply agrees_app in A. destruct A as [_ A].
    rewrite padding_length in A by lia.
    rewrite <- (app_nil_r (written (htobe64 0))) in A.
    unfold fdt_unflatten_map_entry. rewrite (wrap32_small a) by (simpl in Hb; lia).
    rewrite (agrees_be64 _ _ 0 _ ltac:(lia) A). cbn. rewrite app_nil_r. reflexivity.
  - cbn [forallb] in H. apply andb_true_iff in H. destruct H as [He HR].
    destruct (wf_entry_spec e He) as [Hst Hsi].
    cbn [List.length] in Hb, Hf.
    cbn [flat_map] in A. rewrite !written_app, <- !app_assoc in A.
    pose proof (agrees_be64 _ _ _ _ Hst A) as E1.
    apply agrees_app in A. destruct A as [_ A].
    rewrite written_length, htobe64_length in A. change (Z.of_nat 8) with 8 in A.
    pose proof (agrees_be64 _ _ (entry_size e) _ ltac:(lia) A) as E2.
    apply agrees_app in A. destruct A as [_ A].
    rewrite written_length, htobe64_length in A. change (Z.of_nat 8) with 8 in A.
    unfold fdt_unflatten_map_entry. rewrite (wrap32_small a) by lia.
    rewrite E1, E2.
    destruct (Z.eqb_spec (entry_size e) 0) as [E|_]; [lia|].
    change (8 * 2 =? 0) with false. cbn iota.
    rewrite (wrap32_small (a + 8 * 2)) by lia.
    replace (a + 8 + 8) with (a + 8 * 2) in A by lia.
    rewrite (IH m (a + 8 * 2) f _ HR A ltac:(lia) ltac:(lia) ltac:(lia)).
    unfold list_insert_after_last. rewrite <- app_assoc. destruct e. reflexivity.
Qed.

(** X13. The reserve map ends at the first entry whose size is 0,
    whatever its start is and whatever follows it: of the entries
    [dt_flatten_map_entry] has written one behind the other, the loop of
    [fdt_unflatten] returns those before the first entry of size 0, in
    order, and none when the first entry has size 0. *)
Theorem fdt_unflatten_map_stops_at_zero_size
    (R1 : list DeviceTreeReserveMapEntry) (start : Z)
    (R2 : list DeviceTreeReserveMapEntry) (m : memory) (dest : Z) (fuel : nat) :
  forallb wf_entry R1 = true ->
  0 <= dest -> dest + 16 * (Z.of_nat (List.length R1) + 1) <= 2 ^ 32 ->
  (List.length R1 < fuel)%nat ->
  fdt_unflatten_map fuel
    (fst (fold_left (fun st entry => dt_flatten_map_entry entry st)
            (R1 ++ mkEntry start 0 :: R2) (m, dest)))
    dest []
  = Some R1.
Proof.
  intros Hw Hd Hb Hf.
  pose proof (dt_flatten_map_image (R1 ++ mkEntry start 0 :: R2) m dest) as A.
  set (m' := fst (fold_left _ _ (m, dest))) in *. clearbody m'.
  rewrite flat_map_app in A. cbn [flat_map entry_start entry_size] in A.
  rewrite !written_app, <- !app_assoc in A.
  apply (fdt_unflatten_map_prefix R1 m' dest fuel [] Hw); [|exact Hd|exact Hb|exact Hf].
  apply agrees_app in A. destruct A as [A1 A].
  apply agrees_app in A. destruct A as [_ A].
  apply agrees_app in A. destruct A as [A2 _].
  rewrite (written_length (htobe64 start)), htobe64_length in A2.
  change (Z.of_nat 8) with 8 in A2.
  apply agrees_app. split; [exact A1|].
  apply agrees_app. split; [apply agrees_padding|].
  rewrite padding_length by lia. exact A2.
Qed.

Lemma fdt_unflatten_map_stops_at_zero_size_witness :
  fdt_unflatten_map 5
    (fst (fold_left (fun st entry => dt_flatten_map_entry entry st)
            ([mkEntry 4096 512] ++ mkEntry 8192 0 :: [mkEntry 16384 256])
            (fun _ => xff, 40)))
    40 []
  = Some [mkEntry 4096 512].
Proof.
  apply (fdt_unflatten_map_stops_at_zero_size [mkEntry 4096 512] 8192
           [mkEntry 16384 256] (fun _ => xff) 40 5).
  - reflexivity.
  - lia.
  - simpl. lia.
  - simpl. lia.
Defined.

(** ** A blob without a root node *)

(** X14. From a blob whose reserve map starts with an entry of size 0
    and whose structure block does not start with a begin-node token,
    [fdt_unflatten] still returns a tree: its header is the blob, its
    header size the least of the three offsets, its reserve map empty and
    its root [NULL]; [dt_flat_size] and [dt_flatten] then read through the
    null root. *)
Theorem fdt_unflatten_without_root (fuel : nat) (blob : memory) :
  be64toh_at blob (be32toh_at blob hdr_reserve_map_offset + 8) = 0 ->
  be32toh_at blob (be32toh_at blob hdr_structure_offset) <> TokenBeginNode ->
  let tree := mkTree blob
                (Z.min (Z.min (be32toh_at blob hdr_structure_offset)
                          (be32toh_at blob hdr_strings_offset))
                   (be32toh_at blob hdr_reserve_map_offset)) [] None in
  fdt_unflatten (S fuel) blob = Some tree /\
  resolve_tree fuel tree = Some (mkTree (header tree) (header_size tree) [] None) /\
  (forall t, resolve_tree fuel tree = Some t ->
     dt_flat_size t = None /\ forall m, dt_flatten t m = None).
Proof.
  intros Hm Hs. cbv zeta.
  pose proof (be32toh_at_range blob hdr_reserve_map_offset) as Rr.
  pose proof (be32toh_at_range blob hdr_structure_offset) as Rs.
  split; [|split].
  - unfold fdt_unflatten. cbn [fdt_unflatten_map fdt_unflatten_node].
    unfold fdt_unflatten_map_entry, fdt_node_name. rewrite wrap32_wrap_int.
    rewrite (wrap32_small _ Rr), (wrap32_small _ Rs), Hm. cbn [Z.eqb].
    destruct (Z.eqb_spec (be32toh_at blob (be32toh_at blob hdr_structure_offset))
                TokenBeginNode) as [E|E]; [contradiction|].
    reflexivity.
  - reflexivity.
  - intros t Ht. cbn in Ht. inversion Ht; subst. split; [reflexivity|].
    intros m. reflexivity.
Qed.

Lemma fdt_unflatten_without_root_witness :
  fdt_unflatten 1 (fun _ => x00)
  = Some (mkTree (fun _ => x00)
            (Z.min (Z.min (be32toh_at (fun _ => x00) hdr_structure_offset)
                      (be32toh_at (fun _ => x00) hdr_strings_offset))
               (be32toh_at (fun _ => x00) hdr_reserve_map_offset)) [] None).
Proof.
  destruct (fdt_unflatten_without_root O (fun _ => x00)) as (E & _).
  - vm_compute. reflexivity.
  - vm_compute. discriminate.
  - exact E.
Defined.

(** ** The flattened size after a property is set *)

Lemma update_bytes props nm data size :
  0 <= size < 2 ^ 32 ->
  forallb size_is_uint32 props = true ->
  let props' := match bin_prop_update props nm data size with
                | Some l => l
                | None => mkProp nm data (wrap32 size) :: props
                end in
  forallb size_is_uint32 props' = true /\
  props_struct_bytes props' + props_strings_bytes props'
  = props_struct_bytes props + props_strings_bytes props +
    match find (fun p => String.eqb (prop_name p) nm) props with
    | Some p => round_up4 size - round_up4 (prop_size p)
    | None => 12 + round_up4 size + (strlen nm + 1)
    end /\
  props_strings_bytes props'
  = props_strings_bytes props +
    match find (fun p => String.eqb (prop_name p) nm) props with
    | Some p => 0
    | None => strlen nm + 1
    end.
Proof.
  intros Hs Hu. cbv zeta.
  assert (Hnew : size_is_uint32 (mkProp nm data (wrap32 size)) = true).
  { unfold size_is_uint32. cbn [prop_size]. rewrite (wrap32_small _ Hs).
    apply andb_true_iff. split; [apply Z.leb_le | apply Z.ltb_lt]; lia. }
  unfold props_struct_bytes, props_strings_bytes in *.
  induction props as [|p props IH]; cbn [bin_prop_update find].
  - cbn [forallb map sumZ]. rewrite Hnew.
    unfold prop_struct_bytes, prop_strings_bytes. cbn [prop_size prop_name].
    rewrite (wrap32_small _ Hs). repeat split; lia.
  - cbn [forallb] in Hu. apply andb_true_iff in Hu. destruct Hu as [Hp Hu].
    specialize (IH Hu).
    destruct (String.eqb_spec (prop_name p) nm) as [En|En].
    + cbn [forallb map sumZ]. rewrite Hu.
      unfold prop_struct_bytes, prop_strings_bytes, size_is_uint32 in *.
      cbn [prop_size prop_name] in *. rewrite (wrap32_small _ Hs) in *.
      rewrite Hnew. repeat split; lia.
    + destruct (bin_prop_update props nm data size) as [q|];
        cbn [option_map forallb map sumZ] in *; rewrite Hp;
        destruct IH as (I1 & I2 & I3); cbn [andb];
        (split; [first [exact I1 | rewrite Hnew, Hu; reflexivity]|]);
        rewrite ?Hnew in *; split; lia.
Qed.

(** X15. Setting a property on the root changes the flattened size by
    the bytes of that property alone: a property under a new name adds its
    three words, its value rounded up to a multiple of four and its
    terminated name; a property that replaces one of the same name changes
    the size by the difference of the two rounded values. *)
Theorem dt_flat_size_after_add (tree : DeviceTree) (r : DeviceTreeNode)
    (nm : string) (data : option (list byte)) (size : Z) :
  fits tree r (2 ^ 32) -> 0 <= size < 2 ^ 32 ->
  let delta :=
    match find (fun p => String.eqb (prop_name p) nm) (properties r) with
    | Some p => round_up4 size - round_up4 (prop_size p)
    | None => 12 + round_up4 size + (strlen nm + 1)
    end in
  flat_bytes tree r + delta < 2 ^ 32 ->
  dt_flat_size tree = Some (flat_bytes tree r) /\
  dt_flat_size (with_root tree (dt_add_bin_prop r nm data size))
  = Some (flat_bytes tree r + delta).
Proof.
  intros Hf Hs delta Hb. split; [apply dt_flat_size_exact; exact Hf|].
  destruct Hf as (Hr & Hh & Hu & Hl).
  destruct r as [n ps cs]. cbn [sizes_are_uint32 properties children] in Hu.
  apply andb_true_iff in Hu. destruct Hu as [Hps Hcs].
  destruct (update_bytes ps nm data size Hs Hps) as (U1 & U2 & _).
  cbn [properties] in delta.
  set (ps' := match bin_prop_update ps nm data size with
              | Some l => l
              | None => mkProp nm data (wrap32 size) :: ps
              end) in *.
  assert (E : dt_add_bin_prop (mkNode n ps cs) nm data size = mkNode n ps' cs).
  { unfold dt_add_bin_prop. cbn [properties]. subst ps'.
    destruct (bin_prop_update ps nm data size); reflexivity. }
  rewrite E.
  assert (F : flat_bytes (with_root tree (mkNode n ps' cs)) (mkNode n ps' cs)
              = flat_bytes tree (mkNode n ps cs) + delta).
  { unfold flat_bytes, with_root. cbn [header_size reserve_map].
    cbn [node_struct_bytes node_strings_bytes name properties children].
    subst delta. lia. }
  rewrite <- F. apply dt_flat_size_exact.
  repeat split.
  - exact Hh.
  - cbn [sizes_are_uint32 properties children]. rewrite U1, Hcs. reflexivity.
  - rewrite F. exact Hb.
Qed.

Lemma dt_flat_size_after_add_witness :
  dt_flat_size example_tree = Some (flat_bytes example_tree example_root) /\
  dt_flat_size (with_root example_tree
                  (dt_add_bin_prop example_root "serial" (Some [x01; x02; x03]) 3))
  = Some (flat_bytes example_tree example_root + (12 + round_up4 3 + (strlen "serial" + 1))).
Proof.
  apply (dt_flat_size_after_add example_tree example_root "serial"
           (Some [x01; x02; x03]) 3).
  - repeat split; try reflexivity; vm_compute; discriminate.
  - lia.
  - vm_compute. reflexivity.
Defined.

(** ** Fixups *)




(** X17. [dt_apply_fixups] returns 0 or 1.  When it returns 0 every
    callback of the list has been called, each on the tree the one before
    it left, and has returned 0; so a list with a callback that fails on
    that tree never gives 0. *)
Theorem dt_apply_fixups_success (fixups : list DeviceTreeFixup)
    (tree : DeviceTree) (res : Z) (tree' : DeviceTree) :
  dt_apply_fixups fixups tree = Some (res, tree') ->
  (res = 0 \/ res = 1) /\
  (res = 0 ->
   tree' = fixups_applied fixups tree /\
   forall pre f rest, fixups = pre ++ f :: rest ->
     exists call, fixup f = Some call /\
                  fst (call (fixups_applied pre tree)) = 0).
Proof.
  revert tree. induction fixups as [|f l IH]; intros tree H; cbn [dt_apply_fixups] in H.
  - inversion H; subst. split; [left; reflexivity|]. intros _.
    split; [reflexivity|]. intros [|x pre] g rest E; discriminate E.
  - destruct (fixup f) as [call|] eqn:Ef; [|discriminate].
    destruct (call tree) as [r t] eqn:Ec.
    destruct (Z.eqb_spec r 0) as [R0|R0]; cbn [negb] in H.
    + destruct (IH t H) as (I1 & I2). split; [exact I1|]. intros Hz.
      destruct (I2 Hz) as (I3 & I4). unfold fixups_applied. cbn [fold_left].
      rewrite Ef, Ec. cbn [snd]. split; [exact I3|].
      intros [|x pre] g rest E; cbn [app] in E; inversion E; subst.
      * exists call. split; [exact Ef|]. cbn [fold_left]. rewrite Ec. reflexivity.
      * cbn [fold_left]. rewrite Ef, Ec. cbn [snd]. apply (I4 pre g rest eq_refl).
    + inversion H; subst. split; [right; reflexivity|]. intros Hz. discriminate Hz.
Qed.

Lemma dt_apply_fixups_success_witness :
  (0 = 0 \/ 0 = 1) /\
  (0 = 0 ->
   with_root example_tree (dt_add_u32_prop (dt_add_u32_prop example_root "a" 1) "b" 2)
   = fixups_applied [example_fixup "a" 1 0; example_fixup "b" 2 0] example_tree /\
   forall pre f rest,
     [example_fixup "a" 1 0; example_fixup "b" 2 0] = pre ++ f :: rest ->
     exists call, fixup f = Some call /\
                  fst (call (fixups_applied pre example_tree)) = 0).
Proof.
  apply (dt_apply_fixups_success [example_fixup "a" 1 0; example_fixup "b" 2 0]
           example_tree 0
           (with_root example_tree
              (dt_add_u32_prop (dt_add_u32_prop example_root "a" 1) "b" 2))).
  reflexivity.
Defined.

(** ** Record pools *)

Lemma alloc_many_spec cache_size n :
  forall counter,
    0 <= counter <= cache_size ->
    snd (alloc_many cache_size n counter) = Z.min (counter + Z.of_nat n) cache_size /\
    List.length (fst (alloc_many cache_size n counter)) = n /\
    forall k, (k < n)%nat ->
      nth k (fst (alloc_many cache_size n counter)) FromHeap
      = if counter + Z.of_nat k <? cache_size
        then FromCache (counter + Z.of_nat k) else FromHeap.
Proof.
  induction n as [|n IH]; intros counter Hc; cbn [alloc_many].
  - cbn [fst snd]. split; [lia|]. split; [reflexivity|]. intros k Hk. lia.
  - assert (A : alloc_from cache_size counter
                = if cache_size <=? counter then (FromHeap, counter)
                  else (FromCache counter, counter + 1)) by reflexivity.
    destruct (Z.leb_spec cache_size counter) as [L|L]; rewrite A; clear A.
    + destruct (IH counter Hc) as (I1 & I2 & I3).
      destruct (alloc_many cache_size n counter) as [rs c'].
      cbn [fst snd] in *. split; [lia|]. split; [simpl; lia|].
      intros [|k] Hk; cbn [nth].
      * destruct (Z.ltb_spec (counter + Z.of_nat 0) cache_size); [lia | reflexivity].
      * rewrite (I3 k) by lia.
        destruct (Z.ltb_spec (counter + Z.of_nat k) cache_size),
                 (Z.ltb_spec (counter + Z.of_nat (S k)) cache_size);
          try reflexivity; lia.
    + destruct (IH (counter + 1) ltac:(lia)) as (I1 & I2 & I3).
      destruct (alloc_many cache_size n (counter + 1)) as [rs c'].
      cbn [fst snd] in *. split; [lia|]. split; [simpl; lia|].
      intros [|k] Hk; cbn [nth].
      * destruct (Z.ltb_spec (counter + Z.of_nat 0) cache_size); [|lia].
        f_equal. lia.
      * rewrite (I3 k) by lia.
        replace (counter + 1 + Z.of_nat k) with (counter + Z.of_nat (S k)) by lia.
        reflexivity.
Qed.

(** X18. Of any number of records taken from a pool that starts empty,
    the first ones, as many as the cache has slots, are the slots of the
    cache in order, each slot handed out once and none outside the cache,
    and all later ones come from the heap; the counter stops at the size of
    the cache.  The node pool has 1000 slots and the property pool 5000. *)
Theorem alloc_pool_slots (cache_size : Z) (n : nat) :
  0 <= cache_size ->
  snd (alloc_many cache_size n 0) = Z.min (Z.of_nat n) cache_size /\
  List.length (fst (alloc_many cache_size n 0)) = n /\
  (forall k, (k < n)%nat ->
     nth k (fst (alloc_many cache_size n 0)) FromHeap
     = if Z.of_nat k <? cache_size then FromCache (Z.of_nat k) else FromHeap) /\
  alloc_node_from 1000 = (FromHeap, 1000) /\
  alloc_prop_from 5000 = (FromHeap, 5000) /\
  alloc_node_from 999 = (FromCache 999, 1000) /\
  alloc_prop_from 4999 = (FromCache 4999, 5000).
Proof.
  intros H. destruct (alloc_many_spec cache_size n 0 ltac:(lia)) as (A & B & C).
  split; [exact A|]. split; [exact B|]. split; [exact C|].
  repeat split.
Qed.

Lemma alloc_pool_slots_witness :
  snd (alloc_many node_cache_size 1003 0) = Z.min (Z.of_nat 1003) node_cache_size.
Proof.
  apply (alloc_pool_slots node_cache_size 1003). vm_compute. discriminate.
Defined.

(** ** The header of a flattened tree *)

(** X19. In the blob [dt_flatten] makes of a tree that fits 32 bits, the
    header fields it patches describe the blob: the structure block starts
    behind the reserve map and its terminating entry and has the size the
    measuring traversal computes, the end token follows it, the strings
    block starts behind that token and has the size measured; the entry
    that ends the reserve map is zero.  Every other byte of the preserved
    header, the magic number and the reserve map offset among them, is
    copied from the tree's header as it is. *)
Theorem dt_flatten_header (tree : DeviceTree) (r : DeviceTreeNode) (m : memory) :
  fits tree r (2 ^ 32) ->
  exists blob,
    dt_flatten tree m = Some blob /\
    be32toh_at blob hdr_structure_offset
    = header_size tree + 16 * (Z.of_nat (List.length (reserve_map tree)) + 1) /\
    be32toh_at blob hdr_structure_size = node_struct_bytes r /\
    be32toh_at blob (be32toh_at blob hdr_structure_offset
                     + be32toh_at blob hdr_structure_size) = TokenEnd /\
    be32toh_at blob hdr_strings_offset
    = be32toh_at blob hdr_structure_offset + be32toh_at blob hdr_structure_size + 4 /\
    be32toh_at blob hdr_strings_size = node_strings_bytes r /\
    be64toh_at blob (header_size tree + 16 * Z.of_nat (List.length (reserve_map tree)))
    = 0 /\
    be64toh_at blob (header_size tree + 16 * Z.of_nat (List.length (reserve_map tree)) + 8)
    = 0 /\
    (forall x, 0 <= x < header_size tree ->
       ~ (hdr_totalsize <= x < hdr_reserve_map_offset) ->
       ~ (hdr_strings_size <= x < sizeof_FdtHeader) ->
       blob x = header tree x).
Proof.
  intros (Hr & Hh & Hs & Hb). unfold flat_bytes in Hb.
  unfold sizeof_FdtHeader in *.
  pose proof (node_bytes_nonneg r Hs) as [N1 N2].
  assert (Esz : dt_flat_node_size r (0, 0) = (node_struct_bytes r, node_strings_bytes r)).
  { rewrite dt_flat_node_size_exact by (try assumption; lia). f_equal; lia. }
  unfold dt_flatten. rewrite Hr, Esz.
  rewrite (wrap32_small (header_size tree)) by lia.
  unfold hdr_totalsize, hdr_structure_offset, hdr_strings_offset,
    hdr_reserve_map_offset, hdr_strings_size, hdr_structure_size in *.
  set (H := header_size tree) in *.
  set (R := reserve_map tree) in *.
  set (n := Z.of_nat (List.length R)) in *.
  assert (Hn : 0 <= n) by (subst n; lia).
  set (m0 := store_bytes m 0 (load_bytes (header tree) 0 (Z.to_nat H))).
  assert (P0 : forall x, 0 <= x < H -> m0 x = header tree x).
  { intros x Hx. subst m0.
    replace x with (0 + Z.of_nat (Z.to_nat x)) at 1 by lia.
    rewrite store_bytes_inside by (rewrite load_bytes_length; lia).
    rewrite nth_load_bytes by lia. f_equal. lia. }
  clearbody m0.
  destruct (dt_flatten_map_fold R m0 H) as [C1 F1].
  destruct (fold_left _ R _) as [m1 d1]. cbn [fst snd] in C1, F1. subst d1.
  fold n in F1 |- *.
  set (S0 := H + 16 * n + 8 * 2).
  set (SS := node_struct_bytes r) in *.
  set (ST := node_strings_bytes r) in *.
  set (T0 := S0 + SS + 4).
  assert (LZ : Z.of_nat (List.length (htobe64 0 ++ htobe64 0)) = 16) by reflexivity.
  set (m2 := store_bytes m1 (H + 16 * n) (htobe64 0 ++ htobe64 0)).
  set (m3 := store_bytes m2 8 (htobe32 S0)).
  set (m4 := store_bytes m3 36 (htobe32 SS)).
  set (m5 := store_bytes m4 (S0 + SS) (htobe32 TokenEnd)).
  set (m6 := store_bytes m5 12 (htobe32 T0)).
  set (m7 := store_bytes m6 32 (htobe32 ST)).
  assert (Q1 : agrees m7 8 (written (htobe32 S0))).
  { subst m7 m6 m5 m4 m3.
    do 4 (apply agrees_store32_other; [|rewrite ?written32_length; subst T0 S0; lia]).
    apply agrees_store. }
  assert (Q2 : agrees m7 36 (written (htobe32 SS))).
  { subst m7 m6 m5 m4.
    do 3 (apply agrees_store32_other; [|rewrite ?written32_length; subst T0 S0; lia]).
    apply agrees_store. }
  assert (Q3 : agrees m7 (S0 + SS) (written (htobe32 TokenEnd))).
  { subst m7 m6 m5.
    do 2 (apply agrees_store32_other; [|rewrite ?written32_length; subst T0 S0; lia]).
    apply agrees_store. }
  assert (Q4 : agrees m7 12 (written (htobe32 T0))).
  { subst m7 m6.
    apply agrees_store32_other; [|rewrite ?written32_length; subst T0 S0; lia].
    apply agrees_store. }
  assert (Q5 : agrees m7 32 (written (htobe32 ST))).
  { subst m7. apply agrees_store. }
  assert (Q6 : agrees m7 (H + 16 * n) (written (htobe64 0 ++ htobe64 0))).
  { subst m7 m6 m5 m4 m3.
    do 5 (apply agrees_store32_other; [|rewrite written_length, LZ; subst T0 S0; lia]).
    subst m2. apply agrees_store. }
  assert (Q7 : forall x, 0 <= x < H -> ~ (8 <= x < 16) -> ~ (32 <= x < 40) ->
                         m7 x = header tree x).
  { intros x Hx X1 X2. subst m7 m6 m5 m4 m3 m2.
    rewrite !store32_outside by (subst T0 S0; lia).
    rewrite store_bytes_outside by lia.
    rewrite (F1 x) by lia. apply P0. lia. }
  clearbody m7. clear m2 m3 m4 m5 m6.
  destruct (dt_flatten_node_cursors r T0 m7 S0 T0 Hs ltac:(lia)) as (_ & _ & F8).
  destruct (dt_flatten_node r T0 (m7, S0, T0)) as [[m8 ds8] dstr8].
  cbn [fst] in F8. fold SS in F8. fold ST in F8.
  set (total := T0 + ST).
  assert (K : forall a v,
            agrees m7 a (written (htobe32 v)) -> 0 <= v < 2 ^ 32 ->
            a + 4 <= 4 \/ 8 <= a ->
            a + 4 <= S0 \/ S0 + SS <= a ->
            a + 4 <= T0 \/ T0 + ST <= a ->
            be32toh_at (store_bytes m8 4 (htobe32 total)) a = v).
  { intros a v Q Hv D1 D2 D3. rewrite <- (wrap32_small v Hv).
    apply (agrees_be32 _ _ _ []). rewrite app_nil_r.
    apply agrees_store32_other; [|rewrite ?written32_length; lia].
    eapply agrees_frame; [exact Q|exact F8| |]; rewrite ?written32_length; lia. }
  assert (E1 : be32toh_at (store_bytes m8 4 (htobe32 total)) 8 = S0)
    by (apply K; [exact Q1|subst T0 S0; lia..]).
  assert (E2 : be32toh_at (store_bytes m8 4 (htobe32 total)) 36 = SS)
    by (apply K; [exact Q2|subst T0 S0; lia..]).
  assert (E3 : be32toh_at (store_bytes m8 4 (htobe32 total)) (S0 + SS) = TokenEnd)
    by (apply K; [exact Q3|unfold TokenEnd; lia|subst T0 S0; lia..]).
  assert (E4 : be32toh_at (store_bytes m8 4 (htobe32 total)) 12 = T0)
    by (apply K; [exact Q4|subst T0 S0; lia..]).
  assert (E5 : be32toh_at (store_bytes m8 4 (htobe32 total)) 32 = ST)
    by (apply K; [exact Q5|subst T0 S0; lia..]).
  assert (Q8 : agrees (store_bytes m8 4 (htobe32 total)) (H + 16 * n)
                 (written (htobe64 0 ++ htobe64 0))).
  { apply agrees_store32_other; [|rewrite written_length, LZ; lia].
    eapply agrees_frame; [exact Q6|exact F8| |]; rewrite written_length, LZ;
      subst T0 S0; lia. }
  eexists. split; [reflexivity|].
  rewrite E1, E2, E4, E5, E3.
  split; [subst S0; lia|]. split; [reflexivity|]. split; [reflexivity|].
  split; [reflexivity|]. split; [reflexivity|].
  rewrite written_app in Q8.
  split; [|split].
  - apply (agrees_be64 _ _ 0 _ ltac:(lia) Q8).
  - apply agrees_app in Q8. destruct Q8 as [_ Q8].
    rewrite written_length, htobe64_length in Q8. change (Z.of_nat 8) with 8 in Q8.
    rewrite <- (app_nil_r (written (htobe64 0))) in Q8.
    apply (agrees_be64 _ _ 0 _ ltac:(lia) Q8).
  - intros x Hx X1 X2. rewrite store32_outside by lia.
    rewrite (F8 x) by (subst T0 S0; lia). apply Q7; lia.
Qed.

Lemma dt_flatten_header_witness :
  exists blob,
    dt_flatten example_tree (fun _ => xff) = Some blob /\
    be32toh_at blob hdr_structure_offset = 72 /\
    be32toh_at blob hdr_structure_size = 124 /\
    be32toh_at blob hdr_strings_size = 32.
Proof.
  assert (Hfit : fits example_tree example_root (2 ^ 32)).
  { repeat split; try reflexivity; vm_compute; discriminate. }
  destruct (dt_flatten_header example_tree example_root (fun _ => xff) Hfit)
    as (blob & F & E1 & E2 & _ & _ & E5 & _).
  exists blob. split; [exact F|]. split; [exact E1|]. split; [exact E2 | exact E5].
Defined.

(** ** The cells a path lookup reads *)

(** X20. When [dt_find_node] returns a node, creating or not, the cells
    behind [addrcp] and [sizecp] have been read from the nodes on the way
    from the parent to the node returned, both included, the parent first:
    of the nodes that carry a cell property the one nearest to the
    returned node decides, and a cell no node on the way carries keeps the
    value it had. *)
Theorem dt_find_node_cells (strdup : string -> option string)
    (parent : DeviceTreeNode) (path : list string) (c : cells) (create : bool)
    (p : node_ptr) :
  snd (dt_find_node strdup parent path c create) = Some p ->
  snd (fst (dt_find_node strdup parent path c create))
  = fold_left (fun c n => dt_read_cell_props n c)
      (nodes_along (fst (fst (dt_find_node strdup parent path c create))) p) c.
Proof.
  revert parent c p. induction path as [|comp path IH]; intros parent c p.
  - simpl. intros H. inversion H. reflexivity.
  - cbn [dt_find_node].
    destruct (find_child (children parent) comp) as [[i found]|] eqn:F.
    + pose proof (find_child_some _ _ _ _ F) as [Fi _].
      specialize (IH found (dt_read_cell_props parent c)).
      destruct (dt_find_node strdup found path _ create) as [[f' c'] r].
      cbn [fst snd] in *. destruct r as [q|]; [|discriminate].
      intros H. inversion H; subst p.
      cbn [nodes_along children set_children].
      rewrite (nth_error_list_set _ _ _ _ Fi). cbn [fold_left].
      change (dt_read_cell_props
                {| name := name parent; properties := properties parent;
                   children := list_set (children parent) i f' |} c)
        with (dt_read_cell_props parent c).
      apply (IH q eq_refl).
    + destruct (negb create); [discriminate|].
      destruct (strdup comp) as [nm|]; [|discriminate].
      set (found := mkNode nm (properties alloc_node) (children alloc_node)).
      specialize (IH found (dt_read_cell_props parent c)).
      destruct (dt_find_node strdup found path _ create) as [[f' c'] r].
      cbn [fst snd] in *. destruct r as [q|]; [|discriminate].
      intros H. inversion H; subst p.
      unfold list_insert_after_head.
      cbn [nodes_along children set_children nth_error fold_left].
      change (dt_read_cell_props
                {| name := name parent; properties := properties parent;
                   children := f' :: children parent |} c)
        with (dt_read_cell_props parent c).
      apply (IH q eq_refl).
Qed.

Lemma dt_find_node_cells_witness :
  snd (fst (dt_find_node (fun s => Some s) example_soc_root ["soc"; "uart"]%string
              (Some 0, Some 0) false))
  = fold_left (fun c n => dt_read_cell_props n c)
      (nodes_along
         (fst (fst (dt_find_node (fun s => Some s) example_soc_root
                      ["soc"; "uart"]%string (Some 0, Some 0) false)))
         [0; 0]%nat)
      (Some 0, Some 0).
Proof.
  apply (dt_find_node_cells (fun s => Some s) example_soc_root
           ["soc"; "uart"]%string (Some 0, Some 0) false [0; 0]%nat).
  reflexivity.
Defined.

(** ** The flattener steps over the padding *)

Lemma holes_kept_app m m' a l1 l2 :
  holes_kept m m' a (l1 ++ l2) <->
  holes_kept m m' a l1 /\ holes_kept m m' (a + Z.of_nat (List.length l1)) l2.
Proof.
  unfold holes_kept. split.
  - intros H. split; intros i Hi.
    + apply H. rewrite nth_error_app1; [exact Hi|].
      apply nth_error_Some. congruence.
    + replace (a + Z.of_nat (List.length l1) + Z.of_nat i)
        with (a + Z.of_nat (List.length l1 + i)) by lia.
      apply H. rewrite nth_error_app2 by lia.
      replace (List.length l1 + i - List.length l1)%nat with i by lia. exact Hi.
  - intros [H1 H2] i Hi. destruct (Nat.lt_ge_cases i (List.length l1)) as [L|L].
    + apply H1. rewrite nth_error_app1 in Hi by exact L. exact Hi.
    + rewrite nth_error_app2 in Hi by exact L. specialize (H2 _ Hi).
      replace (a + Z.of_nat i)
        with (a + Z.of_nat (List.length l1) + Z.of_nat (i - List.length l1)) by lia.
      exact H2.
Qed.

Lemma holes_kept_written m m' a l : holes_kept m m' a (written l).
Proof.
  intros i Hi. unfold written in Hi. rewrite nth_error_map in Hi.
  destruct (nth_error l i); discriminate.
Qed.

Lemma holes_kept_same m m' a l :
  (forall x, a <= x < a + Z.of_nat (List.length l) -> m' x = m x) ->
  holes_kept m m' a l.
Proof.
  intros H i Hi. apply H.
  assert (i < List.length l)%nat by (apply nth_error_Some; congruence). lia.
Qed.

Lemma holes_kept_before m m0 m' a l :
  (forall x, a <= x < a + Z.of_nat (List.length l) -> m0 x = m x) ->
  holes_kept m0 m' a l -> holes_kept m m' a l.
Proof.
  intros H K i Hi. rewrite (K i Hi). apply H.
  assert (i < List.length l)%nat by (apply nth_error_Some; congruence). lia.
Qed.

Lemma holes_kept_after m m1 m' a l :
  holes_kept m m1 a l ->
  (forall x, a <= x < a + Z.of_nat (List.length l) -> m' x = m1 x) ->
  holes_kept m m' a l.
Proof.
  intros K H i Hi. rewrite <- (K i Hi). apply H.
  assert (i < List.length l)%nat by (apply nth_error_Some; congruence). lia.
Qed.

Lemma dt_flatten_prop_holes p sb m ds dstr noff :
  wf_prop p = true -> round_up4 (prop_size p) < 2 ^ 32 ->
  ds + prop_struct_bytes p <= dstr ->
  holes_kept m (fst (fst (dt_flatten_prop p sb (m, ds, dstr)))) ds (prop_image p noff).
Proof.
  intros H Hr Hd. destruct (wf_prop_spec p H) as (Hs & Hl & _).
  apply size_is_uint32_spec in Hs.
  pose proof (round_up4_bounds _ (proj1 Hs)) as R.
  unfold prop_struct_bytes in Hd.
  unfold dt_flatten_prop, prop_image. cbn [fst snd].
  change (firstn (Z.to_nat (prop_size p)) (data_bytes (prop_data p))) with (prop_value p).
  assert (Hv : Z.of_nat (List.length (prop_value p)) = prop_size p) by lia.
  rewrite !holes_kept_app. repeat split; try apply holes_kept_written.
  apply holes_kept_same. intros x Hx.
  rewrite !written_length, !htobe32_length, Hv in Hx.
  rewrite padding_length in Hx by lia. change (Z.of_nat 4) with 4 in Hx.
  rewrite store_bytes_outside by (rewrite Hv; lia).
  rewrite store_bytes_outside by (rewrite c_str_length; lia).
  rewrite !store_bytes_outside by (rewrite htobe32_length; lia).
  reflexivity.
Qed.

Lemma dt_flatten_props_holes ps :
  forall sb m ds dstr noff,
    forallb wf_prop ps = true -> props_struct_bytes ps < 2 ^ 32 ->
    ds + props_struct_bytes ps <= dstr ->
    holes_kept m
      (fst (fst (fold_left (fun st prop => dt_flatten_prop prop sb st) ps (m, ds, dstr))))
      ds (props_image ps noff).
Proof.
  induction ps as [|p ps IH]; intros sb m ds dstr noff H B Hd.
  - cbn. intros i Hi. destruct i; discriminate.
  - cbn [forallb] in H. apply andb_true_iff in H. destruct H as [Hp Hps].
    pose proof (wf_props_sizes ps Hps) as Sps.
    destruct (wf_prop_spec p Hp) as (Sp & _ & _).
    unfold props_struct_bytes in *. cbn [map sumZ] in B, Hd.
    pose proof (prop_struct_bytes_pos p (proj1 (size_is_uint32_spec p Sp))) as P1.
    pose proof (prop_strings_bytes_pos p) as P2.
    pose proof (props_struct_bytes_nonneg ps Sps) as N1.
    unfold props_struct_bytes in N1.
    assert (Hr : round_up4 (prop_size p) < 2 ^ 32) by (unfold prop_struct_bytes in *; lia).
    cbn [fold_left props_image].
    pose proof (dt_flatten_prop_holes p sb m ds dstr noff Hp Hr ltac:(lia)) as A1.
    destruct (dt_flatten_prop_cursors p sb m ds dstr Sp Hr) as (C1 & C2 & F0).
    destruct (dt_flatten_prop p sb (m, ds, dstr)) as [[m1 ds1] dstr1].
    cbn [fst snd] in A1, C1, C2, F0. subst ds1 dstr1.
    pose proof (IH sb m1 (ds + prop_struct_bytes p) (dstr + prop_strings_bytes p)
                  (noff + prop_strings_bytes p) Hps ltac:(lia) ltac:(lia)) as B1.
    destruct (dt_flatten_props_cursors ps sb m1 (ds + prop_struct_bytes p)
                (dstr + prop_strings_bytes p) Sps ltac:(unfold props_struct_bytes; lia))
      as (_ & _ & F).
    unfold props_struct_bytes in F.
    destruct (fold_left _ ps _) as [[m2 ds2] dstr2]. cbn [fst snd] in B1, F |- *.
    apply holes_kept_app. rewrite (prop_image_length p _ Hp). split.
    + eapply holes_kept_after; [exact A1|]. intros x Hx.
      rewrite (prop_image_length p _ Hp) in Hx. apply F; lia.
    + eapply holes_kept_before; [|exact B1]. intros x Hx.
      rewrite (props_image_length ps _ Hps) in Hx. unfold props_struct_bytes in Hx.
      apply F0; lia.
Qed.

Lemma dt_flatten_node_holes n :
  forall sb m ds dstr noff,
    wf_node n = true -> node_struct_bytes n < 2 ^ 32 ->
    ds + node_struct_bytes n <= dstr ->
    holes_kept m (fst (fst (dt_flatten_node n sb (m, ds, dstr)))) ds (node_image n noff).
Proof.
  induction n as [nm ps cs IH] using DeviceTreeNode_ind'.
  intros sb m ds dstr noff H B Hd.
  pose proof (wf_node_sizes _ H) as Hsz.
  cbn [sizes_are_uint32 properties children] in Hsz.
  apply andb_true_iff in Hsz. destruct Hsz as [Sps Scs].
  cbn [wf_node name properties children] in H.
  apply andb_true_iff in H. destruct H as [H Hcs].
  apply andb_true_iff in H. destruct H as [_ Hps].
  cbn [node_struct_bytes name properties children] in *.
  cbn [dt_flatten_node node_image name properties children].
  pose proof (props_struct_bytes_nonneg ps Sps) as P1.
  pose proof (strlen_nonneg nm) as L.
  pose proof (round_up4_bounds (strlen nm + 1) ltac:(lia)) as R.
  pose proof (sizes_children_nonneg cs Scs) as [G1 G2].
  rewrite size32_round_up4 by lia.
  set (m0 := store_bytes (store_bytes m ds (htobe32 TokenBeginNode)) (ds + 4)
               (c_str nm ++ [x00])).
  assert (A1 : holes_kept m m0 (ds + 4) (name_image nm)).
  { subst m0. unfold name_image. apply holes_kept_app.
    split; [apply holes_kept_written|].
    apply holes_kept_same. intros x Hx.
    rewrite written_length, c_str_length in Hx. rewrite padding_length in Hx by lia.
    rewrite store_bytes_outside by (rewrite c_str_length; lia).
    rewrite store_bytes_outside by (rewrite htobe32_length; lia). reflexivity. }
  assert (E0 : forall x, ds + 4 + round_up4 (strlen nm + 1) <= x -> m0 x = m x).
  { intros x Hx. subst m0.
    rewrite store_bytes_outside by (rewrite c_str_length; lia).
    rewrite store_bytes_outside by (rewrite htobe32_length; lia). reflexivity. }
  clearbody m0.
  set (dp := ds + 4 + round_up4 (strlen nm + 1)) in *.
  pose proof (dt_flatten_props_holes ps sb m0 dp dstr noff Hps ltac:(lia)
                ltac:(subst dp; lia)) as A2.
  destruct (dt_flatten_props_cursors ps sb m0 dp dstr Sps ltac:(lia)) as (C1 & C2 & F1).
  destruct (fold_left _ ps _) as [[m1 ds1] dstr1].
  cbn [fst snd] in A2, C1, C2, F1. subst ds1 dstr1.
  set (dc := dp + props_struct_bytes ps) in *.
  set (sc := dstr + props_strings_bytes ps) in *.
  pose proof (props_strings_bytes_nonneg ps) as P2.
  assert (G : forall m1 d1 s1 k,
             sumZ (map node_struct_bytes cs) < 2 ^ 32 ->
             d1 + sumZ (map node_struct_bytes cs) <= s1 ->
             holes_kept m1
               (fst (fst (fold_left (fun st child => dt_flatten_node child sb st)
                            cs (m1, d1, s1))))
               d1 (children_image node_image cs k)).
  { clear -IH Hcs Scs. induction IH as [|c cs Hc _ IHcs]; intros m1 d1 s1 k Bc Hdc.
    - cbn. intros i Hi. destruct i; discriminate.
    - cbn [forallb] in Hcs, Scs.
      apply andb_true_iff in Hcs. destruct Hcs as [Wc Wcs].
      apply andb_true_iff in Scs. destruct Scs as [Sc Scs].
      cbn [map sumZ] in Bc, Hdc.
      pose proof (node_bytes_nonneg c Sc) as [N1 N2].
      pose proof (sizes_children_nonneg cs Scs) as [G1 G2].
      cbn [fold_left children_image].
      pose proof (Hc sb m1 d1 s1 k Wc ltac:(lia) ltac:(lia)) as A1.
      destruct (dt_flatten_node_cursors c sb m1 d1 s1 Sc ltac:(lia)) as (C1 & C2 & F0).
      destruct (dt_flatten_node c sb (m1, d1, s1)) as [[m2 d2] s2].
      cbn [fst snd] in A1, C1, C2, F0. subst d2 s2.
      pose proof (IHcs Wcs Scs m2 (d1 + node_struct_bytes c) (s1 + node_strings_bytes c)
                    (k + node_strings_bytes c) ltac:(lia) ltac:(lia)) as B1.
      destruct (dt_flatten_children_cursors cs sb m2 (d1 + node_struct_bytes c)
                  (s1 + node_strings_bytes c) Scs ltac:(lia)) as (_ & _ & F).
      destruct (fold_left _ cs _) as [[m3 d3] s3]. cbn [fst snd] in B1, F |- *.
      apply holes_kept_app. rewrite (node_image_length c _ Wc). split.
      + eapply holes_kept_after; [exact A1|]. intros x Hx.
        rewrite (node_image_length c _ Wc) in Hx. apply F; lia.
      + eapply holes_kept_before; [|exact B1]. intros x Hx.
        rewrite (children_image_length cs _ Wcs) in Hx. apply F0; lia. }
  pose proof (G m1 dc sc (noff + props_strings_bytes ps) ltac:(lia)
                ltac:(subst sc dc dp; lia)) as A4.
  destruct (dt_flatten_children_cursors cs sb m1 dc sc Scs ltac:(lia)) as (D1 & D2 & F2).
  destruct (fold_left _ cs _) as [[m2 ds2] dstr2].
  cbn [fst snd] in A4, D1, D2, F2 |- *. subst ds2 dstr2.
  pose proof (props_image_length ps noff Hps) as LP.
  pose proof (children_image_length cs (noff + props_strings_bytes ps) Hcs) as LC.
  pose proof (name_image_length nm) as LN.
  rewrite !holes_kept_app, written_length, htobe32_length, LN, LP.
  change (Z.of_nat 4) with 4. fold dp. fold dc.
  split; [apply holes_kept_written|].
  split; [|split; [|split; [|apply holes_kept_written]]].
  - eapply holes_kept_after; [exact A1|]. intros x Hx. rewrite LN in Hx.
    rewrite store_bytes_outside by (rewrite htobe32_length; lia).
    rewrite (F2 x) by (subst sc dc dp; lia). apply F1; subst dp; lia.
  - eapply holes_kept_before; [|eapply holes_kept_after; [exact A2|]].
    + intros x Hx. rewrite LP in Hx. apply E0. lia.
    + intros x Hx. rewrite LP in Hx.
      rewrite store_bytes_outside by (rewrite htobe32_length; lia).
      apply F2; subst sc dc; lia.
  - eapply holes_kept_before; [|eapply holes_kept_after; [exact A4|]].
    + intros x Hx. rewrite LC in Hx. rewrite (F1 x) by (subst dc; lia).
      apply E0. subst dc. lia.
    + intros x Hx. rewrite LC in Hx.
      rewrite store_bytes_outside by (rewrite htobe32_length; lia). reflexivity.
Qed.

(** The stages of [dt_flatten]: the memory [dt_flatten_node] starts from
    is the destination from the structure block on, but for the end
    token. *)
Lemma dt_flatten_stages tree r m :
  fits tree r (2 ^ 32) ->
  exists m7,
    dt_flatten tree m
    = Some (store_bytes
              (fst (fst (dt_flatten_node r
                           (header_size tree
                            + 16 * (Z.of_nat (List.length (reserve_map tree)) + 1)
                            + node_struct_bytes r + 4)
                           (m7,
                            header_size tree
                            + 16 * (Z.of_nat (List.length (reserve_map tree)) + 1),
                            header_size tree
                            + 16 * (Z.of_nat (List.length (reserve_map tree)) + 1)
                            + node_struct_bytes r + 4))))
              hdr_totalsize
              (htobe32 (header_size tree
                        + 16 * (Z.of_nat (List.length (reserve_map tree)) + 1)
                        + node_struct_bytes r + 4 + node_strings_bytes r))) /\
    forall x,
      header_size tree + 16 * (Z.of_nat (List.length (reserve_map tree)) + 1) <= x
      < header_size tree + 16 * (Z.of_nat (List.length (reserve_map tree)) + 1)
        + node_struct_bytes r ->
      m7 x = m x.
Proof.
  intros (Hr & Hh & Hs & Hb). unfold flat_bytes in Hb.
  unfold sizeof_FdtHeader in *.
  pose proof (node_bytes_nonneg r Hs) as [N1 N2].
  assert (Esz : dt_flat_node_size r (0, 0) = (node_struct_bytes r, node_strings_bytes r)).
  { rewrite dt_flat_node_size_exact by (try assumption; lia). f_equal; lia. }
  unfold dt_flatten. rewrite Hr, Esz.
  rewrite (wrap32_small (header_size tree)) by lia.
  unfold hdr_totalsize, hdr_structure_offset, hdr_strings_offset,
    hdr_reserve_map_offset, hdr_strings_size, hdr_structure_size in *.
  set (H := header_size tree) in *.
  set (R := reserve_map tree) in *.
  set (n := Z.of_nat (List.length R)) in *.
  assert (Hn : 0 <= n) by (subst n; lia).
  set (m0 := store_bytes m 0 (load_bytes (header tree) 0 (Z.to_nat H))).
  assert (P0 : forall x, H <= x -> m0 x = m x).
  { intros x Hx. subst m0. apply store_bytes_outside.
    rewrite load_bytes_length. lia. }
  clearbody m0.
  destruct (dt_flatten_map_fold R m0 H) as [C1 F1].
  destruct (fold_left _ R _) as [m1 d1]. cbn [fst snd] in C1, F1. subst d1.
  fold n in F1 |- *.
  replace (H + 16 * (n + 1)) with (H + 16 * n + 8 * 2) by lia.
  set (S0 := H + 16 * n + 8 * 2).
  set (SS := node_struct_bytes r) in *.
  set (ST := node_strings_bytes r) in *.
  assert (LZ : Z.of_nat (List.length (htobe64 0 ++ htobe64 0)) = 16) by reflexivity.
  match goal with
  | |- context [dt_flatten_node r _ (?mm, _, _)] => exists mm
  end.
  split.
  - destruct (dt_flatten_node r (S0 + SS + 4) _) as [[m8 ds8] dstr8].
    cbn [fst]. reflexivity.
  - intros x Hx.
    rewrite !store32_outside by (subst S0; lia).
    rewrite store_bytes_outside by (subst S0; lia).
    rewrite (F1 x) by (subst S0; lia). apply P0. subst S0. lia.
Qed.

(** X21. [dt_flatten] writes no padding byte: behind a node name and
    behind a property value the bytes up to the next multiple of four in
    the structure block are in the blob what they were in the destination
    buffer before the call. *)
Theorem dt_flatten_keeps_padding (tree : DeviceTree) (r : DeviceTreeNode) (m : memory) :
  well_formed tree r ->
  exists blob,
    dt_flatten tree m = Some blob /\
    forall i,
      nth_error (node_image r 0) i = Some None ->
      blob (be32toh_at blob hdr_structure_offset + Z.of_nat i)
      = m (be32toh_at blob hdr_structure_offset + Z.of_nat i).
Proof.
  intros Hwf.
  destruct (dt_flatten_blob tree r m Hwf) as (blob & Hf & E1 & _).
  destruct Hwf as (Hfit & Hw & _ & _).
  assert (Hfit' : fits tree r (2 ^ 32)).
  { destruct Hfit as (A & B & C & D). repeat split; try assumption. lia. }
  destruct (dt_flatten_stages tree r m Hfit') as (m7 & Hf' & Hm).
  exists blob. split; [exact Hf|]. rewrite E1.
  rewrite Hf in Hf'. apply some_eq in Hf'. rename Hf' into Eb.
  destruct Hfit as (Hr & Hh & Hs & Hb). unfold flat_bytes in Hb.
  unfold sizeof_FdtHeader in Hh.
  pose proof (node_bytes_nonneg r Hs) as [N1 N2].
  set (S0 := header_size tree + 16 * (Z.of_nat (List.length (reserve_map tree)) + 1)) in *.
  pose proof (dt_flatten_node_holes r (S0 + node_struct_bytes r + 4) m7 S0
                (S0 + node_struct_bytes r + 4) 0 Hw ltac:(lia) ltac:(lia)) as K.
  intros i Hi.
  assert (Li : (i < List.length (node_image r 0))%nat)
    by (apply nth_error_Some; congruence).
  pose proof (node_image_length r 0 Hw) as LI.
  rewrite Eb. unfold hdr_totalsize. rewrite store32_outside by (subst S0; lia).
  rewrite (K i Hi). apply Hm. lia.
Qed.

Lemma dt_flatten_keeps_padding_witness :
  exists blob,
    dt_flatten example_tree (fun _ => xff) = Some blob /\
    blob (be32toh_at blob hdr_structure_offset + Z.of_nat 5) = xff.
Proof.
  assert (Hwf : well_formed example_tree example_root).
  { repeat split; try reflexivity; vm_compute; discriminate. }
  destruct (dt_flatten_keeps_padding example_tree example_root (fun _ => xff) Hwf)
    as (blob & F & K).
  exists blob. split; [exact F|]. apply (K 5%nat). reflexivity.
Defined.

(** ** The blocks of a flattened tree *)

(** X22. The blob [dt_flatten] makes of a well-formed tree holds, at the
    offsets its header gives, the reserve map with the entry that ends it,
    the structure block as the tokens, names, sizes, name offsets and
    values of the tree in depth-first order, and the strings block as the
    terminated names of all properties in the same order.  A name is
    written once for every property that carries it: the flattener shares
    no string between properties, and the name offset of a property is the
    sum of the lengths of the terminated names before it. *)
Theorem dt_flatten_layout (tree : DeviceTree) (r : DeviceTreeNode) (m : memory) :
  well_formed tree r ->
  exists blob,
    dt_flatten tree m = Some blob /\
    load_bytes blob (be32toh_at blob hdr_reserve_map_offset)
      (List.length (map_image (reserve_map tree)))
    = map_image (reserve_map tree) /\
    agrees blob (be32toh_at blob hdr_structure_offset) (node_image r 0) /\
    load_bytes blob (be32toh_at blob hdr_strings_offset)
      (List.length (node_strings r))
    = node_strings r /\
    Z.of_nat (List.length (node_strings r)) = node_strings_bytes r.
Proof.
  intros Hwf.
  destruct (dt_flatten_blob tree r m Hwf) as (blob & Hf & E1 & E2 & E3 & A1 & A2 & A3).
  exists blob. split; [exact Hf|]. rewrite E1, E2, E3.
  split; [apply agrees_written; exact A1|]. split; [exact A2|].
  split; [apply agrees_written; exact A3 | apply node_strings_length].
Qed.

Lemma dt_flatten_layout_witness :
  exists blob,
    dt_flatten example_tree (fun _ => xff) = Some blob /\
    load_bytes blob (be32toh_at blob hdr_strings_offset)
      (List.length (node_strings example_root))
    = node_strings example_root.
Proof.
  assert (Hwf : well_formed example_tree example_root).
  { repeat split; try reflexivity; vm_compute; discriminate. }
  destruct (dt_flatten_layout example_tree example_root (fun _ => xff) Hwf)
    as (blob & F & _ & _ & S & _).
  exists blob. split; [exact F | exact S].
Defined.

(** ** Visiting all compatible children *)

Lemma filter_none {A} (f : A -> bool) l :
  (forall x, In x l -> f x = false) -> filter f l = [].
Proof.
  induction l as [|x l IH]; intros H; [reflexivity|]. simpl.
  rewrite (H x (or_introl eq_refl)). apply IH. intros y Hy. apply H. right. exact Hy.
Qed.

Lemma compat_children_from parent compat fuel :
  forall child,
    let from := match child with Some k => S k | None => O end in
    (List.length (children parent) - from < fuel)%nat ->
    compat_children fuel parent child compat
    = filter (child_compatible parent compat)
        (seq from (List.length (children parent) - from)).
Proof.
  induction fuel as [|fuel IH]; intros child from Hf; [lia|].
  cbn [compat_children].
  pose proof (dt_find_next_compat_child_spec parent child compat) as H.
  fold from in H.
  destruct (dt_find_next_compat_child parent child compat) as [i|].
  - destruct H as (Hi & (n & Hn & Hc) & Hb).
    assert (Li : (i < List.length (children parent))%nat)
      by (apply nth_error_Some; congruence).
    rewrite (IH (Some i)) by (cbv zeta; lia).
    replace (List.length (children parent) - from)%nat
      with ((i - from) + S (List.length (children parent) - S i))%nat by lia.
    rewrite seq_app, filter_app. cbn [seq filter].
    replace (from + (i - from))%nat with i by lia.
    rewrite (filter_none (child_compatible parent compat) (seq from (i - from))).
    + assert (Ci : child_compatible parent compat i = true)
        by (unfold child_compatible; rewrite Hn; exact Hc).
      rewrite Ci. reflexivity.
    + intros j Hj. apply in_seq in Hj. unfold child_compatible.
      destruct (nth_error (children parent) j) as [m|] eqn:E; [|reflexivity].
      apply (Hb j m); [lia | exact E].
  - symmetry. apply filter_none. intros j Hj. apply in_seq in Hj.
    unfold child_compatible.
    destruct (nth_error (children parent) j) as [m|] eqn:E; [|reflexivity].
    apply (H j m); [lia | exact E].
Qed.

(** X23. A caller that starts [dt_find_next_compat_child] with [NULL] and
    hands every child it gets back in, until it gets [NULL], visits the
    compatible children of the parent, all of them, each once, in list
    order, and needs one call more than there are compatible children. *)
Theorem compat_children_all (parent : DeviceTreeNode) (compat : string) (fuel : nat) :
  (List.length (children parent) < fuel)%nat ->
  compat_children fuel parent None compat
  = filter (child_compatible parent compat) (seq O (List.length (children parent))).
Proof.
  intros H. rewrite (compat_children_from parent compat fuel None) by (cbv zeta; lia).
  rewrite Nat.sub_0_r. reflexivity.
Qed.

Lemma compat_children_all_witness :
  compat_children 4 example_compat_root None "foo" = [0; 2]%nat.
Proof.
  apply (compat_children_all example_compat_root "foo" 4). simpl. lia.
Defined.

(** ** Creation fails only with the allocator *)

(** X24. With [create] on, [dt_find_node] returns [NULL] only when
    [strdup] has returned [NULL] for a component of the path. *)
Theorem dt_find_node_create_null (strdup : string -> option string)
    (parent : DeviceTreeNode) (path : list string) (c : cells) :
  snd (dt_find_node strdup parent path c true) = None ->
  exists comp, In comp path /\ strdup comp = None.
Proof.
  revert parent c. induction path as [|comp path IH]; intros parent c.
  - simpl. discriminate.
  - cbn [dt_find_node].
    destruct (find_child (children parent) comp) as [[i found]|].
    + specialize (IH found (dt_read_cell_props parent c)).
      destruct (dt_find_node strdup found path _ true) as [[f' c'] r].
      cbn [snd] in *. destruct r as [q|]; [discriminate|].
      intros _. destruct (IH eq_refl) as (x & Hx & Sx).
      exists x. split; [right; exact Hx | exact Sx].
    + cbn [negb]. destruct (strdup comp) as [nm|] eqn:E.
      * set (found := mkNode nm (properties alloc_node) (children alloc_node)).
        specialize (IH found (dt_read_cell_props parent c)).
        destruct (dt_find_node strdup found path _ true) as [[f' c'] r].
        cbn [snd] in *. destruct r as [q|]; [discriminate|].
        intros _. destruct (IH eq_refl) as (x & Hx & Sx).
        exists x. split; [right; exact Hx | exact Sx].
      * intros _. exists comp. split; [left; reflexivity | exact E].
Qed.

Lemma dt_find_node_create_null_witness :
  exists comp,
    In comp ["soc"; "spi"]%string /\
    (fun s => if String.eqb s "spi" then None else Some s) comp = None.
Proof.
  apply (dt_find_node_create_null
           (fun s => if String.eqb s "spi" then None else Some s)
           example_soc_root ["soc"; "spi"]%string (None, None)).
  reflexivity.
Defined.

(** ** Creation keeps what a lookup found *)

Lemma find_child_list_set_other l nm i c c' nm' :
  find_child l nm = Some (i, c) -> name c' = nm -> nm' <> nm ->
  find_child (list_set l i c') nm' = find_child l nm'.
Proof.
  revert i. induction l as [|d l IH]; simpl; intros i H E Hne; [discriminate|].
  destruct (String.eqb_spec (name d) nm) as [En|En].
  - inversion H; subst i c. simpl.
    destruct (String.eqb_spec (name c') nm'); [congruence|].
    destruct (String.eqb_spec (name d) nm'); [congruence | reflexivity].
  - destruct (find_child l nm) as [[j e]|] eqn:F; [|discriminate].
    inversion H; subst i c. simpl.
    rewrite (IH j eq_refl E Hne). reflexivity.
Qed.

Lemma nth_error_list_set_other {A} (l : list A) i j x :
  i <> j -> nth_error (list_set l i x) j = nth_error l j.
Proof.
  revert i j. induction l as [|y l IH]; intros [|i] [|j] H; simpl;
    try reflexivity; try congruence.
  apply IH. congruence.
Qed.

Lemma find_child_index_eq l nm nm' i j c d :
  find_child l nm = Some (i, c) -> find_child l nm' = Some (j, d) ->
  nm' <> nm -> i <> j.
Proof.
  intros H1 H2 Hne E. subst j.
  apply find_child_some in H1. apply find_child_some in H2.
  destruct H1 as [A1 B1]. destruct H2 as [A2 B2].
  rewrite A1 in A2. inversion A2; subst. congruence.
Qed.

(** X25. Creating a path hides, renames and strips no node that was
    there: whatever a lookup without creation found before
    [dt_find_node] created a path (with [strdup] returning its copy), the
    same lookup finds afterwards, a node of the same name with the same
    properties. *)
Theorem dt_find_node_create_keeps (strdup : string -> option string)
    (parent : DeviceTreeNode) (path : list string) (c : cells)
    (path2 : list string) (c2 : cells) (q : node_ptr) :
  (forall s, strdup s = Some s) ->
  snd (dt_find_node strdup parent path2 c2 false) = Some q ->
  exists q' n n',
    snd (dt_find_node strdup (fst (fst (dt_find_node strdup parent path c true)))
           path2 c2 false) = Some q' /\
    node_at parent q = Some n /\
    node_at (fst (fst (dt_find_node strdup parent path c true))) q' = Some n' /\
    name n' = name n /\ properties n' = properties n.
Proof.
  intros Hs. revert parent c path2 c2 q.
  induction path as [|comp path IH]; intros parent c path2 c2 q H2.
  - cbn [dt_find_node fst]. exists q.
    assert (N : exists n, node_at parent q = Some n).
    { clear -H2. revert parent c2 q H2.
      induction path2 as [|comp2 path2 IH2]; intros parent c2 q H2.
      - simpl in H2. inversion H2. exists parent. reflexivity.
      - cbn [dt_find_node] in H2.
        destruct (find_child (children parent) comp2) as [[j ch]|] eqn:F;
          [|discriminate].
        apply find_child_some in F. destruct F as [F _].
        specialize (IH2 ch (dt_read_cell_props parent c2)).
        destruct (dt_find_node strdup ch path2 _ false) as [[f' c'] r].
        cbn [snd] in *. destruct r as [q2|]; [|discriminate].
        inversion H2; subst q. destruct (IH2 q2 eq_refl) as (n & Hn).
        exists n. cbn [node_at]. rewrite F. exact Hn. }
    destruct N as (n & Hn). exists n, n.
    split; [exact H2|]. split; [exact Hn|]. split; [exact Hn|].
    split; reflexivity.
  - destruct path2 as [|comp2 path2].
    + simpl in H2. inversion H2; subst q.
      exists [], parent, (fst (fst (dt_find_node strdup parent (comp :: path) c true))).
      split; [reflexivity|]. split; [reflexivity|]. split; [reflexivity|].
      apply dt_find_node_keeps.
    + cbn [dt_find_node] in H2.
      destruct (find_child (children parent) comp2) as [[j ch]|] eqn:F2;
        [|discriminate].
      pose proof (find_child_some _ _ _ _ F2) as [Fj Fnj].
      destruct (dt_find_node strdup ch path2 (dt_read_cell_props parent c2) false)
        as [[ch' cc] r2] eqn:R2.
      cbn [snd] in H2. destruct r2 as [q2|]; [|discriminate].
      cbn [option_map] in H2. apply some_eq in H2. subst q.
      assert (H2 : snd (dt_find_node strdup ch path2 (dt_read_cell_props parent c2) false)
                   = Some q2) by (rewrite R2; reflexivity).
      cbn [dt_find_node].
      destruct (find_child (children parent) comp) as [[i found]|] eqn:F1.
      * pose proof (find_child_some _ _ _ _ F1) as [Fi Fni].
        pose proof (dt_find_node_keeps strdup found path (dt_read_cell_props parent c) true)
          as [Kn Kp].
        destruct (String.eqb_spec comp2 comp) as [Ec|Ec].
        -- clear Fnj. subst comp2. rewrite F1 in F2. inversion F2; subst j ch.
           destruct (IH found (dt_read_cell_props parent c) path2
                       (dt_read_cell_props parent c2) q2 H2)
             as (q2' & n & n' & L & N1 & N2 & E1 & E2).
           destruct (dt_find_node strdup found path _ true) as [[f' c'] r].
           cbn [fst snd] in *.
           exists (i :: q2'), n, n'. cbn [dt_find_node].
           change (dt_read_cell_props
                     (set_children parent (list_set (children parent) i f')) c2)
             with (dt_read_cell_props parent c2).
           cbn [set_children children].
           rewrite (find_child_list_set _ _ _ _ f' F1) by congruence.
           destruct (dt_find_node strdup f' path2 _ false) as [[g cg] rg].
           cbn [snd] in L. subst rg. cbn [snd option_map].
           split; [reflexivity|]. cbn [node_at children set_children].
           rewrite Fi, (nth_error_list_set _ _ _ _ Fi).
           split; [exact N1|]. split; [exact N2|]. split; assumption.
        -- destruct (dt_find_node strdup found path _ true) as [[f' c'] r].
           cbn [fst snd] in *.
           assert (N : exists n, node_at (mkNode (name parent) (properties parent)
                                            (children parent)) (j :: q2) = Some n
                                 /\ node_at ch q2 = Some n).
           { cbn [node_at children]. rewrite Fj.
             destruct (IH ch (dt_read_cell_props parent c) path2
                         (dt_read_cell_props parent c2) q2 H2)
               as (_ & n & _ & _ & N1 & _). exists n. split; exact N1. }
           destruct N as (n & _ & Nch).
           exists (j :: q2), n, n. cbn [dt_find_node].
           change (dt_read_cell_props
                     (set_children parent (list_set (children parent) i f')) c2)
             with (dt_read_cell_props parent c2).
           cbn [set_children children].
           rewrite (find_child_list_set_other _ _ _ _ f' comp2 F1) by congruence.
           rewrite F2, R2. cbn [snd option_map].
           split; [reflexivity|]. cbn [node_at children set_children].
           rewrite Fj.
           rewrite nth_error_list_set_other
             by (apply (find_child_index_eq _ _ _ _ _ _ _ F1 F2 Ec)).
           rewrite Fj. split; [exact Nch|]. split; [exact Nch|]. split; reflexivity.
      * cbn [negb]. rewrite Hs.
        set (found := mkNode comp (properties alloc_node) (children alloc_node)).
        pose proof (dt_find_node_keeps strdup found path (dt_read_cell_props parent c) true)
          as [Kn _].
        assert (N : exists n, node_at ch q2 = Some n).
        { destruct (IH ch (dt_read_cell_props parent c) path2
                      (dt_read_cell_props parent c2) q2 H2)
            as (_ & n & _ & _ & N1 & _). exists n. exact N1. }
        destruct N as (n & Nch).
        destruct (dt_find_node strdup found path _ true) as [[f' c'] r].
        cbn [fst snd] in *.
        exists (S j :: q2), n, n. cbn [dt_find_node].
        change (dt_read_cell_props
                  (set_children parent (list_insert_after_head f' (children parent))) c2)
          with (dt_read_cell_props parent c2).
        unfold list_insert_after_head. cbn [set_children children find_child].
        assert (Ne : name f' <> comp2).
        { rewrite Kn. cbn [found name]. intros E. rewrite <- E in F2.
          rewrite F1 in F2. discriminate. }
        destruct (String.eqb_spec (name f') comp2); [contradiction|].
        rewrite F2, R2. cbn [snd option_map].
        split; [reflexivity|]. cbn [node_at children set_children nth_error].
        rewrite Fj. split; [exact Nch|]. split; [exact Nch|]. split; reflexivity.
Qed.

Lemma dt_find_node_create_keeps_witness :
  exists q' n n',
    snd (dt_find_node (fun s => Some s)
           (fst (fst (dt_find_node (fun s => Some s) example_soc_root
                        ["firmware"; "coreboot"]%string (None, None) true)))
           ["soc"; "uart"]%string (None, None) false) = Some q' /\
    node_at example_soc_root [0; 0]%nat = Some n /\
    node_at (fst (fst (dt_find_node (fun s => Some s) example_soc_root
                         ["firmware"; "coreboot"]%string (None, None) true))) q'
    = Some n' /\
    name n' = name n /\ properties n' = properties n.
Proof.
  apply (dt_find_node_create_keeps (fun s => Some s) example_soc_root
           ["firmware"; "coreboot"]%string (None, None)
           ["soc"; "uart"]%string (None, None) [0; 0]%nat).
  - intros s. reflexivity.
  - reflexivity.
Defined.
